(** * media-scraper: the crawl, retry and pagination logic of [mediascrapers.py]

    A shallow embedding of [src/mediascrapers.py]: the helper
    [sanitize_filename], the two traversal modes of [Scraper]
    ([scrape_recursive] and [scrape_recursive_full_site]), the page
    extractor [MediaScraper.scrape] and the cursor walker
    [InstagramScraper.scrape], followed by the properties of the
    specification that concern them.

    Python [str] values are byte strings holding UTF-8 text.  What the
    code looks for in a string is ASCII, so searching, splitting and
    ASCII case folding on the bytes agree with Python on the text; the
    two places where Python looks at characters outside ASCII
    ([str.strip] and the NFKC check of [urlsplit]) are tables of UTF-8
    sequences. *)

From Stdlib Require Import String Ascii List ZArith Lia Bool.
From stdpp Require Import base gmap strings list.

Import ListNotations.
Local Open Scope string_scope.

(** ** Python string primitives *)

Module PyStr.

Definition chr (n : nat) : ascii := ascii_of_nat n.

Definition is_empty (s : string) : bool :=
  match s with EmptyString => true | String _ _ => false end.

(** [c in cs], for a character against a set of characters. *)
Definition mem (c : ascii) (cs : list ascii) : bool :=
  existsb (Ascii.eqb c) cs.

(** [s.startswith(p)]. *)
Fixpoint startswith (p s : string) : bool :=
  match p, s with
  | EmptyString, _ => true
  | String a p', String b s' => Ascii.eqb a b && startswith p' s'
  | String _ _, EmptyString => false
  end.

(** [s[:n]] and [s[n:]]. *)
Fixpoint take (n : nat) (s : string) : string :=
  match n, s with
  | S n', String a r => String a (take n' r)
  | _, _ => EmptyString
  end.

Fixpoint drop (n : nat) (s : string) : string :=
  match n, s with
  | S n', String _ r => drop n' r
  | _, _ => s
  end.

(** [s.find(c)] for a single character; [None] is Python's [-1]. *)
Fixpoint find (c : ascii) (s : string) : option nat :=
  match s with
  | EmptyString => None
  | String a r =>
      if Ascii.eqb a c then Some 0
      else match find c r with Some i => Some (S i) | None => None end
  end.

(** The first position holding one of [cs], or the length of [s]. *)
Fixpoint find_any (cs : list ascii) (s : string) : nat :=
  match s with
  | EmptyString => 0
  | String a r => if mem a cs then 0 else S (find_any cs r)
  end.

(** [needle in s]. *)
Fixpoint contains (needle s : string) : bool :=
  startswith needle s ||
  match s with
  | EmptyString => false
  | String _ r => contains needle r
  end.

(** [s.split(c, 1)] when [c in s]. *)
Definition split_once (c : ascii) (s : string) : option (string * string) :=
  match find c s with
  | Some i => Some (take i s, drop (S i) s)
  | None => None
  end.

(** [s.rfind(c)]. *)
Fixpoint rfind (c : ascii) (s : string) : option nat :=
  match s with
  | EmptyString => None
  | String a r =>
      match rfind c r with
      | Some i => Some (S i)
      | None => if Ascii.eqb a c then Some 0 else None
      end
  end.

(** [s.lstrip(cs)] and [s.rstrip(cs)] with an explicit character set. *)
Fixpoint lstrip (cs : list ascii) (s : string) : string :=
  match s with
  | EmptyString => EmptyString
  | String a r => if mem a cs then lstrip cs r else s
  end.

Fixpoint rstrip (cs : list ascii) (s : string) : string :=
  match s with
  | EmptyString => EmptyString
  | String a r =>
      let r' := rstrip cs r in
      if is_empty r' && mem a cs then EmptyString else String a r'
  end.

(** [s.replace(c, "")]. *)
Fixpoint remove (cs : list ascii) (s : string) : string :=
  match s with
  | EmptyString => EmptyString
  | String a r => if mem a cs then remove cs r else String a (remove cs r)
  end.

(** ASCII case folding.  Outside ASCII [str.lower] yields an ASCII
    letter only from U+212A ([k]) and from U+0130 ([i] followed by
    U+0307); neither completes [captcha] or [javascript:], so the
    substring tests of the scraper see the same answer. *)
Definition lower_char (c : ascii) : ascii :=
  let n := nat_of_ascii c in
  if (65 <=? n)%nat && (n <=? 90)%nat then ascii_of_nat (n + 32) else c.

Fixpoint lower (s : string) : string :=
  match s with
  | EmptyString => EmptyString
  | String a r => String (lower_char a) (lower r)
  end.

Fixpoint forall_chars (p : ascii -> bool) (s : string) : bool :=
  match s with
  | EmptyString => true
  | String a r => p a && forall_chars p r
  end.

(** [s.isascii()]. *)
Definition isascii (s : string) : bool :=
  forall_chars (fun c => (nat_of_ascii c <? 128)%nat) s.

(** [s.partition(c)]: the text before the first [c], whether there is
    one, and the text after it. *)
Definition partition (c : ascii) (s : string) : string * bool * string :=
  match find c s with
  | Some i => (take i s, true, drop (S i) s)
  | None => (s, false, EmptyString)
  end.

(** [s.rpartition(c)[2]]: the text after the last [c], all of [s]
    when there is none. *)
Definition after_last (c : ascii) (s : string) : string :=
  match rfind c s with
  | Some i => drop (S i) s
  | None => s
  end.

(** [s.split(c)]. *)
Fixpoint split (c : ascii) (s : string) : list string :=
  match s with
  | EmptyString => [EmptyString]
  | String a r =>
      if Ascii.eqb a c then EmptyString :: split c r
      else
        match split c r with
        | p :: ps => String a p :: ps
        | [] => [String a EmptyString]
        end
  end.

(** The last character of a string, if any. *)
Fixpoint last_char (s : string) : option ascii :=
  match s with
  | EmptyString => None
  | String a EmptyString => Some a
  | String _ r => last_char r
  end.

(** The characters [str.isspace] accepts, as UTF-8 byte sequences
    (in reverse byte order in the second list, for stripping from the
    right): U+0009..U+000D, U+001C..U+0020, U+0085, U+00A0, U+1680,
    U+2000..U+200A, U+2028, U+2029, U+202F, U+205F, U+3000. *)
Definition whitespace : list (list nat) :=
  map (fun n => [n]) [9; 10; 11; 12; 13; 28; 29; 30; 31; 32]%nat
  ++ [[194; 133]; [194; 160]; [225; 154; 128]]%nat
  ++ map (fun n => [226; 128; n]%nat)
       [128; 129; 130; 131; 132; 133; 134; 135; 136; 137; 138; 168; 169; 175]%nat
  ++ [[226; 129; 159]; [227; 128; 128]]%nat.

Definition whitespace_fwd : list (list ascii) := map (map chr) whitespace.
Definition whitespace_bwd : list (list ascii) := map (@rev ascii) whitespace_fwd.

(** [l] without its prefix [p], when it has that prefix. *)
Fixpoint chop (p l : list ascii) : option (list ascii) :=
  match p, l with
  | [], _ => Some l
  | a :: p', b :: l' => if Ascii.eqb a b then chop p' l' else None
  | _ :: _, [] => None
  end.

Fixpoint chop_any (ps : list (list ascii)) (l : list ascii) : option (list ascii) :=
  match ps with
  | [] => None
  | p :: ps' =>
      match chop p l with
      | Some l' => Some l'
      | None => chop_any ps' l
      end
  end.

(** Remove leading sequences of [ps] as long as there is one; every
    removal shortens the list, so [length l] rounds are enough. *)
Fixpoint strip_front (fuel : nat) (ps : list (list ascii)) (l : list ascii) : list ascii :=
  match fuel with
  | O => l
  | S fuel' =>
      match chop_any ps l with
      | Some l' => strip_front fuel' ps l'
      | None => l
      end
  end.

(** [s.strip()]: whitespace removed at both ends. *)
Definition strip (s : string) : string :=
  let l := list_ascii_of_string s in
  let l1 := strip_front (length l) whitespace_fwd l in
  let l2 := rev (strip_front (length l1) whitespace_bwd (rev l1)) in
  string_of_list_ascii l2.

End PyStr.

(** ** [sanitize_filename] *)

(** The character class of the regular expression: the nine characters
    that are not allowed in a file name, and newline, carriage return
    and tab. *)
Definition forbidden_chars : list ascii :=
  ["<"; ">"; ":"; PyStr.chr 34; "/"; "\"; "|"; "?"; "*";
   PyStr.chr 10; PyStr.chr 13; PyStr.chr 9]%char.

Definition is_forbidden (c : ascii) : bool := PyStr.mem c forbidden_chars.

(** [re.sub(r'[...]', '_', name)]. *)
Fixpoint re_sub_forbidden (name : string) : string :=
  match name with
  | EmptyString => EmptyString
  | String a r =>
      String (if is_forbidden a then "_"%char else a) (re_sub_forbidden r)
  end.

Definition sanitize_filename (name : string) : string :=
  let name := re_sub_forbidden name in
  PyStr.rstrip ["."; " "]%char (PyStr.strip name).

(** ** [urllib.parse]: the parts [normalize_url] uses

    [urlparse] and [urlunparse] follow CPython 3.12 with its security
    fixes (the check of a bracketed host is [_check_bracketed_netloc]).
    [urlparse] raises [ValueError] when the network location has one
    square bracket without the other, when a bracketed host is neither
    an IPv6 nor an IPvFuture address, and when a host outside ASCII
    holds a character whose NFKC form has one of the delimiters; that
    is [None] here. *)

(** *** [ipaddress]: which strings are addresses *)

Module IpAddress.

Definition is_digit (c : ascii) : bool :=
  let n := nat_of_ascii c in ((48 <=? n) && (n <=? 57))%nat.

Definition is_hex (c : ascii) : bool :=
  let n := nat_of_ascii c in
  ((48 <=? n) && (n <=? 57) || (65 <=? n) && (n <=? 70)
   || (97 <=? n) && (n <=? 102))%nat.

(** [int(s, 10)] for a string of decimal digits. *)
Fixpoint decimal (acc : N) (s : string) : N :=
  match s with
  | EmptyString => acc
  | String a r => decimal (10 * acc + (N_of_ascii a - 48))%N r
  end.

(** [_BaseV4._parse_octet]: [true] when it returns. *)
Definition parse_octet (octet_str : string) : bool :=
  negb (PyStr.is_empty octet_str)
  && PyStr.forall_chars is_digit octet_str
  && (String.length octet_str <=? 3)%nat
  && (String.eqb octet_str "0" || negb (PyStr.startswith "0" octet_str))
  && (decimal 0 octet_str <=? 255)%N.

(** [IPv4Address(s)]: [true] when it returns. *)
Definition ipv4 (s : string) : bool :=
  negb (PyStr.contains "/" s)
  && negb (PyStr.is_empty s)
  && (let octets := PyStr.split "." s in
      (length octets =? 4)%nat && forallb parse_octet octets).

(** [_BaseV6._parse_hextet]: [true] when it returns; [int('', 16)]
    raises. *)
Definition parse_hextet (hextet_str : string) : bool :=
  PyStr.forall_chars is_hex hextet_str
  && (String.length hextet_str <=? 4)%nat
  && negb (PyStr.is_empty hextet_str).

(** [_split_scope_id]: the address without its scope. *)
Definition split_scope_id (ip_str : string) : option string :=
  let '(addr, sep, scope_id) := PyStr.partition "%" ip_str in
  if sep && (PyStr.is_empty scope_id || PyStr.contains "%" scope_id) then None
  else Some addr.

(** The positions from [i] on at which [parts] holds an empty string. *)
Fixpoint empty_at (i : nat) (parts : list string) : list nat :=
  match parts with
  | [] => []
  | p :: rest =>
      ((if PyStr.is_empty p then [i] else []) ++ empty_at (S i) rest)%list
  end.

(** [_BaseV6._ip_int_from_string]: [true] when it returns.  An IPv4
    suffix is replaced by two hextets, which are valid whatever the
    address; they are [0] here. *)
Definition ip_int_from_string (ip_str : string) : bool :=
  if PyStr.is_empty ip_str then false
  else
    let parts := PyStr.split ":" ip_str in
    if (length parts <? 3)%nat then false
    else
      let suffix := List.last parts EmptyString in
      let converted :=
        if PyStr.contains "." suffix then
          if ipv4 suffix then Some (removelast parts ++ ["0"; "0"])%list else None
        else Some parts in
      match converted with
      | None => false
      | Some parts =>
          let n := length parts in
          if (9 <? n)%nat then false
          else
            let first_empty := PyStr.is_empty (hd EmptyString parts) in
            let last_empty := PyStr.is_empty (List.last parts EmptyString) in
            match empty_at 1 (removelast (tl parts)) with
            | _ :: _ :: _ => false
            | [skip_index] =>
                let parts_hi := if first_empty then skip_index - 1 else skip_index in
                let parts_lo :=
                  if last_empty then n - skip_index - 1 - 1 else n - skip_index - 1 in
                if first_empty && negb (parts_hi =? 0)%nat then false
                else if last_empty && negb (parts_lo =? 0)%nat then false
                else if (8 - (parts_hi + parts_lo) <? 1)%nat then false
                else
                  forallb parse_hextet (firstn parts_hi parts)
                  && forallb parse_hextet (skipn (n - parts_lo) parts)
            | [] =>
                (n =? 8)%nat && negb first_empty && negb last_empty
                && forallb parse_hextet parts
            end
      end.

(** [IPv6Address(s)]: [true] when it returns. *)
Definition ipv6 (s : string) : bool :=
  negb (PyStr.contains "/" s)
  && match split_scope_id s with
     | Some addr => ip_int_from_string addr
     | None => false
     end.

Inductive Version := V4 | V6.

(** [ip_address(s)]; [None] is [ValueError]. *)
Definition ip_address (s : string) : option Version :=
  if ipv4 s then Some V4 else if ipv6 s then Some V6 else None.

End IpAddress.

Module Url.

Record ParseResult := {
  scheme : string;
  netloc : string;
  path : string;
  params : string;
  query : string;
  fragment : string
}.

Definition is_alpha (c : ascii) : bool :=
  let n := nat_of_ascii c in
  ((65 <=? n) && (n <=? 90) || (97 <=? n) && (n <=? 122))%nat.

Definition is_digit (c : ascii) : bool :=
  let n := nat_of_ascii c in ((48 <=? n) && (n <=? 57))%nat.

Definition scheme_char (c : ascii) : bool :=
  is_alpha c || is_digit c || PyStr.mem c ["+"; "-"; "."]%char.

Definition c0_control_or_space : list ascii := map PyStr.chr (seq 0 33).

Definition unsafe_bytes : list ascii := map PyStr.chr [9; 13; 10]%nat.

Definition uses_params : list string :=
  [""; "ftp"; "hdl"; "prospero"; "http"; "imap"; "https"; "shttp"; "rtsp";
   "rtspu"; "sip"; "sips"; "mms"; "sftp"; "tel"].

Definition uses_netloc : list string :=
  [""; "ftp"; "http"; "gopher"; "nntp"; "telnet"; "imap"; "wais"; "file";
   "mms"; "https"; "shttp"; "snews"; "prospero"; "rtsp"; "rtspu"; "rsync";
   "svn"; "svn+ssh"; "sftp"; "nfs"; "git"; "git+ssh"; "ws"; "wss"].

Definition str_in (s : string) (l : list string) : bool :=
  existsb (String.eqb s) l.

(** The scheme, when the text before the first colon is one. *)
Definition split_scheme (url : string) : string * string :=
  match PyStr.find ":" url with
  | Some (S i) =>
      match url with
      | String a _ =>
          if is_alpha a && PyStr.forall_chars scheme_char (PyStr.take (S i) url)
          then (PyStr.lower (PyStr.take (S i) url), PyStr.drop (S (S i)) url)
          else (EmptyString, url)
      | EmptyString => (EmptyString, url)
      end
  | _ => (EmptyString, url)
  end.

(** [_splitnetloc(url, 2)]. *)
Definition splitnetloc (url : string) : string * string :=
  let rest := PyStr.drop 2 url in
  let delim := PyStr.find_any ["/"; "?"; "#"]%char rest in
  (PyStr.take delim rest, PyStr.drop delim rest).

Definition brackets_ok (netloc : string) : bool :=
  Bool.eqb (PyStr.contains "[" netloc) (PyStr.contains "]" netloc).

(** The regular expression [\Av[a-fA-F0-9]+\..+\Z], on a string that
    starts with [v]: hexadecimal digits, a dot, and at least one more
    character, none of them a newline. *)
Definition ipvfuture (hostname : string) : bool :=
  let rest := PyStr.drop 1 hostname in
  let k := PyStr.find_any
             (List.filter (fun c => negb (IpAddress.is_hex c)) (map PyStr.chr (seq 0 256)))
             rest in
  let tail := PyStr.drop (S k) rest in
  (0 <? k)%nat && PyStr.startswith "." (PyStr.drop k rest)
  && negb (PyStr.is_empty tail)
  && negb (PyStr.mem (PyStr.chr 10) (list_ascii_of_string tail)).

(** [_check_bracketed_host]: [true] when it returns. *)
Definition check_bracketed_host (hostname : string) : bool :=
  if PyStr.startswith "v" hostname then ipvfuture hostname
  else
    match IpAddress.ip_address hostname with
    | Some IpAddress.V6 => true
    | Some IpAddress.V4 => false
    | None => false
    end.

(** [_check_bracketed_netloc]: [true] when it returns. *)
Definition check_bracketed_netloc (netloc : string) : bool :=
  let hostname_and_port := PyStr.after_last "@" netloc in
  let '(before_bracket, have_open_br, bracketed) :=
    PyStr.partition "[" hostname_and_port in
  if have_open_br then
    if negb (PyStr.is_empty before_bracket) then false
    else
      let '(hostname, _, port) := PyStr.partition "]" bracketed in
      if negb (PyStr.is_empty port) && negb (PyStr.startswith ":" port) then false
      else check_bracketed_host hostname
  else
    let '(hostname, _, _) := PyStr.partition ":" hostname_and_port in
    check_bracketed_host hostname.

(** The characters whose NFKC form holds one of [/ ? # @ :], as UTF-8
    sequences (nineteen in Unicode 14.0): U+2047, U+2048, U+2049, U+2100,
    U+2101, U+2105, U+2106, U+2A74, U+FE13, U+FE16, U+FE55, U+FE56,
    U+FE5F, U+FE6B, U+FF03, U+FF0F, U+FF1A, U+FF1F, U+FF20.  No
    composition of NFKC takes one of the five delimiters away, so the
    normal form of a text holds one of them exactly when the text
    holds one of them or one of these characters. *)
Definition nfkc_delimiters : list (list nat) :=
  [[226; 129; 135]; [226; 129; 136]; [226; 129; 137];
   [226; 132; 128]; [226; 132; 129]; [226; 132; 133]; [226; 132; 134];
   [226; 169; 180];
   [239; 184; 147]; [239; 184; 150];
   [239; 185; 149]; [239; 185; 150]; [239; 185; 159]; [239; 185; 171];
   [239; 188; 131]; [239; 188; 143]; [239; 188; 154]; [239; 188; 159];
   [239; 188; 160]]%nat.

(** [_checknetloc]: [true] when it returns.  [n] has none of [@ : # ?]
    and a network location has no slash, so the normal form of [n]
    differs from [n] and holds a delimiter exactly when [n] holds one
    of the characters above. *)
Definition checknetloc (netloc : string) : bool :=
  if PyStr.is_empty netloc || PyStr.isascii netloc then true
  else
    let n := PyStr.remove ["@"; ":"; "#"; "?"]%char netloc in
    negb (existsb (fun sq => PyStr.contains (string_of_list_ascii (map PyStr.chr sq)) n)
                  nfkc_delimiters).

Definition urlsplit (url : string) : option (string * string * string * string * string) :=
  let url := PyStr.lstrip c0_control_or_space url in
  let url := PyStr.remove unsafe_bytes url in
  let '(scheme, url) := split_scheme url in
  let '(netloc, url) :=
    if PyStr.startswith "//" url then splitnetloc url else (EmptyString, url) in
  if negb (brackets_ok netloc) then None
  else if PyStr.contains "[" netloc && PyStr.contains "]" netloc
          && negb (check_bracketed_netloc netloc) then None
  else
    let '(url, fragment) :=
      match PyStr.split_once "#" url with
      | Some (u, f) => (u, f)
      | None => (url, EmptyString)
      end in
    let '(url, query) :=
      match PyStr.split_once "?" url with
      | Some (u, q) => (u, q)
      | None => (url, EmptyString)
      end in
    if negb (checknetloc netloc) then None
    else Some (scheme, netloc, url, query, fragment).

(** [_splitparams]: the parameters of the last path segment. *)
Definition find_from (c : ascii) (s : string) (start : nat) : option nat :=
  match PyStr.find c (PyStr.drop start s) with
  | Some i => Some (start + i)%nat
  | None => None
  end.

Definition splitparams (url : string) : string * string :=
  let cut :=
    match PyStr.rfind "/" url with
    | Some j => find_from ";" url j
    | None => PyStr.find ";" url
    end in
  match cut with
  | Some i => (PyStr.take i url, PyStr.drop (S i) url)
  | None =>
      match PyStr.rfind "/" url with
      | Some _ => (url, EmptyString)
      | None => (PyStr.take (String.length url - 1) url, url)
      end
  end.

Definition urlparse (url : string) : option ParseResult :=
  match urlsplit url with
  | None => None
  | Some (scheme, netloc, url, query, fragment) =>
      let '(url, params) :=
        if str_in scheme uses_params && PyStr.contains ";" url
        then splitparams url else (url, EmptyString) in
      Some {| scheme := scheme; netloc := netloc; path := url;
              params := params; query := query; fragment := fragment |}
  end.

Definition urlunsplit (scheme netloc url query fragment : string) : string :=
  let url :=
    if negb (PyStr.is_empty netloc)
       || (negb (PyStr.is_empty scheme) && str_in scheme uses_netloc
           && negb (PyStr.startswith "//" url))
    then
      let url :=
        if negb (PyStr.is_empty url) && negb (PyStr.startswith "/" url)
        then "/" ++ url else url in
      "//" ++ netloc ++ url
    else url in
  let url := if negb (PyStr.is_empty scheme) then scheme ++ ":" ++ url else url in
  let url := if negb (PyStr.is_empty query) then url ++ "?" ++ query else url in
  if negb (PyStr.is_empty fragment) then url ++ "#" ++ fragment else url.

Definition urlunparse (scheme netloc url params query fragment : string) : string :=
  let url := if negb (PyStr.is_empty params) then url ++ ";" ++ params else url in
  urlunsplit scheme netloc url query fragment.

End Url.

(** ** [normalize_url], the local function of [scrape_recursive_full_site] *)

Definition normalize_url (url : string) : option string :=
  match Url.urlparse url with
  | None => None
  | Some parsed =>
      let path := PyStr.rstrip ["/"]%char (Url.path parsed) in
      Some (Url.urlunparse "https" (Url.netloc parsed) path "" "" "")
  end.

(** ** What the crawl sees of the world

    The browser, the operator and the site are outside the program.  A
    value of [World] is their state; every call into them takes a world
    and returns the next one.  [None] stands for a raised exception of
    class [Exception]. *)

Local Open Scope list_scope.

(** A download task: media URL, label, optional file name. *)
Definition Task : Type := string * string * option string.

(** A parsed page ([BeautifulSoup]): its text, the [href] of every
    anchor that has one, in document order, and the URL the browser
    ended on ([self._driver.current_url]). *)
Record Page := {
  page_text : string;
  page_hrefs : list string;
  page_url : string
}.

Inductive Message :=
| Visiting (url : string)
| CaptchaDetected
| LoadFailed (url : string) (attempt : nat)
| ScrapeFailed (url : string)
| RecursiveFailed (url : string).

(** What a crawl does that can be observed from outside, in order. *)
Inductive Event :=
| Print (m : Message)
| SitemapWrite (line : string)
| Connect (url : string)
| Input
| Sleep (seconds : nat)
| Scrape (url : string).

Definition target_host : string := "candidteens.net".

(** ** [Scraper.scrape_recursive_full_site] *)

Section FullSite.

Context {World : Type}.

(** [self._connect(url)] followed by [bs(self.source(), 'html.parser')]. *)
Variable connect : string -> World -> option Page * World.
(** [input(...)]: [false] when it raises. *)
Variable operator_input : World -> bool * World.
(** The abstract method [self.scrape]. *)
Variable scrape : string -> World -> option (list Task) * World.
(** [util.url.complete_url], which resolves a link against a base. *)
Variable complete_url : string -> string -> string.

Record CrawlState := {
  queue : list string;
  visited : gset string;
  all_tasks : list Task;
  trace : list Event;
  world : World
}.

(** The body of the [try] of one attempt. *)
Definition attempt (current_url : string) (w : World)
  : option Page * list Event * World :=
  let '(r, w1) := connect current_url w in
  match r with
  | None => (None, [Connect current_url], w1)
  | Some soup =>
      if PyStr.contains "captcha" (PyStr.lower (page_text soup)) then
        let '(ok, w2) := operator_input w1 in
        (if ok then Some soup else None,
         [Connect current_url; Print CaptchaDetected; Input], w2)
      else (Some soup, [Connect current_url], w1)
  end.

(** [for attempt in range(3): ... else: ...]; [None] is the [else]. *)
Fixpoint retry_loop (attempts : list nat) (current_url : string) (w : World)
  : option Page * list Event * World :=
  match attempts with
  | [] => (None, [], w)
  | k :: rest =>
      let '(r, ev, w1) := attempt current_url w in
      match r with
      | Some soup => (Some soup, ev, w1)
      | None =>
          let '(r', ev', w2) := retry_loop rest current_url w1 in
          (r', ev ++ [Print (LoadFailed current_url (k + 1)); Sleep 3] ++ ev', w2)
      end
  end.

Definition fetch_with_retry : string -> World -> option Page * list Event * World :=
  retry_loop (seq 0 3).

(** One round of the link loop: the queue after looking at [href];
    [None] when [urlparse] raises. *)
Definition consider_link (current_url : string) (vis : gset string)
    (q : list string) (href : string) : option (list string) :=
  if PyStr.startswith "#" href || PyStr.contains "javascript:" (PyStr.lower href)
  then Some q
  else
    let full_url := complete_url href current_url in
    match Url.urlparse full_url with
    | None => None
    | Some parsed =>
        if negb (String.eqb (Url.netloc parsed) target_host) then Some q
        else
          match normalize_url full_url with
          | None => None
          | Some norm_link =>
              if decide (norm_link ∈ vis) then Some q
              else Some (q ++ [full_url])
          end
    end.

Fixpoint discover (hrefs : list string) (current_url : string)
    (vis : gset string) (q : list string) : option (list string) :=
  match hrefs with
  | [] => Some q
  | href :: rest =>
      match consider_link current_url vis q href with
      | None => None
      | Some q' => discover rest current_url vis q'
      end
  end.

(** A link the loop looks at and [urlparse] rejects: the call raises
    [ValueError] outside every [try]. *)
Definition rejected_link (current_url href : string) : bool :=
  negb (PyStr.startswith "#" href || PyStr.contains "javascript:" (PyStr.lower href))
  && match Url.urlparse (complete_url href current_url) with
     | Some _ => false
     | None => true
     end.

Inductive StepResult :=
| Finished
| Next (st : CrawlState)
| Raised (st : CrawlState).

(** One round of [while queue:].  The [None] of [connect],
    [operator_input] and [scrape] is an exception that [except
    Exception] catches; an interrupt of the process
    ([KeyboardInterrupt], [SystemExit]) is no outcome of a round.  The
    [print] and the append to [sitemap.txt] are taken to succeed.  So
    [Raised] is the [ValueError] of [urlparse], on the popped URL or on
    a link. *)
Definition step (st : CrawlState) : StepResult :=
  match queue st with
  | [] => Finished
  | current_url :: q =>
      match normalize_url current_url with
      | None => Raised {| queue := q; visited := visited st;
                          all_tasks := all_tasks st; trace := trace st;
                          world := world st |}
      | Some norm_url =>
          if decide (norm_url ∈ visited st) then
            Next {| queue := q; visited := visited st;
                    all_tasks := all_tasks st; trace := trace st;
                    world := world st |}
          else
            let vis := {[norm_url]} ∪ visited st in
            let tr := trace st ++ [Print (Visiting current_url); SitemapWrite norm_url] in
            let '(r, ev, w1) := fetch_with_retry current_url (world st) in
            match r with
            | None =>
                Next {| queue := q; visited := vis; all_tasks := all_tasks st;
                        trace := tr ++ ev; world := w1 |}
            | Some soup =>
                let '(page_tasks, w2) := scrape current_url w1 in
                let tasks' :=
                  match page_tasks with
                  | Some ts => all_tasks st ++ ts
                  | None => all_tasks st
                  end in
                let ev2 :=
                  match page_tasks with
                  | Some _ => [Scrape current_url]
                  | None => [Scrape current_url; Print (ScrapeFailed current_url)]
                  end in
                match discover (page_hrefs soup) current_url vis q with
                | None =>
                    Raised {| queue := q; visited := vis; all_tasks := tasks';
                              trace := tr ++ ev ++ ev2; world := w2 |}
                | Some q' =>
                    Next {| queue := q'; visited := vis; all_tasks := tasks';
                            trace := tr ++ ev ++ ev2 ++ [Sleep 1]; world := w2 |}
                end
            end
      end
  end.

Inductive Outcome :=
| Returned (st : CrawlState)
| Crashed (st : CrawlState)
| OutOfFuel (st : CrawlState).

Fixpoint run (fuel : nat) (st : CrawlState) : Outcome :=
  match fuel with
  | O => OutOfFuel st
  | S fuel' =>
      match step st with
      | Finished => Returned st
      | Next st' => run fuel' st'
      | Raised st' => Crashed st'
      end
  end.

Definition final_state (o : Outcome) : CrawlState :=
  match o with
  | Returned st | Crashed st | OutOfFuel st => st
  end.

Definition returned (o : Outcome) : bool :=
  match o with
  | Returned _ => true
  | _ => false
  end.

Definition init_state (url : string) (vis : option (gset string)) (w : World)
  : CrawlState :=
  {| queue := [url];
     visited := match vis with Some v => v | None => ∅ end;
     all_tasks := []; trace := []; world := w |}.

Definition scrape_recursive_full_site (fuel : nat) (url : string)
    (vis : option (gset string)) (w : World) : Outcome :=
  run fuel (init_state url vis w).

(** The states a crawl passes through. *)
Inductive reachable (st0 : CrawlState) : CrawlState -> Prop :=
| reach_start : reachable st0 st0
| reach_step st st' : reachable st0 st -> step st = Next st' -> reachable st0 st'.

Definition is_next (r : StepResult) : bool :=
  match r with
  | Next _ => true
  | _ => false
  end.

(** The state after [k] rounds of the loop, as far as it gets. *)
Definition next_or_stay (st : CrawlState) : CrawlState :=
  match step st with
  | Next st' => st'
  | _ => st
  end.

Fixpoint steps (k : nat) (st : CrawlState) : CrawlState :=
  match k with
  | O => st
  | S k' => steps k' (next_or_stay st)
  end.

(** A link that may enter the queue while [vis] is the visited set:
    its host is the target host and its normal form is not in [vis]. *)
Definition enqueueable (vis : gset string) (full_url : string) : Prop :=
  (exists parsed, Url.urlparse full_url = Some parsed
                  /\ Url.netloc parsed = target_host)
  /\ exists norm_link, normalize_url full_url = Some norm_link /\ norm_link ∉ vis.

(** A URL whose every connection fails. *)
Definition always_fails (url : string) : Prop :=
  forall w, fst (connect url w) = None.

(** A URL that loads at the first attempt in every world, shows no
    CAPTCHA, is scraped to [ts], and none of whose links enters the
    queue. *)
Definition leaf_page (url : string) (ts : list Task) : Prop :=
  forall w, exists soup w1 w2,
    connect url w = (Some soup, w1)
    /\ PyStr.contains "captcha" (PyStr.lower (page_text soup)) = false
    /\ scrape url w1 = (Some ts, w2)
    /\ forall vis q, discover (page_hrefs soup) url vis q = Some q.

End FullSite.

Arguments CrawlState World : clear implicits.
Arguments StepResult World : clear implicits.
Arguments Outcome World : clear implicits.

(** ** [Scraper.scrape_recursive] *)

Section BoundedDepth.

Context {World : Type}.

Variable connect : string -> World -> option Page * World.
Variable scrape : string -> World -> option (list Task) * World.
Variable complete_url : string -> string -> string.

Inductive RecStatus :=
| RecReturned (tasks : list Task)
| RecRaised
| RecOutOfFuel.

(** What a call leaves behind: its result, the shared [visited] set
    as the call left it, what it did, and the world. *)
Record RecResult := {
  rec_status : RecStatus;
  rec_visited : gset string;
  rec_events : list Event;
  rec_world : World
}.

(** The filter of the list comprehension. *)
Definition followed (href : string) : bool :=
  PyStr.startswith "/" href || PyStr.startswith "http" href.

(** [for link in links: tasks += self.scrape_recursive(link, ...)],
    with the recursive call as [recurse]; an exception in a call ends
    the loop. *)
Fixpoint descend (recurse : string -> gset string -> World -> RecResult)
    (links : list string) (tasks : list Task) (visited : gset string)
    (ev : list Event) (w : World) : RecResult :=
  match links with
  | [] =>
      {| rec_status := RecReturned tasks; rec_visited := visited;
         rec_events := ev; rec_world := w |}
  | link :: rest =>
      let r := recurse link visited w in
      match rec_status r with
      | RecReturned ts =>
          descend recurse rest (tasks ++ ts) (rec_visited r)
                  (ev ++ rec_events r) (rec_world r)
      | other =>
          {| rec_status := other; rec_visited := rec_visited r;
             rec_events := ev ++ rec_events r; rec_world := rec_world r |}
      end
  end.

Fixpoint scrape_recursive (fuel : nat) (url : string) (max_depth : Z)
    (visited : gset string) (w : World) : RecResult :=
  match fuel with
  | O => {| rec_status := RecOutOfFuel; rec_visited := visited;
            rec_events := []; rec_world := w |}
  | S fuel' =>
      if bool_decide (url ∈ visited) || (max_depth =? 0)%Z then
        {| rec_status := RecReturned []; rec_visited := visited;
           rec_events := []; rec_world := w |}
      else
        let visited := {[url]} ∪ visited in
        let '(r, w1) := scrape url w in
        match r with
        | None =>
            {| rec_status := RecReturned []; rec_visited := visited;
               rec_events := [Scrape url; Print (RecursiveFailed url)];
               rec_world := w1 |}
        | Some tasks =>
            let '(p, w2) := connect url w1 in
            match p with
            | None =>
                {| rec_status := RecRaised; rec_visited := visited;
                   rec_events := [Scrape url; Connect url]; rec_world := w2 |}
            | Some soup =>
                let links :=
                  map (fun href => complete_url href (page_url soup))
                      (List.filter followed (page_hrefs soup)) in
                descend (fun link => scrape_recursive fuel' link (max_depth - 1))
                        links tasks visited [Scrape url; Connect url] w2
            end
        end
  end.

End BoundedDepth.

Arguments RecResult World : clear implicits.

(** ** [MediaScraper.scrape] *)

Module MediaScraper.

(** What the method reads from the parsed page: the text of the
    [title] element when there is one, every anchor with an [href]
    (the [href] and the text), every [img] and [video] with a [src],
    and the URL the browser is on. *)
Record Document := {
  title : option string;
  anchors : list (string * string);
  images : list string;
  videos : list string;
  current_url : string
}.

Section Scrape.

Context {World : Type}.

(** [_connect], [scrollToBottom], [source] and the parse. *)
Variable load : string -> World -> option Document * World.
(** [util.url.is_media] and [util.url.complete_url]. *)
Variable is_media : string -> bool.
Variable complete_url : string -> string -> string.

Definition media_urls (doc : Document) : list string :=
  flat_map (fun link =>
              (if is_media (fst link) then [fst link] else [])
              ++ (if is_media (snd link) then [snd link] else []))
           (anchors doc)
  ++ List.filter is_media (images doc)
  ++ List.filter is_media (videos doc).

Definition scrape (url : string) (w : World) : option (list Task) * World :=
  let '(d, w1) := load url w in
  match d with
  | None => (None, w1)
  | Some doc =>
      match title doc with
      | None => (None, w1)
      | Some raw_title =>
          let title := sanitize_filename raw_title in
          (Some (map (fun media_url =>
                        (complete_url media_url (current_url doc), title, None))
                     (media_urls doc)), w1)
      end
  end.

End Scrape.

End MediaScraper.

(** ** Python values, for the JSON the Instagram endpoint returns *)

#[local] Set Warnings "-register-all".

Inductive pyval :=
| PNone
| PBool (b : bool)
| PInt (n : Z)
| PStr (s : string)
| PList (l : list pyval)
| PDict (d : list (string * pyval)).

Module Py.

Fixpoint assoc (key : string) (d : list (string * pyval)) : option pyval :=
  match d with
  | [] => None
  | (k, v) :: d' => if String.eqb k key then Some v else assoc key d'
  end.

(** [v[key]] with a string key; [None] is [KeyError] or [TypeError]. *)
Definition subscript (key : string) (v : pyval) : option pyval :=
  match v with
  | PDict d => assoc key d
  | _ => None
  end.

(** [v[i]] with an integer index that is not negative. *)
Definition index (i : nat) (v : pyval) : option pyval :=
  match v with
  | PList l => nth_error l i
  | PStr s =>
      match String.get i s with
      | Some c => Some (PStr (String c EmptyString))
      | None => None
      end
  | _ => None
  end.

(** [len(v)]. *)
Definition len (v : pyval) : option nat :=
  match v with
  | PList l => Some (length l)
  | PStr s => Some (String.length s)
  | PDict d => Some (length d)
  | _ => None
  end.

(** What [for x in v] goes through. *)
Definition iter (v : pyval) : option (list pyval) :=
  match v with
  | PList l => Some l
  | PStr s => Some (map (fun c => PStr (String c EmptyString)) (list_ascii_of_string s))
  | PDict d => Some (map (fun kv => PStr (fst kv)) d)
  | _ => None
  end.

(** The truth value of [v] in a condition. *)
Definition truthy (v : pyval) : bool :=
  match v with
  | PNone => false
  | PBool b => b
  | PInt n => negb (n =? 0)%Z
  | PStr s => negb (PyStr.is_empty s)
  | PList l => match l with [] => false | _ => true end
  | PDict d => match d with [] => false | _ => true end
  end.

(** [v[k1][k2]...]. *)
Fixpoint path (keys : list string) (v : pyval) : option pyval :=
  match keys with
  | [] => Some v
  | k :: keys' =>
      match subscript k v with
      | Some v' => path keys' v'
      | None => None
      end
  end.

End Py.

(** ** [InstagramScraper.scrape] *)

Module InstagramScraper.

(** The two URL templates of [getJsonData], with their arguments. *)
Inductive Request :=
| JsonDataUrl (user_or_id : pyval)
| NewJsonDataUrl (query_hash : string) (id : pyval) (first : Z) (after : pyval).

Inductive IgEvent :=
| Get (r : Request)
| PrintPayload (data : pyval).

Definition query_hash : string := "472f257a40c653c64c666ce877d59d2b".
Definition first : Z := 12.

Inductive Status :=
| Returned (tasks : list pyval)
| Raised
| OutOfFuel.

Section Scrape.

Context {World : Type}.

(** The browser loads the URL and the text of its [pre] element is
    parsed as JSON. *)
Variable fetch_json : Request -> World -> option pyval * World.
(** [util.instagram.parse_node]. *)
Variable parse_node : pyval -> option pyval.

Record Result := {
  status : Status;
  requests : list IgEvent;
  final : World
}.

Definition request_of (user_or_id after : pyval) : Request :=
  match after with
  | PNone => JsonDataUrl user_or_id
  | _ => NewJsonDataUrl query_hash user_or_id first after
  end.

Definition getJsonData (user_or_id after : pyval) (w : World)
  : option pyval * World :=
  fetch_json (request_of user_or_id after) w.

(** [for edge in edges: ...]; [None] when an item raises. *)
Fixpoint process_edges (edges : list pyval) (username : string)
    (tasks : list pyval) (tr : list IgEvent) (w : World)
  : option (list pyval) * list IgEvent * World :=
  match edges with
  | [] => (Some tasks, tr, w)
  | edge :: rest =>
      match Py.path ["node"; "shortcode"] edge with
      | Some (PStr shortcode) =>
          let id := PStr ("p/" ++ shortcode)%string in
          let '(r, w1) := getJsonData id PNone w in
          let tr1 := tr ++ [Get (request_of id PNone)] in
          match r with
          | None => (None, tr1, w1)
          | Some post =>
              match Py.path ["graphql"; "shortcode_media"] post with
              | None => (None, tr1, w1)
              | Some node =>
                  match parse_node node with
                  | None => (None, tr1, w1)
                  | Some task =>
                      match Py.index 0 task, Py.index 1 task with
                      | Some t0, Some t1 =>
                          process_edges rest username
                            (tasks ++ [t0; PStr username; t1]) tr1 w1
                      | _, _ => (None, tr1, w1)
                      end
                  end
              end
          end
      | _ => (None, tr, w)
      end
  end.

Definition media_path : list string :=
  ["data"; "user"; "edge_owner_to_timeline_media"].

(** [while len(edges) > 0: ...]. *)
Fixpoint walk (fuel : nat) (edges has_next_page end_cursor user_id : pyval)
    (username : string) (tasks : list pyval) (tr : list IgEvent) (w : World)
  : Result :=
  match fuel with
  | O => {| status := OutOfFuel; requests := tr; final := w |}
  | S fuel' =>
      match Py.len edges, Py.iter edges with
      | Some (S _), Some items =>
          let '(r, tr1, w1) := process_edges items username tasks tr w in
          match r with
          | None => {| status := Raised; requests := tr1; final := w1 |}
          | Some tasks1 =>
              if Py.truthy has_next_page then
                let '(d, w2) := getJsonData user_id end_cursor w1 in
                let tr2 := tr1 ++ [Get (request_of user_id end_cursor)] in
                match d with
                | None => {| status := Raised; requests := tr2; final := w2 |}
                | Some data =>
                    let fresh := Py.path (media_path ++ ["edges"]) data in
                    let edges' := match fresh with Some e => e | None => edges end in
                    let tr3 :=
                      match fresh with
                      | Some _ => tr2
                      | None => tr2 ++ [PrintPayload data]
                      end in
                    match Py.path (media_path ++ ["page_info"; "has_next_page"]) data,
                          Py.path (media_path ++ ["page_info"; "end_cursor"]) data with
                    | Some h, Some c =>
                        walk fuel' edges' h c user_id username tasks1 tr3 w2
                    | _, _ => {| status := Raised; requests := tr3; final := w2 |}
                    end
                end
              else {| status := Returned tasks1; requests := tr1; final := w1 |}
          end
      | Some O, _ => {| status := Returned tasks; requests := tr; final := w |}
      | _, _ => {| status := Raised; requests := tr; final := w |}
      end
  end.

Definition scrape (fuel : nat) (username : string) (w : World) : Result :=
  let '(d, w1) := getJsonData (PStr username) PNone w in
  let tr := [Get (request_of (PStr username) PNone)] in
  let raised := {| status := Raised; requests := tr; final := w1 |} in
  match d with
  | None => raised
  | Some data =>
      match Py.path ["graphql"; "user"] data with
      | None => raised
      | Some user =>
          match Py.subscript "id" user,
                Py.subscript "edge_owner_to_timeline_media" user with
          | Some user_id, Some media =>
              match Py.subscript "count" media,
                    Py.subscript "page_info" media,
                    Py.subscript "edges" media with
              | Some _, Some page_info, Some edges =>
                  match Py.subscript "has_next_page" page_info,
                        Py.subscript "end_cursor" page_info with
                  | Some has_next_page, Some end_cursor =>
                      walk fuel edges has_next_page end_cursor user_id
                           username [] tr w1
                  | _, _ => raised
                  end
              | _, _, _ => raised
              end
          | _, _ => raised
          end
      end
  end.

End Scrape.

Arguments Result World : clear implicits.

(** The batch requests and the item requests of a run: an item is
    asked for under [p/<shortcode>]. *)
Definition item_of (e : IgEvent) : option string :=
  match e with
  | Get (JsonDataUrl (PStr s)) =>
      if PyStr.startswith "p/" s then Some (PyStr.drop 2 s) else None
  | _ => None
  end.

Definition item_requests (tr : list IgEvent) : list string :=
  flat_map (fun e => match item_of e with Some sc => [sc] | None => [] end) tr.

Definition batch_requests (tr : list IgEvent) : list Request :=
  flat_map (fun e =>
              match e, item_of e with
              | Get r, None => [r]
              | _, _ => []
              end) tr.

(** A mock endpoint.  The world is the list of the batches it has
    still to serve; a batch request takes the next one, an item
    request is answered from the shortcode. *)
Record Batch := {
  b_shortcodes : list string;
  b_has_more : bool;
  b_cursor : string
}.

Definition edge_json (sc : string) : pyval :=
  PDict [("node", PDict [("shortcode", PStr sc)])].

Definition media_json (b : Batch) : pyval :=
  PDict [("count", PInt 0);
         ("page_info", PDict [("has_next_page", PBool (b_has_more b));
                              ("end_cursor", PStr (b_cursor b))]);
         ("edges", PList (map edge_json (b_shortcodes b)))].

Definition mock_user_id : pyval := PStr "42".

Definition first_response (b : Batch) : pyval :=
  PDict [("graphql",
          PDict [("user", PDict [("id", mock_user_id);
                                 ("edge_owner_to_timeline_media", media_json b)])])].

Definition next_response (b : Batch) : pyval :=
  PDict [("data",
          PDict [("user", PDict [("edge_owner_to_timeline_media", media_json b)])])].

Definition post_response (sc : string) : pyval :=
  PDict [("graphql", PDict [("shortcode_media", PStr sc)])].

Definition serve (resp : Batch -> pyval) (w : list Batch) : option pyval * list Batch :=
  match w with
  | b :: rest => (Some (resp b), rest)
  | [] => (None, [])
  end.

Definition mock_fetch (r : Request) (w : list Batch) : option pyval * list Batch :=
  match r with
  | JsonDataUrl (PStr s) =>
      if PyStr.startswith "p/" s then (Some (post_response (PyStr.drop 2 s)), w)
      else serve first_response w
  | JsonDataUrl _ => (None, w)
  | NewJsonDataUrl _ _ _ _ => serve next_response w
  end.

Definition mock_parse_node (node : pyval) : option pyval :=
  Some (PList [node; PNone]).

Definition mock_scrape (fuel : nat) (username : string) (api : list Batch)
  : Result (list Batch) :=
  scrape mock_fetch mock_parse_node fuel username api.


(** The item requests of a batch, and the requests of a walk that
    starts in batch [b] with [rest] to come. *)
Definition posts (b : Batch) : list IgEvent :=
  map (fun sc => Get (JsonDataUrl (PStr ("p/" ++ sc)%string))) (b_shortcodes b).


(** What the walk puts into [tasks] for the items of a batch. *)
Definition flat_items (username : string) (b : Batch) : list pyval :=
  flat_map (fun sc => [PStr sc; PStr username; PNone]) (b_shortcodes b).




Definition feed_two : list Batch :=
  [{| b_shortcodes := ["a"; "b"]; b_has_more := true; b_cursor := "c1" |};
   {| b_shortcodes := ["c"]; b_has_more := false; b_cursor := "" |}].

End InstagramScraper.

(** Readings of a trace. *)
Definition sitemap_log (tr : list Event) : list string :=
  flat_map (fun e => match e with SitemapWrite l => [l] | _ => [] end) tr.

Definition connects (tr : list Event) : list string :=
  flat_map (fun e => match e with Connect u => [u] | _ => [] end) tr.

Definition scrapes (tr : list Event) : list string :=
  flat_map (fun e => match e with Scrape u => [u] | _ => [] end) tr.

Definition visits (tr : list Event) : list string :=
  flat_map (fun e => match e with Print (Visiting u) => [u] | _ => [] end) tr.

Definition sleeps (tr : list Event) : list nat :=
  flat_map (fun e => match e with Sleep n => [n] | _ => [] end) tr.

(** How many of [urls] have the normal form [n]. *)
Definition count_norm (n : string) (urls : list string) : nat :=
  length (List.filter (fun u => bool_decide (normalize_url u = Some n)) urls).

(** What a crawl keeps true of its trace and its visited set: no line
    is logged twice, what was logged, connected to or announced is
    visited, and per normal form there is at most one announcement and
    there are at most three connections. *)
Definition crawl_inv {World : Type} (st : CrawlState World) : Prop :=
  NoDup (sitemap_log (trace st))
  /\ (forall n, In n (sitemap_log (trace st)) -> n ∈ visited st)
  /\ (forall u n, In u (connects (trace st)) -> normalize_url u = Some n -> n ∈ visited st)
  /\ (forall u n, In u (visits (trace st)) -> normalize_url u = Some n -> n ∈ visited st)
  /\ (forall n, count_norm n (visits (trace st)) <= 1
                 /\ count_norm n (connects (trace st)) <= 3).

(** What the claim asks of a label: none of the forbidden characters,
    and neither a dot nor a space at the end. *)
Definition label_ok (label : string) : Prop :=
  (forall c, In c (list_ascii_of_string label) -> ~ In c forbidden_chars)
  /\ PyStr.last_char label <> Some "."%char
  /\ PyStr.last_char label <> Some " "%char.

(** A run of whitespace characters, as [str.strip] removes it. *)
Definition whitespace_run (l : list ascii) : Prop :=
  exists ws, Forall (fun p => In p PyStr.whitespace_fwd) ws /\ l = concat ws.

(** [label] is cut from [raw_title]: with each forbidden character of
    the title turned into an underscore, the label is what is left
    between the whitespace at both ends, less the dots and spaces that
    then end it. *)
Definition cut_from_title (raw_title label : string) : Prop :=
  exists pre dots post,
    map (fun c => if PyStr.mem c forbidden_chars then "_"%char else c)
        (list_ascii_of_string raw_title)
    = pre ++ list_ascii_of_string label ++ dots ++ post
    /\ whitespace_run pre /\ whitespace_run post
    /\ Forall (fun c => c = "."%char \/ c = " "%char) dots
    /\ PyStr.chop_any PyStr.whitespace_fwd (list_ascii_of_string label ++ dots) = None
    /\ PyStr.chop_any PyStr.whitespace_bwd (rev (list_ascii_of_string label ++ dots))
       = None.

(** A small site to run the crawl on: the world is the number of
    connections made so far, a page is found by its URL, and links are
    written in absolute form. *)
Module Demo.

Definition site := list (string * (list string * list Task)).

Fixpoint lookup (url : string) (s : site) : option (list string * list Task) :=
  match s with
  | [] => None
  | (u, p) :: s' => if String.eqb u url then Some p else lookup url s'
  end.

Definition connect (s : site) (url : string) (w : nat) : option Page * nat :=
  match lookup url s with
  | Some (hrefs, _) =>
      (Some {| page_text := ""; page_hrefs := hrefs; page_url := url |}, S w)
  | None => (None, S w)
  end.

(** A connection that fails as long as fewer than [n] were made. *)
Definition flaky_connect (n : nat) (s : site) (url : string) (w : nat)
  : option Page * nat :=
  if (w <? n)%nat then (None, S w) else connect s url w.

Definition operator_input (w : nat) : bool * nat := (true, w).

Definition scrape (s : site) (url : string) (w : nat) : option (list Task) * nat :=
  match lookup url s with
  | Some (_, ts) => (Some ts, w)
  | None => (None, w)
  end.

Definition complete_url (href base : string) : string := href.

Definition task (n : string) : Task := (n, "t", None).

Definition root : string := "https://candidteens.net/".
Definition page_b : string := "https://candidteens.net/b".
Definition page_c : string := "https://candidteens.net/c".
Definition missing : string := "https://candidteens.net/missing".

Definition url_a : string := "https://example.com/a".
Definition url_a_slash : string := "https://example.com/a/".

(** A front page with one link off the target host and a page without
    links; [missing] is on neither. *)
Definition site_leaves : site :=
  [(root, (["https://other.com/x"], [task "r"]));
   (page_c, ([], [task "c"]))].

(** A fresh crawl state whose queue is [q]. *)
Definition queued (q : list string) : CrawlState nat :=
  {| queue := q; visited := ∅; all_tasks := []; trace := []; world := 0 |}.

(** A single page, known under the URL with the trailing slash. *)
Definition site_a : site := [(url_a_slash, ([], [task "a"]))].

(** A front page that links twice to the same page, once off the
    target host and once to a fragment, and the page it links to. *)
Definition site_two : site :=
  [(root, ([page_b; page_b; "https://other.com/x"; "#top"], [task "r"]));
   (page_b, ([], [task "b"]))].

(** A front page with a link that [urlparse] rejects: the bracket of
    its host is not closed. *)
Definition bad_link : string := "http://[::1/x".

Definition site_bad_link : site := [(root, ([bad_link; page_b], [task "r"]))].

(** A front page that links to the same page with and without the
    trailing slash, the second time over [http] and with a query and a
    fragment. *)
Definition page_a : string := "https://candidteens.net/a".
Definition page_a_slash : string := "https://candidteens.net/a/".
Definition page_a_query : string := "http://candidteens.net/a?page=2#top".

Definition site_slash : site :=
  [(root, ([page_a_slash; page_a_query], [task "r"]));
   (page_a_slash, ([], [task "a"]))].

(** The normal forms of the pages of [site_two]. *)
Definition normal_forms_two : gset string :=
  {["https://candidteens.net"; page_b]}.

(** A document with a title to clean and three media. *)
Definition document : MediaScraper.Document :=
  {| MediaScraper.title := Some " a/b: c?. ";
     MediaScraper.anchors := [("x.jpg", "here")];
     MediaScraper.images := ["y.png"];
     MediaScraper.videos := [];
     MediaScraper.current_url := root |}.

Definition load (url : string) (w : nat) : option MediaScraper.Document * nat :=
  (Some document, w).

(** The crawl of [s] from [url], the first [n] connections failing. *)
Definition crawl (n : nat) (s : site) (url : string) : Outcome nat :=
  scrape_recursive_full_site (flaky_connect n s) operator_input (scrape s)
    complete_url 20 url None 0.

Definition crawl_steps (k : nat) (s : site) (url : string) : CrawlState nat :=
  steps (connect s) operator_input (scrape s) complete_url k
        (init_state url None 0).

End Demo.

(** ** Further readings of a crawl *)

(** A URL whose network location is the target host. *)
Definition on_target (url : string) : Prop :=
  exists parsed, Url.urlparse url = Some parsed /\ Url.netloc parsed = target_host.

(** Every queued URL has a normal form, and it is one of [S]. *)
Definition queue_within {World : Type} (S : gset string) (st : CrawlState World) : Prop :=
  forall u, In u (queue st) -> exists n, normalize_url u = Some n /\ n ∈ S.

(** Every link of every page the site serves resolves to a URL that
    can be parsed. *)
Definition site_parses {World : Type}
    (connect : string -> World -> option Page * World)
    (complete_url : string -> string -> string) : Prop :=
  forall u w soup w' href,
    connect u w = (Some soup, w') -> In href (page_hrefs soup) ->
    exists parsed, Url.urlparse (complete_url href u) = Some parsed.

(** Moreover the links on the target host have their normal forms in
    [S]: the site is closed under its links. *)
Definition site_within {World : Type}
    (connect : string -> World -> option Page * World)
    (complete_url : string -> string -> string) (S : gset string) : Prop :=
  forall u w soup w' href,
    connect u w = (Some soup, w') -> In href (page_hrefs soup) ->
    exists parsed, Url.urlparse (complete_url href u) = Some parsed
      /\ (Url.netloc parsed = target_host ->
          forall n, normalize_url (complete_url href u) = Some n -> n ∈ S).

(** ** Further readings of the bounded-depth traversal *)

(** The largest number of pages a traversal of depth [d] can scrape
    when no page has more than [L] links: 1 + L + ... + L^(d-1). *)
Fixpoint page_bound (L d : nat) : nat :=
  match d with
  | O => 0
  | S d' => 1 + L * page_bound L d'
  end.

(** No page the site serves has more than [L] anchors. *)
Definition links_bounded {World : Type}
    (connect : string -> World -> option Page * World) (L : nat) : Prop :=
  forall u w soup w', connect u w = (Some soup, w') -> length (page_hrefs soup) <= L.

(** ** Further mock endpoints for the pagination walk *)

Module IgFeed.

Import InstagramScraper.

(** An endpoint that answers every batch request with the same batch
    and counts the requests it served. *)
Definition stuck_fetch (b : Batch) (r : Request) (w : nat) : option pyval * nat :=
  match r with
  | JsonDataUrl (PStr s) =>
      if PyStr.startswith "p/" s then (Some (post_response (PyStr.drop 2 s)), S w)
      else (Some (first_response b), S w)
  | JsonDataUrl _ => (None, w)
  | NewJsonDataUrl _ _ _ _ => (Some (next_response b), S w)
  end.

(** An endpoint that answers the batch requests with the payloads of
    its world, as they are, and the item requests like the mock. *)
Definition raw_fetch (r : Request) (w : list pyval) : option pyval * list pyval :=
  match r with
  | JsonDataUrl (PStr s) =>
      if PyStr.startswith "p/" s then (Some (post_response (PyStr.drop 2 s)), w)
      else match w with
           | d :: rest => (Some d, rest)
           | [] => (None, [])
           end
  | JsonDataUrl _ => (None, w)
  | NewJsonDataUrl _ _ _ _ =>
      match w with
      | d :: rest => (Some d, rest)
      | [] => (None, [])
      end
  end.

(** A continuation payload with the page information but no edges. *)
Definition no_edges_response (has_more : bool) : pyval :=
  PDict [("data",
          PDict [("user",
                  PDict [("edge_owner_to_timeline_media",
                          PDict [("page_info",
                                  PDict [("has_next_page", PBool has_more);
                                         ("end_cursor", PNone)])])])])].

(** A list made of groups of three: a first component, the user name,
    a second component. *)
Definition flat_shape (username : string) (tasks : list pyval) : Prop :=
  exists items : list (pyval * pyval),
    tasks = flat_map (fun it => [fst it; PStr username; snd it]) items.

(** The keys the first payload is read at. *)
Definition profile_media : list string :=
  ["graphql"; "user"; "edge_owner_to_timeline_media"].

Definition required_paths : list (list string) :=
  [["graphql"; "user"; "id"];
   profile_media ++ ["count"];
   profile_media ++ ["page_info"; "has_next_page"];
   profile_media ++ ["page_info"; "end_cursor"];
   profile_media ++ ["edges"]].

End IgFeed.

(** ** Further readings of strings *)

(** [s] begins with a character [str.strip] removes. *)
Definition starts_with_whitespace (s : string) : bool :=
  match PyStr.chop_any PyStr.whitespace_fwd (list_ascii_of_string s) with
  | Some _ => true
  | None => false
  end.

(** [s] ends with a character [str.strip] removes. *)
Definition ends_with_whitespace (s : string) : bool :=
  match PyStr.chop_any PyStr.whitespace_bwd (rev (list_ascii_of_string s)) with
  | Some _ => true
  | None => false
  end.

(** None of the characters [cs] occurs in [s]. *)
Definition lacks (cs : list ascii) (s : string) : bool :=
  PyStr.forall_chars (fun c => negb (PyStr.mem c cs)) s.

(** ** Ordinary URLs *)

(** What may not occur in the host and in the path of an ordinary
    URL: the delimiters, and the characters [urlsplit] removes. *)
Definition host_stops : list ascii :=
  ["/"; "?"; "#"; "["; "]"]%char ++ Url.unsafe_bytes.

Definition path_stops : list ascii :=
  ["?"; "#"; ";"]%char ++ Url.unsafe_bytes.

(** A scheme as [urlsplit] takes it: a letter, then letters, digits,
    [+], [-] and [.]. *)
Definition scheme_ok (sch : string) : bool :=
  match sch with
  | String a _ => Url.is_alpha a && PyStr.forall_chars Url.scheme_char sch
  | EmptyString => false
  end.

(** The parts of an ordinary URL after the scheme: a host, a path that
    is empty or starts with a slash, and a rest that is empty or
    starts the query or the fragment. *)
Definition plain_parts (host path tail : string) : Prop :=
  host <> ""
  /\ lacks host_stops host = true
  /\ (path = "" \/ PyStr.startswith "/" path = true)
  /\ lacks path_stops path = true
  /\ (tail = "" \/ PyStr.startswith "?" tail = true \/ PyStr.startswith "#" tail = true)
  /\ lacks Url.unsafe_bytes tail = true.

(** ** [Scraper.scrollToBottom] *)

Inductive ScrollEvent :=
| ReadHeight
| ScrollTo
| Pause
| CallFn.

Inductive ScrollStatus :=
| ScrollReturned (done : bool)
| ScrollRaised
| ScrollOutOfFuel.

Definition sys_maxsize : Z := 9223372036854775807.

Section ScrollToBottom.

Context {World : Type}.

(** [execute_script("return document.body.scrollHeight")]. *)
Variable read_height : World -> option Z * World.
(** [execute_script("window.scrollTo(0, document.body.scrollHeight)")];
    [false] when it raises. *)
Variable scroll_to : World -> bool * World.
(** The argument [fn], when it is not [None]: the truth value of what
    the call returns. *)
Variable fn : option (World -> option bool * World).

Record ScrollResult := {
  scroll_status : ScrollStatus;
  scroll_events : list ScrollEvent;
  scroll_world : World
}.

(** [new_height != last_height or fn is not None and fn()]. *)
Definition unsettled (new_height last_height : Z) (w : World)
  : option bool * list ScrollEvent * World :=
  if negb (new_height =? last_height)%Z then (Some true, [], w)
  else
    match fn with
    | None => (Some false, [], w)
    | Some f => let '(r, w1) := f w in (r, [CallFn], w1)
    end.

(** The [while] loop and the [return] after it. *)
Fixpoint scroll_loop (fuel : nat) (times counter last_height new_height : Z)
    (ev : list ScrollEvent) (w : World) : ScrollResult :=
  match fuel with
  | O => {| scroll_status := ScrollOutOfFuel; scroll_events := ev; scroll_world := w |}
  | S fuel' =>
      let '(c, ev1, w1) := unsettled new_height last_height w in
      match c with
      | None => {| scroll_status := ScrollRaised; scroll_events := ev ++ ev1;
                   scroll_world := w1 |}
      | Some c =>
          if c && (counter <? times)%Z then
            let '(ok, w2) := scroll_to w1 in
            if negb ok then
              {| scroll_status := ScrollRaised;
                 scroll_events := ev ++ ev1 ++ [ScrollTo]; scroll_world := w2 |}
            else
              let '(h, w3) := read_height w2 in
              match h with
              | None =>
                  {| scroll_status := ScrollRaised;
                     scroll_events := ev ++ ev1 ++ [ScrollTo; Pause; ReadHeight];
                     scroll_world := w3 |}
              | Some h =>
                  scroll_loop fuel' times (counter + 1) new_height h
                              (ev ++ ev1 ++ [ScrollTo; Pause; ReadHeight]) w3
              end
          else
            let '(c2, ev2, w2) := unsettled new_height last_height w1 in
            match c2 with
            | None => {| scroll_status := ScrollRaised;
                         scroll_events := ev ++ ev1 ++ ev2; scroll_world := w2 |}
            | Some c2 => {| scroll_status := ScrollReturned (negb c2);
                            scroll_events := ev ++ ev1 ++ ev2; scroll_world := w2 |}
            end
      end
  end.

Definition scrollToBottom (fuel : nat) (times : Z) (w : World) : ScrollResult :=
  let times := if (times <? 0)%Z then sys_maxsize else times in
  let '(h, w1) := read_height w in
  match h with
  | None => {| scroll_status := ScrollRaised; scroll_events := [ReadHeight];
               scroll_world := w1 |}
  | Some last_height => scroll_loop fuel times 0 last_height 0 [ReadHeight] w1
  end.

End ScrollToBottom.

Arguments ScrollResult World : clear implicits.

Definition scrolls (ev : list ScrollEvent) : nat :=
  length (List.filter (fun e => match e with ScrollTo => true | _ => false end) ev).

(** * Properties *)

(** ** String lemmas *)

Lemma mem_In (c : ascii) (cs : list ascii) : PyStr.mem c cs = true <-> In c cs.
Proof.
  unfold PyStr.mem. rewrite existsb_exists. split.
  - intros [x [Hx He]]. apply Ascii.eqb_eq in He. now subst.
  - intros H. exists c. split; [assumption | apply Ascii.eqb_refl].
Qed.

Lemma chop_suffix (p l l' : list ascii) :
  PyStr.chop p l = Some l' -> exists pre, l = pre ++ l'.
Proof.
  revert l. induction p as [|a p IH]; intros l H; simpl in H.
  - exists []. now inversion H.
  - destruct l as [|b l]; [discriminate|].
    destruct (Ascii.eqb a b); [|discriminate].
    destruct (IH _ H) as [pre ->]. now exists (b :: pre).
Qed.

Lemma chop_any_suffix (ps : list (list ascii)) (l l' : list ascii) :
  PyStr.chop_any ps l = Some l' -> exists pre, l = pre ++ l'.
Proof.
  induction ps as [|p ps IH]; simpl; [discriminate|].
  destruct (PyStr.chop p l) eqn:E.
  - intros [= <-]. eapply chop_suffix; eassumption.
  - assumption.
Qed.

Lemma strip_front_suffix (fuel : nat) (ps : list (list ascii)) (l : list ascii) :
  exists pre, l = pre ++ PyStr.strip_front fuel ps l.
Proof.
  revert l. induction fuel as [|fuel IH]; intros l; simpl.
  - now exists [].
  - destruct (PyStr.chop_any ps l) as [l'|] eqn:E.
    + destruct (chop_any_suffix _ _ _ E) as [pre1 ->].
      destruct (IH l') as [pre2 H2].
      exists (pre1 ++ pre2). rewrite <- app_assoc. now rewrite <- H2.
    + now exists [].
Qed.

Lemma strip_front_In (fuel : nat) (ps : list (list ascii)) (l : list ascii) (c : ascii) :
  In c (PyStr.strip_front fuel ps l) -> In c l.
Proof.
  intros H. destruct (strip_front_suffix fuel ps l) as [pre E].
  rewrite E. apply in_or_app. now right.
Qed.

(** Stripping only removes characters. *)
Lemma strip_In (s : string) (c : ascii) :
  In c (list_ascii_of_string (PyStr.strip s)) -> In c (list_ascii_of_string s).
Proof.
  unfold PyStr.strip. rewrite list_ascii_of_string_of_list_ascii.
  intros H. apply in_rev in H. apply strip_front_In in H.
  apply in_rev in H. now apply strip_front_In in H.
Qed.

Lemma rstrip_In (cs : list ascii) (s : string) (c : ascii) :
  In c (list_ascii_of_string (PyStr.rstrip cs s)) -> In c (list_ascii_of_string s).
Proof.
  induction s as [|a r IH]; simpl; [tauto|].
  destruct (PyStr.is_empty (PyStr.rstrip cs r) && PyStr.mem a cs); simpl.
  - tauto.
  - intros [H|H]; [now left | right; now apply IH].
Qed.

(** After [rstrip] the last character is none of the stripped ones. *)
Lemma rstrip_last (cs : list ascii) (s : string) (c : ascii) :
  PyStr.last_char (PyStr.rstrip cs s) = Some c -> PyStr.mem c cs = false.
Proof.
  induction s as [|a r IH]; simpl; [discriminate|].
  destruct (PyStr.rstrip cs r) as [|b r'] eqn:E; simpl.
  - destruct (PyStr.mem a cs) eqn:M; simpl; [discriminate|].
    now intros [= <-].
  - intros H. apply IH. simpl. exact H.
Qed.

Lemma re_sub_forbidden_clean (name : string) (c : ascii) :
  In c (list_ascii_of_string (re_sub_forbidden name)) -> is_forbidden c = false.
Proof.
  induction name as [|a r IH]; simpl; [tauto|].
  intros [H|H]; [|now apply IH].
  subst c. destruct (is_forbidden a) eqn:F; [reflexivity | exact F].
Qed.

Lemma sanitize_filename_ok (name : string) : label_ok (sanitize_filename name).
Proof.
  unfold sanitize_filename. repeat split.
  - intros c Hc Hf.
    apply rstrip_In, strip_In, re_sub_forbidden_clean in Hc.
    apply mem_In in Hf. unfold is_forbidden in Hc. congruence.
  - intros H. apply rstrip_last in H. discriminate H.
  - intros H. apply rstrip_last in H. discriminate H.
Qed.

(** The substitution changes forbidden characters into underscores
    and nothing else. *)
Lemma re_sub_forbidden_spec (name : string) :
  list_ascii_of_string (re_sub_forbidden name)
  = map (fun c => if is_forbidden c then "_"%char else c) (list_ascii_of_string name).
Proof. induction name as [|a r IH]; simpl; [reflexivity | now rewrite IH]. Qed.

Lemma chop_length (p l l' : list ascii) :
  PyStr.chop p l = Some l' -> length l = length p + length l'.
Proof.
  revert l. induction p as [|a p IH]; intros l; cbn.
  - now intros [= <-].
  - destruct l as [|b l]; [discriminate|].
    destruct (Ascii.eqb a b); [|discriminate]. intros H. cbn. now rewrite (IH _ H).
Qed.

Lemma chop_any_shorter (ps : list (list ascii)) (l l' : list ascii) :
  Forall (fun p => p <> []) ps -> PyStr.chop_any ps l = Some l' -> length l' < length l.
Proof.
  induction 1 as [|p ps Hp _ IH]; cbn; [discriminate|].
  destruct (PyStr.chop p l) as [x|] eqn:E; [|exact IH].
  intros [= <-]. apply chop_length in E. destruct p; [contradiction|]. cbn in E. lia.
Qed.

(** With fuel for every character, nothing is left to remove. *)
Lemma strip_front_done (ps : list (list ascii)) :
  Forall (fun p => p <> []) ps ->
  forall fuel l, length l <= fuel ->
    PyStr.chop_any ps (PyStr.strip_front fuel ps l) = None.
Proof.
  intros Hps. induction fuel as [|fuel IH]; intros l Hl; cbn.
  - destruct l; [|cbn in Hl; lia]. clear Hl.
    induction Hps as [|p ps Hp _ IH]; [reflexivity|].
    cbn. destruct p; [contradiction | exact IH].
  - destruct (PyStr.chop_any ps l) as [l'|] eqn:E; [|exact E].
    apply IH. pose proof (chop_any_shorter ps l l' Hps E). lia.
Qed.

Lemma chop_app (p l x y : list ascii) :
  PyStr.chop p l = Some x -> PyStr.chop p (l ++ y) = Some (x ++ y).
Proof.
  revert l. induction p as [|a p IH]; intros l; cbn.
  - now intros [= <-].
  - destruct l as [|b l]; [discriminate|]. cbn.
    destruct (Ascii.eqb a b); [apply IH | discriminate].
Qed.

Lemma chop_any_prefix_none (ps : list (list ascii)) (l y : list ascii) :
  PyStr.chop_any ps (l ++ y) = None -> PyStr.chop_any ps l = None.
Proof.
  induction ps as [|p ps IH]; cbn; [reflexivity|].
  destruct (PyStr.chop p l) as [x|] eqn:E.
  - now rewrite (chop_app _ _ _ y E).
  - destruct (PyStr.chop p (l ++ y)); [discriminate | exact IH].
Qed.

Lemma whitespace_fwd_nonempty : Forall (fun p => p <> []) PyStr.whitespace_fwd.
Proof. unfold PyStr.whitespace_fwd, PyStr.whitespace. cbn. repeat constructor; discriminate. Qed.

Lemma rstrip_prefix (cs : list ascii) (s : string) :
  exists suf,
    list_ascii_of_string s = list_ascii_of_string (PyStr.rstrip cs s) ++ suf.
Proof.
  induction s as [|a r IH]; cbn [PyStr.rstrip]; [now exists []|].
  destruct IH as [suf IH].
  destruct (PyStr.is_empty (PyStr.rstrip cs r) && PyStr.mem a cs).
  - now eexists.
  - exists suf. cbn. now rewrite IH at 1.
Qed.

Lemma strip_no_leading_whitespace (s : string) :
  starts_with_whitespace (PyStr.strip s) = false.
Proof.
  unfold starts_with_whitespace, PyStr.strip.
  rewrite list_ascii_of_string_of_list_ascii.
  set (l1 := PyStr.strip_front _ PyStr.whitespace_fwd (list_ascii_of_string s)).
  assert (H1 : PyStr.chop_any PyStr.whitespace_fwd l1 = None)
    by (apply strip_front_done; [apply whitespace_fwd_nonempty | reflexivity]).
  destruct (strip_front_suffix (length l1) PyStr.whitespace_bwd (rev l1)) as [pre E].
  apply (f_equal (@rev ascii)) in E. rewrite rev_involutive, rev_app_distr in E.
  rewrite E in H1. apply chop_any_prefix_none in H1. now rewrite H1.
Qed.

Lemma whitespace_bwd_nonempty : Forall (fun p => p <> []) PyStr.whitespace_bwd.
Proof.
  unfold PyStr.whitespace_bwd, PyStr.whitespace_fwd, PyStr.whitespace. cbn.
  repeat constructor; discriminate.
Qed.

Lemma chop_prefix (p l l' : list ascii) : PyStr.chop p l = Some l' -> l = p ++ l'.
Proof.
  revert l. induction p as [|a p IH]; intros l; cbn.
  - now intros [= <-].
  - destruct l as [|b l]; [discriminate|].
    destruct (Ascii.eqb_spec a b) as [->|]; [|discriminate].
    intros H. now rewrite (IH _ H).
Qed.

Lemma chop_any_prefix (ps : list (list ascii)) (l l' : list ascii) :
  PyStr.chop_any ps l = Some l' -> exists p, In p ps /\ l = p ++ l'.
Proof.
  induction ps as [|p ps IH]; cbn; [discriminate|].
  destruct (PyStr.chop p l) as [x|] eqn:E.
  - intros [= <-]. exists p. split; [now left | now apply chop_prefix].
  - intros H. destruct (IH H) as (p' & Hp & ->). exists p'. split; [now right | reflexivity].
Qed.

(** What [strip_front] removes is a sequence of the given pieces. *)
Lemma strip_front_run (fuel : nat) (ps : list (list ascii)) (l : list ascii) :
  exists ws, Forall (fun p => In p ps) ws
             /\ l = concat ws ++ PyStr.strip_front fuel ps l.
Proof.
  revert l. induction fuel as [|fuel IH]; intros l; cbn [PyStr.strip_front].
  - exists []. split; [constructor | reflexivity].
  - destruct (PyStr.chop_any ps l) as [l'|] eqn:E.
    + destruct (chop_any_prefix _ _ _ E) as (p & Hp & ->).
      destruct (IH l') as (ws & Hws & E').
      exists (p :: ws). split; [now constructor|].
      cbn [concat]. rewrite <- app_assoc. now rewrite <- E'.
    + exists []. split; [constructor | reflexivity].
Qed.

Lemma whitespace_run_app (a b : list ascii) :
  whitespace_run a -> whitespace_run b -> whitespace_run (a ++ b).
Proof.
  intros (wa & Ha & ->) (wb & Hb & ->). exists (wa ++ wb).
  split; [now apply Forall_app | now rewrite concat_app].
Qed.

(** A run of reversed whitespace sequences, reversed, is a run of
    whitespace. *)
Lemma whitespace_run_rev (ws : list (list ascii)) :
  Forall (fun p => In p PyStr.whitespace_bwd) ws -> whitespace_run (rev (concat ws)).
Proof.
  induction 1 as [|p ws Hp _ IH]; cbn [concat].
  - exists []. split; [constructor | reflexivity].
  - rewrite rev_app_distr. apply whitespace_run_app; [exact IH|].
    unfold PyStr.whitespace_bwd in Hp. apply in_map_iff in Hp.
    destruct Hp as (p0 & <- & Hp0). rewrite rev_involutive.
    exists [p0]. split; [constructor; [exact Hp0 | constructor]|].
    cbn. now rewrite app_nil_r.
Qed.

(** [strip] takes a run of whitespace from each end, and leaves no
    whitespace at either end. *)
Lemma strip_decompose (s : string) :
  exists pre post,
    list_ascii_of_string s = pre ++ list_ascii_of_string (PyStr.strip s) ++ post
    /\ whitespace_run pre /\ whitespace_run post
    /\ PyStr.chop_any PyStr.whitespace_fwd (list_ascii_of_string (PyStr.strip s)) = None
    /\ PyStr.chop_any PyStr.whitespace_bwd (rev (list_ascii_of_string (PyStr.strip s)))
       = None.
Proof.
  pose proof (strip_no_leading_whitespace s) as Hlead.
  unfold starts_with_whitespace in Hlead.
  unfold PyStr.strip in *. rewrite list_ascii_of_string_of_list_ascii in *.
  set (l := list_ascii_of_string s) in *.
  set (l1 := PyStr.strip_front (length l) PyStr.whitespace_fwd l) in *.
  destruct (strip_front_run (length l) PyStr.whitespace_fwd l) as (ws1 & Hws1 & E1).
  fold l1 in E1.
  destruct (strip_front_run (length l1) PyStr.whitespace_bwd (rev l1)) as (ws2 & Hws2 & E2).
  set (l2 := PyStr.strip_front (length l1) PyStr.whitespace_bwd (rev l1)) in *.
  exists (concat ws1), (rev (concat ws2)).
  split; [|split; [|split; [|split]]].
  - rewrite E1 at 1. f_equal.
    apply (f_equal (@rev ascii)) in E2. rewrite rev_involutive, rev_app_distr in E2.
    exact E2.
  - now exists ws1.
  - now apply whitespace_run_rev.
  - destruct (PyStr.chop_any PyStr.whitespace_fwd (rev l2)); [discriminate Hlead|reflexivity].
  - rewrite rev_involutive. subst l2.
    apply strip_front_done; [apply whitespace_bwd_nonempty|].
    now rewrite length_rev.
Qed.

(** [rstrip] takes characters of the set from the end. *)
Lemma rstrip_decompose (cs : list ascii) (s : string) :
  exists suf,
    list_ascii_of_string s = list_ascii_of_string (PyStr.rstrip cs s) ++ suf
    /\ Forall (fun c => In c cs) suf.
Proof.
  induction s as [|a r IH]; cbn [PyStr.rstrip].
  - exists []. split; [reflexivity | constructor].
  - destruct IH as (suf & E & Hsuf).
    destruct (PyStr.rstrip cs r) as [|b r'] eqn:Er; cbn [PyStr.is_empty andb].
    + destruct (PyStr.mem a cs) eqn:Ea.
      * exists (a :: suf). cbn in *. rewrite E. split; [reflexivity|].
        constructor; [now apply mem_In | exact Hsuf].
      * exists suf. cbn in *. rewrite E. split; [reflexivity | exact Hsuf].
    + exists suf. cbn in *. rewrite E. split; [reflexivity | exact Hsuf].
Qed.

(** What [sanitize_filename] returns is cut from its argument. *)
Lemma sanitize_filename_cut (raw_title : string) :
  cut_from_title raw_title (sanitize_filename raw_title).
Proof.
  unfold cut_from_title, sanitize_filename.
  destruct (strip_decompose (re_sub_forbidden raw_title))
    as (pre & post & E & Hpre & Hpost & Hlead & Htrail).
  destruct (rstrip_decompose ["."; " "]%char (PyStr.strip (re_sub_forbidden raw_title)))
    as (dots & Ed & Hdots).
  exists pre, dots, post.
  split; [|split; [exact Hpre|split; [exact Hpost|split; [|rewrite <- Ed; now split]]]].
  - transitivity (list_ascii_of_string (re_sub_forbidden raw_title));
      [symmetry; apply re_sub_forbidden_spec|].
    rewrite E, Ed, <- app_assoc. reflexivity.
  - eapply Forall_impl; [exact Hdots|].
    intros c Hc. destruct Hc as [<-|[<-|[]]]; [now left | now right].
Qed.

(** C10: every task of [MediaScraper.scrape] carries as its label the
    title of the loaded page, sanitized: each character of the
    forbidden class (the nine file-name characters, newline, carriage
    return, tab) is turned into an underscore, the whitespace at both
    ends is taken away, and then the dots and spaces at the end.  So
    the label holds no forbidden character and ends neither in a dot
    nor in a space. *)
Theorem media_scrape_labels_sanitized
    {World : Type} (load : string -> World -> option MediaScraper.Document * World)
    (is_media : string -> bool) (complete_url : string -> string -> string)
    (url : string) (w w' : World) (tasks : list Task) :
  MediaScraper.scrape load is_media complete_url url w = (Some tasks, w') ->
  exists doc raw_title,
    load url w = (Some doc, w')
    /\ MediaScraper.title doc = Some raw_title
    /\ forall media label hint, In (media, label, hint) tasks ->
         label = sanitize_filename raw_title
         /\ label_ok label
         /\ cut_from_title raw_title label.
Proof.
  unfold MediaScraper.scrape. intros H.
  destruct (load url w) as [[doc|] w1]; [|discriminate].
  destruct (MediaScraper.title doc) as [raw|] eqn:Et; [|discriminate].
  injection H as <- <-. exists doc, raw.
  split; [reflexivity|]. split; [exact Et|].
  intros media label hint Hin.
  apply in_map_iff in Hin. destruct Hin as [m [E _]].
  injection E as _ <- _.
  split; [reflexivity|].
  split; [apply sanitize_filename_ok | apply sanitize_filename_cut].
Qed.

(** ** Counting by normal form *)

Lemma count_norm_app (n : string) (l1 l2 : list string) :
  count_norm n (l1 ++ l2) = count_norm n l1 + count_norm n l2.
Proof. unfold count_norm. now rewrite List.filter_app, length_app. Qed.

Lemma count_norm_zero (n : string) (l : list string) :
  (forall u, In u l -> normalize_url u <> Some n) -> count_norm n l = 0.
Proof.
  unfold count_norm. induction l as [|u l IH]; intros H; cbn; [reflexivity|].
  rewrite bool_decide_eq_false_2 by (apply H; now left).
  apply IH. intros u' Hu'. apply H. now right.
Qed.

Lemma count_norm_repeat (n u : string) (k : nat) :
  count_norm n (repeat u k) <= k.
Proof.
  unfold count_norm. etransitivity; [apply List.filter_length_le|].
  now rewrite repeat_length.
Qed.

Lemma count_norm_repeat_other (n n' u : string) (k : nat) :
  normalize_url u = Some n -> n' <> n -> count_norm n' (repeat u k) = 0.
Proof.
  intros Hn Hne. apply count_norm_zero. intros u' Hu'.
  apply repeat_spec in Hu'. subst u'. rewrite Hn. congruence.
Qed.

(** ** Full-site mode *)

Section FullSiteFacts.

Context {World : Type}.
Variable connect : string -> World -> option Page * World.
Variable operator_input : World -> bool * World.
Variable scrape : string -> World -> option (list Task) * World.
Variable complete_url : string -> string -> string.

Local Abbreviation State := (CrawlState World).
Local Abbreviation Step := (step connect operator_input scrape complete_url).
Local Abbreviation Reachable := (reachable connect operator_input scrape complete_url).
Local Abbreviation Attempt := (attempt connect operator_input).
Local Abbreviation Retry := (retry_loop connect operator_input).
Local Abbreviation Fetch := (fetch_with_retry connect operator_input).
Local Abbreviation Discover := (discover complete_url).
Local Abbreviation Consider := (consider_link complete_url).

(** *** The retry loop *)

Lemma attempt_events (u : string) (w w' : World) (r : option Page) (ev : list Event) :
  Attempt u w = (r, ev, w') ->
  connects ev = [u] /\ sitemap_log ev = [] /\ visits ev = []
  /\ scrapes ev = [] /\ sleeps ev = [].
Proof.
  unfold attempt. destruct (connect u w) as [[soup|] w1].
  - destruct (PyStr.contains _ _).
    + destruct (operator_input w1) as [ok w2]. intros [= <- <- <-]. now cbn.
    + intros [= <- <- <-]. now cbn.
  - intros [= <- <- <-]. now cbn.
Qed.

Lemma retry_loop_events (attempts : list nat) (u : string) (w w' : World)
    (r : option Page) (ev : list Event) :
  Retry attempts u w = (r, ev, w') ->
  (exists k j, k <= length attempts /\ connects ev = repeat u k
               /\ sleeps ev = repeat 3 j)
  /\ sitemap_log ev = [] /\ visits ev = [] /\ scrapes ev = [].
Proof.
  revert w w' r ev. induction attempts as [|a rest IH]; intros w w' r ev; simpl.
  - intros [= <- <- <-]. split; [exists 0, 0; now cbn | now cbn].
  - destruct (Attempt u w) as [[r1 ev1] w1] eqn:Ea.
    destruct (attempt_events _ _ _ _ _ Ea) as (Hc & Hl & Hv & Hs & Hz).
    destruct r1 as [soup|].
    + intros [= <- <- <-]. split; [|tauto].
      exists 1, 0. cbn. split; [lia|tauto].
    + destruct (Retry rest u w1) as [[r2 ev2] w2] eqn:Er.
      destruct (IH _ _ _ _ Er) as ((k & j & Hk & Hc2 & Hz2) & Hl2 & Hv2 & Hs2).
      intros [= <- <- <-].
      unfold connects, sitemap_log, visits, scrapes, sleeps in *.
      rewrite !flat_map_app. cbn.
      rewrite Hc, Hl, Hv, Hs, Hz, Hc2, Hl2, Hv2, Hs2, Hz2. cbn.
      split; [|tauto]. exists (S k), (S j). cbn. split; [lia|tauto].
Qed.

(** When every connection fails the loop runs through all its
    attempts, each followed by the message and the cooldown. *)
Lemma retry_loop_all_fail (u : string) :
  always_fails connect u ->
  forall attempts w, exists w',
    Retry attempts u w
    = (None,
       flat_map (fun k => [Connect u; Print (LoadFailed u (k + 1)); Sleep 3]) attempts,
       w').
Proof.
  intros Hf attempts. induction attempts as [|a rest IH]; intros w; simpl.
  - now exists w.
  - unfold attempt. specialize (Hf w).
    destruct (connect u w) as [r w1]. cbn in Hf. subst r.
    destruct (IH w1) as [w2 ->]. now exists w2.
Qed.

(** *** The link loop *)

Lemma consider_link_spec (cur : string) (vis : gset string) (q q' : list string)
    (href : string) :
  Consider cur vis q href = Some q' ->
  q' = q \/ (q' = q ++ [complete_url href cur]
             /\ enqueueable vis (complete_url href cur)).
Proof.
  unfold consider_link, enqueueable.
  destruct (_ || _); [intros [= <-]; now left|].
  destruct (Url.urlparse (complete_url href cur)) as [parsed|] eqn:Ep; [|discriminate].
  destruct (String.eqb (Url.netloc parsed) target_host) eqn:Eh; cbn;
    [|intros [= <-]; now left].
  apply String.eqb_eq in Eh.
  destruct (normalize_url (complete_url href cur)) as [norm_link|] eqn:En; [|discriminate].
  destruct (decide (norm_link ∈ vis)); intros [= <-]; [now left|].
  right. split; [reflexivity|]. split; eauto.
Qed.

Lemma discover_spec (hrefs : list string) (cur : string) (vis : gset string)
    (q q' : list string) :
  Discover hrefs cur vis q = Some q' ->
  exists added, q' = q ++ added /\ Forall (enqueueable vis) added.
Proof.
  revert q. induction hrefs as [|href rest IH]; intros q; simpl.
  - intros [= <-]. exists []. split; [now rewrite app_nil_r | constructor].
  - destruct (Consider cur vis q href) as [q1|] eqn:Ec; [|discriminate].
    intros Hd. destruct (IH _ Hd) as (added & -> & Hall).
    destruct (consider_link_spec _ _ _ _ _ Ec) as [-> | [-> Hq]].
    + now exists added.
    + exists (complete_url href cur :: added). split.
      * now rewrite <- app_assoc.
      * now constructor.
Qed.

(** *** One round of the loop, case by case *)

Lemma step_inv (st st' : State) :
  Step st = Next st' ->
  exists u q n, queue st = u :: q /\ normalize_url u = Some n /\
    ((n ∈ visited st
      /\ st' = {| queue := q; visited := visited st; all_tasks := all_tasks st;
                  trace := trace st; world := world st |})
     \/ ((n ∉ visited st) /\ (exists ev w1,
           Fetch u (world st) = (None, ev, w1)
           /\ st' = {| queue := q; visited := {[n]} ∪ visited st;
                       all_tasks := all_tasks st;
                       trace := (trace st ++ [Print (Visiting u); SitemapWrite n]) ++ ev;
                       world := w1 |}))
     \/ ((n ∉ visited st) /\ exists soup ev w1 page_tasks w2 q',
           Fetch u (world st) = (Some soup, ev, w1)
           /\ scrape u w1 = (page_tasks, w2)
           /\ Discover (page_hrefs soup) u ({[n]} ∪ visited st) q = Some q'
           /\ st' = {| queue := q'; visited := {[n]} ∪ visited st;
                       all_tasks := match page_tasks with
                                    | Some ts => all_tasks st ++ ts
                                    | None => all_tasks st
                                    end;
                       trace := (trace st ++ [Print (Visiting u); SitemapWrite n])
                                ++ ev
                                ++ match page_tasks with
                                   | Some _ => [Scrape u]
                                   | None => [Scrape u; Print (ScrapeFailed u)]
                                   end
                                ++ [Sleep 1];
                       world := w2 |})).
Proof.
  unfold step. destruct (queue st) as [|u q]; [discriminate|].
  destruct (normalize_url u) as [n|] eqn:En; [|discriminate].
  intros H. exists u, q, n. split; [reflexivity|]. split; [exact En|].
  destruct (decide (n ∈ visited st)) as [Hin|Hnin].
  - left. injection H as <-. now split.
  - right. destruct (Fetch u (world st)) as [[r ev] w1] eqn:Ef.
    destruct r as [soup|].
    + right. split; [assumption|].
      destruct (scrape u w1) as [page_tasks w2] eqn:Es.
      destruct (Discover (page_hrefs soup) u ({[n]} ∪ visited st) q) as [q'|] eqn:Ed;
        [|discriminate].
      injection H as <-. exists soup, ev, w1, page_tasks, w2, q'. tauto.
    + left. split; [assumption|]. injection H as <-. now exists ev, w1.
Qed.

(** What a round adds to the trace and to the visited set. *)
Lemma step_summary (st st' : State) :
  Step st = Next st' ->
  (trace st' = trace st /\ visited st' = visited st)
  \/ exists u n new k,
       normalize_url u = Some n /\ (n ∉ visited st)
       /\ visited st' = {[n]} ∪ visited st
       /\ trace st' = trace st ++ new
       /\ sitemap_log new = [n] /\ visits new = [u]
       /\ connects new = repeat u k /\ k <= 3.
Proof.
  intros H. destruct (step_inv _ _ H) as (u & q & n & Hq & Hn & Hcase).
  destruct Hcase as [[Hin ->] | [[Hnin (ev & w1 & Hf & ->)]
                               | [Hnin (soup & ev & w1 & pt & w2 & q' & Hf & Hs & Hd & ->)]]].
  - left. now cbn.
  - right. destruct (retry_loop_events _ _ _ _ _ _ Hf)
      as ((k & j & Hk & Hc & _) & Hl & Hv & _).
    exists u, n, ([Print (Visiting u); SitemapWrite n] ++ ev), k. cbn in Hk |- *.
    repeat split; try assumption.
    + now rewrite <- app_assoc.
    + unfold sitemap_log in *. cbn. now rewrite Hl.
    + unfold visits in *. cbn. now rewrite Hv.
  - right. destruct (retry_loop_events _ _ _ _ _ _ Hf)
      as ((k & j & Hk & Hc & _) & Hl & Hv & _).
    exists u, n,
      ([Print (Visiting u); SitemapWrite n] ++ ev
       ++ match pt with
          | Some _ => [Scrape u]
          | None => [Scrape u; Print (ScrapeFailed u)]
          end ++ [Sleep 1]), k.
    cbn in Hk |- *. repeat split; try assumption.
    + now rewrite <- app_assoc.
    + unfold sitemap_log in *. cbn. rewrite flat_map_app, Hl. now destruct pt.
    + unfold visits in *. cbn. rewrite flat_map_app, Hv. now destruct pt.
    + unfold connects in *. cbn. rewrite flat_map_app, Hc.
      destruct pt; cbn; now rewrite app_nil_r.
Qed.

Lemma visited_grows (st0 st : State) :
  Reachable st0 st -> visited st0 ⊆ visited st.
Proof.
  induction 1 as [|st st' _ IH Hs]; [reflexivity|].
  destruct (step_summary _ _ Hs) as [[_ ->] | (u & n & new & k & _ & _ & -> & _)];
    [assumption|].
  intros x Hx. apply elem_of_union_r. now apply IH.
Qed.

Lemma reachable_next_or_stay (st0 st : State) :
  Reachable st0 st ->
  Reachable st0 (next_or_stay connect operator_input scrape complete_url st).
Proof.
  intros H. unfold next_or_stay.
  destruct (Step st) as [|st'|st'] eqn:E; try assumption.
  eapply reach_step; eassumption.
Qed.

Lemma reachable_steps (k : nat) (st0 st : State) :
  Reachable st0 st ->
  Reachable st0 (steps connect operator_input scrape complete_url k st).
Proof.
  revert st. induction k as [|k IH]; intros st H; cbn; [assumption|].
  apply IH. now apply reachable_next_or_stay.
Qed.

(** *** Each normal form is dealt with once *)

Lemma crawl_inv_step (st st' : State) :
  crawl_inv st -> Step st = Next st' -> crawl_inv st'.
Proof.
  intros (Hnd & Hlog & Hcon & Hvis & Hcnt) Hs.
  destruct (step_summary _ _ Hs)
    as [[Ht Hv] | (u & n & new & k & Hn & Hnin & Hv & Ht & Hl & Hvs & Hc & Hk)].
  - unfold crawl_inv. rewrite Ht, Hv. tauto.
  - assert (Hlog' : sitemap_log (trace st') = sitemap_log (trace st) ++ [n]).
    { rewrite Ht. unfold sitemap_log in *. now rewrite flat_map_app, Hl. }
    assert (Hvis' : visits (trace st') = visits (trace st) ++ [u]).
    { rewrite Ht. unfold visits in *. now rewrite flat_map_app, Hvs. }
    assert (Hcon' : connects (trace st') = connects (trace st) ++ repeat u k).
    { rewrite Ht. unfold connects in *. now rewrite flat_map_app, Hc. }
    unfold crawl_inv. rewrite Hlog', Hvis', Hcon', Hv.
    split; [|split; [|split; [|split]]].
    + apply NoDup_app. split; [assumption|]. split; [|apply NoDup_singleton].
      intros x Hx Hx'. apply list_elem_of_In in Hx.
      apply list_elem_of_singleton in Hx'. subst x. apply Hnin. now apply Hlog.
    + intros n' Hin. apply in_app_or in Hin. destruct Hin as [Hin|[<-|[]]].
      * apply elem_of_union_r. now apply Hlog.
      * apply elem_of_union_l. now apply elem_of_singleton_2.
    + intros u' n' Hin Hn'. apply in_app_or in Hin. destruct Hin as [Hin|Hin].
      * apply elem_of_union_r. eapply Hcon; eassumption.
      * apply repeat_spec in Hin. subst u'. rewrite Hn in Hn'.
        injection Hn' as <-. apply elem_of_union_l. now apply elem_of_singleton_2.
    + intros u' n' Hin Hn'. apply in_app_or in Hin. destruct Hin as [Hin|[<-|[]]].
      * apply elem_of_union_r. eapply Hvis; eassumption.
      * rewrite Hn in Hn'. injection Hn' as <-.
        apply elem_of_union_l. now apply elem_of_singleton_2.
    + intros n0. rewrite !count_norm_app. destruct (Hcnt n0) as [Hc1 Hc3].
      destruct (decide (n0 = n)) as [->|Hne].
      * rewrite (count_norm_zero n (visits (trace st))), (count_norm_zero n (connects (trace st))).
        -- pose proof (count_norm_repeat n u k).
           pose proof (count_norm_repeat n u 1) as H1. cbn [repeat] in H1. lia.
        -- intros u' Hu' Hn'. apply Hnin. eapply Hcon; eassumption.
        -- intros u' Hu' Hn'. apply Hnin. eapply Hvis; eassumption.
      * rewrite (count_norm_repeat_other n n0 u k Hn Hne).
        pose proof (count_norm_repeat_other n n0 u 1 Hn Hne) as H1.
        cbn [repeat] in H1. rewrite H1. lia.
Qed.

Lemma crawl_inv_reachable (st0 st : State) :
  crawl_inv st0 -> Reachable st0 st -> crawl_inv st.
Proof.
  intros H0. induction 1 as [|st st' _ IH Hs]; [assumption|].
  eapply crawl_inv_step; eassumption.
Qed.

(** C1, as amended: in a crawl run no normal form is written to the
    Sitemap Log twice, and per normal form the crawl announces and
    starts fetching at most one URL; the retry loop connects to it at
    most three times. *)
Theorem visited_once_per_normal_form
    (url : string) (vis : option (gset string)) (w : World) (st : State) :
  Reachable (init_state url vis w) st ->
  NoDup (sitemap_log (trace st))
  /\ forall n, count_norm n (visits (trace st)) <= 1
                /\ count_norm n (connects (trace st)) <= 3.
Proof.
  intros Hr.
  assert (H0 : crawl_inv (init_state url vis w)).
  { unfold crawl_inv. cbn. repeat split; try (intros; contradiction); try lia.
    constructor. }
  destruct (crawl_inv_reachable _ _ H0 Hr) as (Hnd & _ & _ & _ & Hcnt).
  now split.
Qed.

(** *** The three ways a round can go *)

Lemma step_skip (st : State) (u : string) (q : list string) (n : string) :
  queue st = u :: q -> normalize_url u = Some n -> n ∈ visited st ->
  Step st = Next {| queue := q; visited := visited st; all_tasks := all_tasks st;
                    trace := trace st; world := world st |}.
Proof.
  intros Hq Hn Hin. unfold step. rewrite Hq, Hn.
  destruct (decide (n ∈ visited st)); [reflexivity | contradiction].
Qed.

Lemma step_abandon (st : State) (u : string) (q : list string) (n : string) :
  queue st = u :: q -> normalize_url u = Some n -> n ∉ visited st ->
  always_fails connect u ->
  exists w',
    Step st = Next {| queue := q; visited := {[n]} ∪ visited st;
                      all_tasks := all_tasks st;
                      trace := trace st
                               ++ [Print (Visiting u); SitemapWrite n;
                                   Connect u; Print (LoadFailed u 1); Sleep 3;
                                   Connect u; Print (LoadFailed u 2); Sleep 3;
                                   Connect u; Print (LoadFailed u 3); Sleep 3];
                      world := w' |}.
Proof.
  intros Hq Hn Hnin Hf. unfold step. rewrite Hq, Hn.
  destruct (decide (n ∈ visited st)); [contradiction|].
  unfold fetch_with_retry.
  destruct (retry_loop_all_fail u Hf (seq 0 3) (world st)) as [w' ->].
  exists w'. cbn. now rewrite <- app_assoc.
Qed.

Lemma step_leaf (st : State) (u : string) (q : list string) (n : string)
    (ts : list Task) :
  queue st = u :: q -> normalize_url u = Some n -> n ∉ visited st ->
  leaf_page connect scrape complete_url u ts ->
  exists w',
    Step st = Next {| queue := q; visited := {[n]} ∪ visited st;
                      all_tasks := all_tasks st ++ ts;
                      trace := trace st
                               ++ [Print (Visiting u); SitemapWrite n;
                                   Connect u; Scrape u; Sleep 1];
                      world := w' |}.
Proof.
  intros Hq Hn Hnin Hl. unfold step. rewrite Hq, Hn.
  destruct (decide (n ∈ visited st)); [contradiction|].
  destruct (Hl (world st)) as (soup & w1 & w2 & Hc & Hcap & Hs & Hd).
  unfold fetch_with_retry. cbn. unfold attempt. rewrite Hc, Hcap, Hs, Hd.
  exists w2. cbn. now rewrite <- app_assoc.
Qed.

(** What a round does to the queue: the head goes, links come in at
    the back, each on the target host and not visited. *)
Lemma step_queue (st st' : State) :
  Step st = Next st' ->
  exists added, queue st' = tl (queue st) ++ added
                /\ Forall (enqueueable (visited st')) added.
Proof.
  intros H. destruct (step_inv _ _ H) as (u & q & n & Hq & Hn & Hcase).
  rewrite Hq. cbn.
  destruct Hcase as [[Hin ->] | [[Hnin (ev & w1 & Hf & ->)]
                               | [Hnin (soup & ev & w1 & pt & w2 & q' & Hf & Hs & Hd & ->)]]];
    cbn.
  - exists []. split; [now rewrite app_nil_r | constructor].
  - exists []. split; [now rewrite app_nil_r | constructor].
  - now apply discover_spec in Hd.
Qed.

(** C2: when every connection to a URL fails, the round that pops it
    connects three times, prints the failure and sleeps three units
    after each, and goes on to the next round with the rest of the
    queue: the URL is visited and logged, nothing is scraped, no link
    is added, nothing is raised. *)
Theorem retry_exhaustion (st : State) (u : string) (q : list string) (n : string) :
  queue st = u :: q -> normalize_url u = Some n -> n ∉ visited st ->
  always_fails connect u ->
  exists w',
    let st' := {| queue := q; visited := {[n]} ∪ visited st;
                  all_tasks := all_tasks st;
                  trace := trace st
                           ++ [Print (Visiting u); SitemapWrite n;
                               Connect u; Print (LoadFailed u 1); Sleep 3;
                               Connect u; Print (LoadFailed u 2); Sleep 3;
                               Connect u; Print (LoadFailed u 3); Sleep 3];
                  world := w' |} in
    Step st = Next st'
    /\ forall fuel,
         run connect operator_input scrape complete_url (S fuel) st
         = run connect operator_input scrape complete_url fuel st'.
Proof.
  intros Hq Hn Hnin Hf.
  destruct (step_abandon st u q n Hq Hn Hnin Hf) as [w' Hs].
  exists w'. cbn zeta. split; [exact Hs|].
  intros fuel. cbn [run]. now rewrite Hs.
Qed.

(** C4: the links a round adds to the queue are all on the target
    host, and a link whose network location is another one leaves the
    queue as it was; the link loop prints and logs nothing. *)
Theorem off_host_links_dropped (st st' : State) :
  Step st = Next st' ->
  (exists added, queue st' = tl (queue st) ++ added
                 /\ forall link, In link added ->
                      exists parsed, Url.urlparse link = Some parsed
                                     /\ Url.netloc parsed = target_host)
  /\ (forall cur vis q href parsed,
        Url.urlparse (complete_url href cur) = Some parsed ->
        Url.netloc parsed <> target_host ->
        Consider cur vis q href = Some q).
Proof.
  intros H. split.
  - destruct (step_queue _ _ H) as (added & Hq & Hall).
    exists added. split; [assumption|].
    intros link Hin. rewrite Forall_forall in Hall.
    apply list_elem_of_In in Hin. now destruct (Hall _ Hin) as [Hp _].
  - intros cur vis q href parsed Hp Hne. unfold consider_link.
    destruct (_ || _); [reflexivity|]. rewrite Hp.
    destruct (String.eqb (Url.netloc parsed) target_host) eqn:E; [|reflexivity].
    apply String.eqb_eq in E. contradiction.
Qed.

(** C5, as amended: a link enters the queue only when its normal form
    is not in the visited set at that moment, and a queued URL whose
    normal form has been visited in the meantime is dropped when it is
    popped, with nothing logged, fetched or scraped. *)
Theorem enqueued_links_unvisited (st st' : State) :
  Step st = Next st' ->
  (exists added, queue st' = tl (queue st) ++ added
                 /\ forall link, In link added ->
                      exists n, normalize_url link = Some n /\ n ∉ visited st')
  /\ (forall u q n, queue st = u :: q -> normalize_url u = Some n ->
        n ∈ visited st ->
        st' = {| queue := q; visited := visited st; all_tasks := all_tasks st;
                 trace := trace st; world := world st |}).
Proof.
  intros H. split.
  - destruct (step_queue _ _ H) as (added & Hq & Hall).
    exists added. split; [assumption|].
    intros link Hin. rewrite Forall_forall in Hall.
    apply list_elem_of_In in Hin. now destruct (Hall _ Hin) as [_ Hn].
  - intros u q n Hq Hn Hin. rewrite (step_skip st u q n Hq Hn Hin) in H.
    now injection H.
Qed.

Lemma consider_link_none (cur : string) (vis : gset string) (q : list string)
    (href : string) :
  Consider cur vis q href = None <-> rejected_link complete_url cur href = true.
Proof.
  unfold consider_link, rejected_link, normalize_url.
  destruct (_ || _); cbn [negb andb]; [split; discriminate|].
  destruct (Url.urlparse (complete_url href cur)) as [parsed|]; [|tauto].
  destruct (negb _); [split; discriminate|].
  destruct (decide _); split; discriminate.
Qed.

(** The link loop raises exactly when one of its links is rejected. *)
Lemma discover_none (hrefs : list string) (cur : string) (vis : gset string)
    (q : list string) :
  Discover hrefs cur vis q = None
  <-> existsb (rejected_link complete_url cur) hrefs = true.
Proof.
  revert q. induction hrefs as [|href rest IH]; intros q; cbn [discover existsb].
  - split; discriminate.
  - destruct (Consider cur vis q href) as [q1|] eqn:Ec.
    + destruct (rejected_link complete_url cur href) eqn:Er.
      * apply (consider_link_none cur vis q href) in Er. congruence.
      * cbn [orb]. apply IH.
    + apply consider_link_none in Ec. rewrite Ec. cbn [orb]. tauto.
Qed.

(** C8, as amended: how a round that pops [u] ends.  A URL whose
    normal form is visited is dropped with nothing done; a URL that
    failed its three attempts is left after the cooldowns, without a
    one-unit sleep; a URL whose page was fetched gets the one-unit
    sleep as the last event of its round, whether the scrape returned
    or raised, unless [urlparse] rejects one of its links: then the
    round raises before the sleep. *)
Theorem delay_after_fetched_page (st : State) (u : string) (q : list string)
    (n : string) :
  queue st = u :: q -> normalize_url u = Some n ->
  (n ∈ visited st ->
   exists st', Step st = Next st' /\ trace st' = trace st)
  /\ ((n ∉ visited st) ->
      forall ev w1, Fetch u (world st) = (None, ev, w1) ->
        (~ In 1 (sleeps ev))
        /\ exists st', Step st = Next st'
             /\ trace st' = trace st ++ [Print (Visiting u); SitemapWrite n] ++ ev)
  /\ ((n ∉ visited st) ->
      forall soup ev w1, Fetch u (world st) = (Some soup, ev, w1) ->
        let round :=
          [Print (Visiting u); SitemapWrite n] ++ ev
          ++ match fst (scrape u w1) with
             | Some _ => [Scrape u]
             | None => [Scrape u; Print (ScrapeFailed u)]
             end in
        (~ In 1 (sleeps round))
        /\ (existsb (rejected_link complete_url u) (page_hrefs soup) = false ->
            exists st', Step st = Next st'
              /\ trace st' = trace st ++ round ++ [Sleep 1])
        /\ (existsb (rejected_link complete_url u) (page_hrefs soup) = true ->
            exists st', Step st = Raised st'
              /\ trace st' = trace st ++ round)).
Proof.
  intros Hq Hn. split; [|split].
  - intros Hin. rewrite (step_skip st u q n Hq Hn Hin). now eexists.
  - intros Hnin ev w1 Hf.
    destruct (retry_loop_events _ _ _ _ _ _ Hf) as ((k & j & _ & _ & Hz) & _).
    split.
    + rewrite Hz. intros Hin. apply repeat_spec in Hin. discriminate.
    + unfold step. rewrite Hq, Hn.
      destruct (decide (n ∈ visited st)); [contradiction|]. rewrite Hf.
      eexists. split; [reflexivity|]. cbn [trace]. now rewrite <- app_assoc.
  - intros Hnin soup ev w1 Hf. cbn zeta.
    destruct (retry_loop_events _ _ _ _ _ _ Hf) as ((k & j & _ & _ & Hz) & _).
    split; [|split].
    + unfold sleeps in *. cbn [flat_map app]. rewrite flat_map_app, Hz.
      intros Hin. apply in_app_or in Hin. destruct Hin as [Hin|Hin].
      * apply repeat_spec in Hin. discriminate.
      * destruct (fst (scrape u w1)); cbn in Hin; tauto.
    + intros Hok. unfold step. rewrite Hq, Hn.
      destruct (decide (n ∈ visited st)); [contradiction|]. rewrite Hf.
      destruct (scrape u w1) as [pt w2]. cbn [fst].
      destruct (Discover (page_hrefs soup) u ({[n]} ∪ visited st) q) as [q'|] eqn:Ed.
      * eexists. split; [reflexivity|]. cbn [trace]. now rewrite <- !app_assoc.
      * apply discover_none in Ed. congruence.
    + intros Hbad. unfold step. rewrite Hq, Hn.
      destruct (decide (n ∈ visited st)); [contradiction|]. rewrite Hf.
      destruct (scrape u w1) as [pt w2]. cbn [fst].
      apply discover_none with (vis := {[n]} ∪ visited st) (q := q) in Hbad.
      rewrite Hbad. eexists. split; [reflexivity|]. cbn [trace].
      now rewrite <- !app_assoc.
Qed.

(** C6: from a queue of three URLs, the first and third leaf pages and
    the second failing at every connection, the crawl returns with the
    tasks of the first and the third; every one of the three is logged
    before its first connection, and the second is never scraped. *)
Theorem partial_failure_continuation (st : State) (u1 u2 u3 n1 n2 n3 : string)
    (t1 t3 : list Task) (extra : nat) :
  queue st = [u1; u2; u3] ->
  normalize_url u1 = Some n1 -> normalize_url u2 = Some n2 ->
  normalize_url u3 = Some n3 ->
  n1 <> n2 -> n1 <> n3 -> n2 <> n3 ->
  n1 ∉ visited st -> n2 ∉ visited st -> n3 ∉ visited st ->
  leaf_page connect scrape complete_url u1 t1 ->
  always_fails connect u2 ->
  leaf_page connect scrape complete_url u3 t3 ->
  exists st',
    run connect operator_input scrape complete_url (4 + extra) st = Returned st'
    /\ all_tasks st' = all_tasks st ++ t1 ++ t3
    /\ sitemap_log (trace st') = sitemap_log (trace st) ++ [n1; n2; n3]
    /\ scrapes (trace st') = scrapes (trace st) ++ [u1; u3]
    /\ trace st'
       = trace st
         ++ [Print (Visiting u1); SitemapWrite n1; Connect u1; Scrape u1; Sleep 1]
         ++ [Print (Visiting u2); SitemapWrite n2;
             Connect u2; Print (LoadFailed u2 1); Sleep 3;
             Connect u2; Print (LoadFailed u2 2); Sleep 3;
             Connect u2; Print (LoadFailed u2 3); Sleep 3]
         ++ [Print (Visiting u3); SitemapWrite n3; Connect u3; Scrape u3; Sleep 1].
Proof.
  intros Hq Hn1 Hn2 Hn3 H12 H13 H23 Hv1 Hv2 Hv3 Hl1 Hf2 Hl3.
  destruct (step_leaf st u1 [u2; u3] n1 t1 Hq Hn1 Hv1 Hl1) as [w1 Hs1].
  set (st1 := {| queue := [u2; u3]; visited := {[n1]} ∪ visited st;
                 all_tasks := all_tasks st ++ t1;
                 trace := trace st ++ [Print (Visiting u1); SitemapWrite n1;
                                       Connect u1; Scrape u1; Sleep 1];
                 world := w1 |}) in *.
  assert (Hv2' : n2 ∉ visited st1).
  { cbn. intros Hin. apply elem_of_union in Hin. destruct Hin as [Hin|Hin];
      [apply elem_of_singleton in Hin; congruence | contradiction]. }
  destruct (step_abandon st1 u2 [u3] n2 eq_refl Hn2 Hv2' Hf2) as [w2 Hs2].
  match type of Hs2 with _ = Next ?s => set (st2 := s) in * end.
  assert (Hv3' : n3 ∉ visited st2).
  { cbn. intros Hin. apply elem_of_union in Hin. destruct Hin as [Hin|Hin];
      [apply elem_of_singleton in Hin; congruence|].
    apply elem_of_union in Hin. destruct Hin as [Hin|Hin];
      [apply elem_of_singleton in Hin; congruence | contradiction]. }
  destruct (step_leaf st2 u3 [] n3 t3 eq_refl Hn3 Hv3' Hl3) as [w3 Hs3].
  match type of Hs3 with _ = Next ?s => set (st3 := s) in * end.
  exists st3. split.
  - cbn [run Nat.add]. rewrite Hs1. cbn [run]. rewrite Hs2. cbn [run]. rewrite Hs3.
    destruct extra; reflexivity.
  - subst st3 st2 st1. cbn [all_tasks trace]. repeat split.
    + now rewrite <- app_assoc.
    + unfold sitemap_log. rewrite !flat_map_app. cbn. now rewrite <- !app_assoc.
    + unfold scrapes. rewrite !flat_map_app. cbn. now rewrite <- !app_assoc.
    + now rewrite <- !app_assoc.
Qed.

Lemma step_next_or_stay (st : State) :
  is_next (Step st) = true ->
  Step st = Next (next_or_stay connect operator_input scrape complete_url st).
Proof. unfold next_or_stay. now destruct (Step st). Qed.

(** After a round that popped [u], the normal form of [u] is visited. *)
Lemma step_marks_visited (st st' : State) (u : string) (q : list string) (n : string) :
  queue st = u :: q -> normalize_url u = Some n -> Step st = Next st' ->
  n ∈ visited st'.
Proof.
  intros Hq Hn H. destruct (step_inv _ _ H) as (u' & q' & n' & Hq' & Hn' & Hcase).
  rewrite Hq in Hq'. injection Hq' as <- <-. rewrite Hn in Hn'. injection Hn' as <-.
  destruct Hcase as [[Hin ->] | [[_ (ev & w1 & _ & ->)]
                               | [_ (soup & ev & w1 & pt & w2 & q2 & _ & _ & _ & ->)]]];
    cbn; [assumption| |]; apply elem_of_union_l; now apply elem_of_singleton_2.
Qed.

End FullSiteFacts.

(** A page whose first connection fails is connected to twice: the
    claim that a page is navigated to at most once does not hold of
    the retry loop. *)
Lemma connected_twice_after_a_failure :
  let out := Demo.crawl 1 Demo.site_two Demo.root in
  returned out = true
  /\ connects (trace (final_state out)) = [Demo.root; Demo.root; Demo.page_b]
  /\ count_norm "https://candidteens.net" (connects (trace (final_state out))) = 2
  /\ ~ count_norm "https://candidteens.net" (connects (trace (final_state out))) <= 1.
Proof.
  vm_compute. repeat split; try reflexivity. intros H. inversion H. inversion H1.
Qed.

Lemma visited_once_per_normal_form_witness :
  reachable (Demo.connect Demo.site_two) Demo.operator_input
            (Demo.scrape Demo.site_two) Demo.complete_url
            (init_state Demo.root None 0) (Demo.crawl_steps 3 Demo.site_two Demo.root)
  /\ NoDup (sitemap_log (trace (Demo.crawl_steps 3 Demo.site_two Demo.root))).
Proof.
  split.
  - apply reachable_steps. constructor.
  - eapply (visited_once_per_normal_form (Demo.connect Demo.site_two)).
    apply reachable_steps. constructor.
Defined.


Lemma retry_exhaustion_witness :
  always_fails (Demo.connect Demo.site_two) Demo.missing
  /\ exists w',
       step (Demo.connect Demo.site_two) Demo.operator_input
            (Demo.scrape Demo.site_two) Demo.complete_url (Demo.queued [Demo.missing])
       = Next {| queue := []; visited := {[Demo.missing]} ∪ ∅; all_tasks := [];
                 trace := [Print (Visiting Demo.missing); SitemapWrite Demo.missing;
                           Connect Demo.missing; Print (LoadFailed Demo.missing 1); Sleep 3;
                           Connect Demo.missing; Print (LoadFailed Demo.missing 2); Sleep 3;
                           Connect Demo.missing; Print (LoadFailed Demo.missing 3); Sleep 3];
                 world := w' |}.
Proof.
  assert (Hf : always_fails (Demo.connect Demo.site_two) Demo.missing)
    by (intros w; reflexivity).
  split; [exact Hf|].
  destruct (retry_exhaustion (Demo.connect Demo.site_two) Demo.operator_input
              (Demo.scrape Demo.site_two) Demo.complete_url
              (Demo.queued [Demo.missing]) Demo.missing [] Demo.missing
              eq_refl eq_refl (not_elem_of_empty _) Hf) as [w' [H _]].
  exists w'. exact H.
Defined.

Lemma off_host_links_dropped_witness :
  let st := Demo.queued [Demo.root] in
  let st' := Demo.crawl_steps 1 Demo.site_two Demo.root in
  step (Demo.connect Demo.site_two) Demo.operator_input
       (Demo.scrape Demo.site_two) Demo.complete_url st = Next st'
  /\ exists added, queue st' = tl (queue st) ++ added
                   /\ forall link, In link added ->
                        exists parsed, Url.urlparse link = Some parsed
                                       /\ Url.netloc parsed = target_host.
Proof.
  cbn zeta.
  assert (H : step (Demo.connect Demo.site_two) Demo.operator_input
                   (Demo.scrape Demo.site_two) Demo.complete_url
                   (Demo.queued [Demo.root])
              = Next (Demo.crawl_steps 1 Demo.site_two Demo.root)).
  { apply (step_next_or_stay (Demo.connect Demo.site_two)). vm_compute. reflexivity. }
  split; [exact H|].
  exact (proj1 (off_host_links_dropped _ _ _ _ _ _ H)).
Defined.

(** After two rounds on [site_two] the queue holds the second copy of
    a link whose normal form was visited in the second round. *)
Lemma queue_holds_visited_url :
  let st := Demo.crawl_steps 2 Demo.site_two Demo.root in
  reachable (Demo.connect Demo.site_two) Demo.operator_input
            (Demo.scrape Demo.site_two) Demo.complete_url
            (init_state Demo.root None 0) st
  /\ queue st = [Demo.page_b]
  /\ normalize_url Demo.page_b = Some Demo.page_b
  /\ Demo.page_b ∈ visited st.
Proof.
  cbn zeta. split; [apply reachable_steps; constructor|].
  split; [vm_compute; reflexivity|]. split; [vm_compute; reflexivity|].
  refine (bool_decide_unpack _ _). vm_compute. exact I.
Qed.

Lemma enqueued_links_unvisited_witness :
  let st := Demo.queued [Demo.root] in
  let st' := Demo.crawl_steps 1 Demo.site_two Demo.root in
  step (Demo.connect Demo.site_two) Demo.operator_input
       (Demo.scrape Demo.site_two) Demo.complete_url st = Next st'
  /\ exists added, queue st' = tl (queue st) ++ added
                   /\ forall link, In link added ->
                        exists n, normalize_url link = Some n /\ n ∉ visited st'.
Proof.
  cbn zeta.
  assert (H : step (Demo.connect Demo.site_two) Demo.operator_input
                   (Demo.scrape Demo.site_two) Demo.complete_url
                   (Demo.queued [Demo.root])
              = Next (Demo.crawl_steps 1 Demo.site_two Demo.root)).
  { apply (step_next_or_stay (Demo.connect Demo.site_two)). vm_compute. reflexivity. }
  split; [exact H|].
  exact (proj1 (enqueued_links_unvisited _ _ _ _ _ _ H)).
Defined.

(** A URL that fails all three attempts is announced, logged and
    slept on for three units three times, and the loop goes on without
    the one-unit delay. *)
Lemma no_delay_after_exhausted_retries :
  let out := Demo.crawl 0 Demo.site_two Demo.missing in
  returned out = true
  /\ visits (trace (final_state out)) = [Demo.missing]
  /\ sleeps (trace (final_state out)) = [3; 3; 3]
  /\ ~ In 1 (sleeps (trace (final_state out))).
Proof.
  vm_compute. repeat split; try reflexivity.
  intros [H|[H|[H|[]]]]; discriminate H.
Qed.

(** A page that is fetched and scraped and holds a link [urlparse]
    rejects: the round raises after the scrape, without the one-unit
    sleep, and the crawl ends there. *)
Lemma no_delay_when_a_link_is_rejected :
  let out := Demo.crawl 0 Demo.site_bad_link Demo.root in
  Url.urlparse Demo.bad_link = None
  /\ returned out = false
  /\ out = Crashed (final_state out)
  /\ trace (final_state out)
     = [Print (Visiting Demo.root); SitemapWrite "https://candidteens.net";
        Connect Demo.root; Scrape Demo.root]
  /\ sleeps (trace (final_state out)) = [].
Proof. vm_compute. repeat split; reflexivity. Qed.

Lemma delay_after_fetched_page_witness :
  exists st',
    step (Demo.connect Demo.site_two) Demo.operator_input
         (Demo.scrape Demo.site_two) Demo.complete_url (Demo.queued [Demo.root])
    = Next st'
    /\ trace st'
       = [Print (Visiting Demo.root); SitemapWrite "https://candidteens.net";
          Connect Demo.root; Scrape Demo.root; Sleep 1].
Proof.
  destruct (delay_after_fetched_page (Demo.connect Demo.site_two) Demo.operator_input
              (Demo.scrape Demo.site_two) Demo.complete_url
              (Demo.queued [Demo.root]) Demo.root [] "https://candidteens.net"
              eq_refl)
    as (_ & _ & H).
  - vm_compute. reflexivity.
  - destruct (H (not_elem_of_empty _)
                {| page_text := "";
                   page_hrefs := [Demo.page_b; Demo.page_b; "https://other.com/x"; "#top"];
                   page_url := Demo.root |}
                [Connect Demo.root] 1) as (_ & Hnext & _).
    + vm_compute. reflexivity.
    + destruct Hnext as (st' & Hs & Ht); [vm_compute; reflexivity|].
      exists st'. split; [exact Hs | exact Ht].
Defined.

Lemma partial_failure_continuation_witness :
  let st := Demo.queued [Demo.root; Demo.missing; Demo.page_c] in
  always_fails (Demo.connect Demo.site_leaves) Demo.missing
  /\ exists st',
       run (Demo.connect Demo.site_leaves) Demo.operator_input
           (Demo.scrape Demo.site_leaves) Demo.complete_url 4 st = Returned st'
       /\ all_tasks st' = [Demo.task "r"; Demo.task "c"]
       /\ sitemap_log (trace st')
          = ["https://candidteens.net"; Demo.missing; Demo.page_c].
Proof.
  cbn zeta.
  assert (Hf : always_fails (Demo.connect Demo.site_leaves) Demo.missing)
    by (intros w; reflexivity).
  split; [exact Hf|].
  destruct (partial_failure_continuation
              (Demo.connect Demo.site_leaves) Demo.operator_input
              (Demo.scrape Demo.site_leaves) Demo.complete_url
              (Demo.queued [Demo.root; Demo.missing; Demo.page_c])
              Demo.root Demo.missing Demo.page_c
              "https://candidteens.net" Demo.missing Demo.page_c
              [Demo.task "r"] [Demo.task "c"] 0)
    as (st' & Hrun & Htasks & Hlog & _).
  - reflexivity.
  - vm_compute. reflexivity.
  - vm_compute. reflexivity.
  - vm_compute. reflexivity.
  - discriminate.
  - discriminate.
  - discriminate.
  - apply not_elem_of_empty.
  - apply not_elem_of_empty.
  - apply not_elem_of_empty.
  - intros w. eexists _, _, _. repeat split; reflexivity.
  - exact Hf.
  - intros w. eexists _, _, _. repeat split; reflexivity.
  - exists st'. split; [exact Hrun|]. split; [exact Htasks | exact Hlog].
Defined.

(** ** Bounded-depth mode *)

Section BoundedDepthFacts.

Context {World : Type}.
Variable connect : string -> World -> option Page * World.
Variable scrape : string -> World -> option (list Task) * World.
Variable complete_url : string -> string -> string.

(** The loop over the links only adds to the events it starts with. *)
Lemma descend_events (recurse : string -> gset string -> World -> RecResult World)
    (links : list string) (tasks : list Task) (vis : gset string)
    (ev : list Event) (w : World) :
  exists more, rec_events (descend recurse links tasks vis ev w) = ev ++ more.
Proof.
  revert tasks vis ev w. induction links as [|link rest IH]; intros tasks vis ev w; cbn.
  - exists []. now rewrite app_nil_r.
  - destruct (rec_status (recurse link vis w)) as [ts| |].
    + destruct (IH (tasks ++ ts) (rec_visited (recurse link vis w))
                   (ev ++ rec_events (recurse link vis w))
                   (rec_world (recurse link vis w))) as [more ->].
      exists (rec_events (recurse link vis w) ++ more). now rewrite app_assoc.
    + now eexists.
    + now eexists.
Qed.

(** A call that gets past the test starts with the scrape of its URL. *)
Lemma scrape_recursive_enters (fuel : nat) (url : string) (max_depth : Z)
    (vis : gset string) (w : World) :
  bool_decide (url ∈ vis) || (max_depth =? 0)%Z = false ->
  exists more,
    rec_events (scrape_recursive connect scrape complete_url (S fuel) url max_depth vis w)
    = Scrape url :: more.
Proof.
  intros G. cbn [scrape_recursive]. rewrite G.
  destruct (scrape url w) as [[tasks|] w1].
  - destruct (connect url w1) as [[soup|] w2].
    + destruct (descend_events
                  (fun link => scrape_recursive connect scrape complete_url fuel link
                                                (max_depth - 1))
                  (map (fun href => complete_url href (page_url soup))
                       (List.filter followed (page_hrefs soup)))
                  tasks ({[url]} ∪ vis) [Scrape url; Connect url] w2) as [more ->].
      now eexists.
    + now eexists.
  - now eexists.
Qed.

(** C7, as amended: a call stops at once, with an empty task list,
    the visited set and the world untouched and nothing done, exactly
    when the URL as given is in the visited set or the depth is zero. *)
Theorem bounded_depth_stop_rule (fuel : nat) (url : string) (max_depth : Z)
    (vis : gset string) (w : World) :
  (url ∈ vis \/ max_depth = 0%Z)
  <-> scrape_recursive connect scrape complete_url (S fuel) url max_depth vis w
      = {| rec_status := RecReturned []; rec_visited := vis;
           rec_events := []; rec_world := w |}.
Proof.
  destruct (bool_decide (url ∈ vis) || (max_depth =? 0)%Z) eqn:G.
  - split; [intros _; cbn [scrape_recursive]; now rewrite G|].
    intros _. apply orb_true_iff in G. destruct G as [G|G].
    + left. now apply bool_decide_eq_true in G.
    + right. now apply Z.eqb_eq in G.
  - split.
    + intros [H|H].
      * apply orb_false_iff in G. destruct G as [G _].
        apply bool_decide_eq_false in G. contradiction.
      * apply orb_false_iff in G. destruct G as [_ G].
        apply Z.eqb_neq in G. contradiction.
    + intros E. destruct (scrape_recursive_enters fuel url max_depth vis w G) as [more Hm].
      rewrite E in Hm. discriminate Hm.
Qed.

End BoundedDepthFacts.

(** Bounded-depth mode tests the URL as it stands: with the normal
    form of the URL in the visited set, the call still scrapes the
    page and returns its task. *)
Lemma bounded_mode_ignores_normal_form :
  let r := scrape_recursive (Demo.connect Demo.site_a) (Demo.scrape Demo.site_a)
             Demo.complete_url 3 Demo.url_a_slash 1 {[Demo.url_a]} 0 in
  normalize_url Demo.url_a_slash = Some Demo.url_a
  /\ Demo.url_a ∈ ({[Demo.url_a]} : gset string)
  /\ rec_status r = RecReturned [Demo.task "a"]
  /\ rec_events r = [Scrape Demo.url_a_slash; Connect Demo.url_a_slash].
Proof.
  cbn zeta. split; [vm_compute; reflexivity|].
  split; [now apply elem_of_singleton_2|].
  split; vm_compute; reflexivity.
Qed.

(** ** Pagination mode *)

Section MockFeed.

Import InstagramScraper.

Lemma path_edge (sc : string) :
  Py.path ["node"; "shortcode"] (edge_json sc) = Some (PStr sc).
Proof. reflexivity. Qed.


Lemma path_post (sc : string) :
  Py.path ["graphql"; "shortcode_media"] (post_response sc) = Some (PStr sc).
Proof. reflexivity. Qed.

Section Parser.

Variable parse_node : pyval -> option pyval.



End Parser.

Lemma item_requests_posts (b : Batch) : item_requests (posts b) = b_shortcodes b.
Proof.
  unfold posts, item_requests.
  induction (b_shortcodes b) as [|sc scs IH]; [reflexivity|].
  cbn [map flat_map]. rewrite IH. reflexivity.
Qed.

Lemma batch_requests_posts (b : Batch) : batch_requests (posts b) = [].
Proof.
  unfold posts, batch_requests.
  induction (b_shortcodes b) as [|sc scs IH]; [reflexivity|].
  cbn [map flat_map]. rewrite IH. reflexivity.
Qed.






End MockFeed.



(** What the walk returns for [feed_two]: the three components of
    every item follow one another in one flat list. *)
Example mock_scrape_feed_two :
  InstagramScraper.status (InstagramScraper.mock_scrape 2 "user" InstagramScraper.feed_two)
  = InstagramScraper.Returned
      [PStr "a"; PStr "user"; PNone; PStr "b"; PStr "user"; PNone;
       PStr "c"; PStr "user"; PNone].
Proof. vm_compute. reflexivity. Qed.

(** ** The labels of [MediaScraper.scrape], on a page *)

Lemma media_scrape_labels_sanitized_witness :
  MediaScraper.scrape Demo.load (fun _ => true) Demo.complete_url Demo.root 0
  = (Some [("x.jpg", "a_b_ c_", None); ("here", "a_b_ c_", None);
           ("y.png", "a_b_ c_", None)], 0)
  /\ exists doc raw_title,
       Demo.load Demo.root 0 = (Some doc, 0)
       /\ MediaScraper.title doc = Some raw_title
       /\ "a_b_ c_" = sanitize_filename raw_title
       /\ label_ok "a_b_ c_"
       /\ cut_from_title raw_title "a_b_ c_".
Proof.
  assert (H : MediaScraper.scrape Demo.load (fun _ => true) Demo.complete_url Demo.root 0
              = (Some [("x.jpg", "a_b_ c_", None); ("here", "a_b_ c_", None);
                       ("y.png", "a_b_ c_", None)], 0))
    by (vm_compute; reflexivity).
  split; [exact H|].
  destruct (media_scrape_labels_sanitized Demo.load (fun _ => true) Demo.complete_url
              Demo.root 0 0 _ H) as (doc & raw_title & Hl & Ht & Hall).
  exists doc, raw_title. split; [exact Hl|]. split; [exact Ht|].
  apply (Hall "x.jpg" "a_b_ c_" None). left. reflexivity.
Defined.

(** * Further properties *)

(** ** Full-site mode: the retry loop, the log and the frontier *)

Section FullSiteMore.

Context {World : Type}.
Variable connect : string -> World -> option Page * World.
Variable operator_input : World -> bool * World.
Variable scrape : string -> World -> option (list Task) * World.
Variable complete_url : string -> string -> string.

Local Abbreviation State := (CrawlState World).
Local Abbreviation Step := (step connect operator_input scrape complete_url).
Local Abbreviation Run := (run connect operator_input scrape complete_url).
Local Abbreviation Reachable := (reachable connect operator_input scrape complete_url).
Local Abbreviation Attempt := (attempt connect operator_input).
Local Abbreviation Retry := (retry_loop connect operator_input).
Local Abbreviation Fetch := (fetch_with_retry connect operator_input).
Local Abbreviation Discover := (discover complete_url).
Local Abbreviation Consider := (consider_link complete_url).

Lemma retry_loop_shape (attempts : list nat) (u : string) (w w' : World)
    (r : option Page) (ev : list Event) :
  Retry attempts u w = (r, ev, w') ->
  exists k, k <= length attempts
    /\ connects ev = repeat u k
    /\ sleeps ev = repeat 3 (match r with Some _ => k - 1 | None => k end)
    /\ (r = None -> k = length attempts)
    /\ (r <> None -> 1 <= k).
Proof.
  revert w w' r ev. induction attempts as [|a rest IH]; intros w w' r ev; simpl.
  - intros [= <- <- <-]. exists 0. cbn. repeat split; try lia. congruence.
  - destruct (Attempt u w) as [[r1 ev1] w1] eqn:Ea.
    destruct (attempt_events _ _ _ _ _ _ _ Ea) as (Hc & _ & _ & _ & Hz).
    destruct r1 as [soup|].
    + intros [= <- <- <-]. exists 1. rewrite Hc, Hz. cbn.
      repeat split; try lia. discriminate.
    + destruct (Retry rest u w1) as [[r2 ev2] w2] eqn:Er.
      destruct (IH _ _ _ _ Er) as (k & Hk & Hc2 & Hz2 & Hn & Hs).
      intros [= <- <- <-]. exists (S k).
      unfold connects, sleeps in *. rewrite !flat_map_app. cbn.
      rewrite Hc, Hz, Hc2, Hz2. cbn. repeat split; try lia.
      * destruct r2 as [soup|]; [|reflexivity].
        assert (1 <= k) by (apply Hs; discriminate).
        destruct k; [lia|]. cbn. now rewrite Nat.sub_0_r.
      * intros E. rewrite (Hn E). reflexivity.
Qed.

(** X1: the retry loop connects between one and three times, sleeps
    three units after each failed attempt and never after the attempt
    that succeeded; it gives up only after the third attempt. *)
Theorem retry_cooldowns (u : string) (w : World) :
  exists k, 1 <= k <= 3
    /\ connects (snd (fst (Fetch u w))) = repeat u k
    /\ sleeps (snd (fst (Fetch u w)))
       = repeat 3 (match fst (fst (Fetch u w)) with Some _ => k - 1 | None => k end)
    /\ (fst (fst (Fetch u w)) = None -> k = 3).
Proof.
  destruct (Fetch u w) as [[r ev] w'] eqn:E. cbn [fst snd].
  unfold fetch_with_retry in E.
  destruct (retry_loop_shape _ _ _ _ _ _ E) as (k & Hk & Hc & Hz & Hn & Hs).
  cbn in Hk, Hn. exists k. repeat split; try assumption.
  destruct r as [soup|]; [apply Hs; discriminate | rewrite Hn; [lia | reflexivity]].
Qed.

(** X2: the visited set is the set the crawl was started with
    together with the lines of the Sitemap Log. *)
Theorem visited_is_start_and_log (url : string) (vis : option (gset string))
    (w : World) (st : State) :
  Reachable (init_state url vis w) st ->
  visited st
  = visited (init_state url vis w) ∪ list_to_set (sitemap_log (trace st)).
Proof.
  induction 1 as [|st st' _ IH Hs].
  - cbn. now rewrite union_empty_r_L.
  - destruct (step_summary _ _ _ _ _ _ Hs)
      as [[Ht Hv] | (u & n & new & k & _ & _ & Hv & Ht & Hl & _)].
    + now rewrite Ht, Hv.
    + rewrite Hv, Ht, IH. unfold sitemap_log in *.
      rewrite flat_map_app, Hl, list_to_set_app_L. cbn.
      rewrite union_empty_r_L.
      rewrite (union_comm_L {[n]}). now rewrite union_assoc_L.
Qed.

(** What a round that visits adds, with the scrapes. *)
Lemma step_summary_scrapes (st st' : State) :
  Step st = Next st' ->
  (trace st' = trace st /\ visited st' = visited st)
  \/ exists u q n new k,
       queue st = u :: q /\ normalize_url u = Some n /\ (n ∉ visited st)
       /\ visited st' = {[n]} ∪ visited st
       /\ trace st' = trace st ++ new
       /\ sitemap_log new = [n]
       /\ (scrapes new = [] \/ scrapes new = [u])
       /\ connects new = repeat u k.
Proof.
  intros H. destruct (step_inv _ _ _ _ _ _ H) as (u & q & n & Hq & Hn & Hcase).
  destruct Hcase as [[Hin ->] | [[Hnin (ev & w1 & Hf & ->)]
                               | [Hnin (soup & ev & w1 & pt & w2 & q' & Hf & Hs & Hd & ->)]]].
  - left. now cbn.
  - right. destruct (retry_loop_events connect operator_input scrape complete_url _ _ _ _ _ _ Hf)
      as ((k & j & _ & Hc & _) & Hl & _ & Hsc).
    exists u, q, n, ([Print (Visiting u); SitemapWrite n] ++ ev), k. cbn.
    repeat split; try assumption.
    + now rewrite <- app_assoc.
    + unfold sitemap_log in *. cbn. now rewrite Hl.
    + left. exact Hsc.
  - right. destruct (retry_loop_events connect operator_input scrape complete_url _ _ _ _ _ _ Hf)
      as ((k & j & _ & Hc & _) & Hl & _ & Hsc).
    exists u, q, n,
      ([Print (Visiting u); SitemapWrite n] ++ ev
       ++ match pt with
          | Some _ => [Scrape u]
          | None => [Scrape u; Print (ScrapeFailed u)]
          end ++ [Sleep 1]), k.
    cbn. repeat split; try assumption.
    + now rewrite <- app_assoc.
    + unfold sitemap_log in *. cbn. rewrite flat_map_app, Hl. now destruct pt.
    + right. unfold scrapes in *. cbn. rewrite flat_map_app, Hsc. now destruct pt.
    + unfold connects in *. cbn. rewrite flat_map_app, Hc.
      destruct pt; cbn; now rewrite app_nil_r.
Qed.

Lemma scrape_inv_step (st st' : State) :
  crawl_inv st ->
  (forall u, In u (scrapes (trace st)) ->
     exists n, normalize_url u = Some n /\ In n (sitemap_log (trace st))) ->
  (forall n, count_norm n (scrapes (trace st)) <= 1) ->
  Step st = Next st' ->
  (forall u, In u (scrapes (trace st')) ->
     exists n, normalize_url u = Some n /\ In n (sitemap_log (trace st')))
  /\ (forall n, count_norm n (scrapes (trace st')) <= 1).
Proof.
  intros (_ & Hlog & _) Hin Hcnt Hs.
  destruct (step_summary_scrapes _ _ Hs)
    as [[Ht _] | (u & q & n & new & k & _ & Hn & Hnin & _ & Ht & Hl & Hsc & _)].
  - rewrite Ht. now split.
  - assert (Hlog' : sitemap_log (trace st') = sitemap_log (trace st) ++ [n]).
    { rewrite Ht. unfold sitemap_log in *. now rewrite flat_map_app, Hl. }
    assert (Hsc' : scrapes (trace st')
                   = scrapes (trace st) ++ scrapes new).
    { rewrite Ht. unfold scrapes. now rewrite flat_map_app. }
    rewrite Hlog', Hsc'. split.
    + intros u' Hu'. apply in_app_or in Hu'. destruct Hu' as [Hu'|Hu'].
      * destruct (Hin _ Hu') as (n' & Hn' & Hl').
        exists n'. split; [assumption|]. apply in_or_app. now left.
      * destruct Hsc as [E|E]; rewrite E in Hu'; [contradiction|].
        destruct Hu' as [<-|[]]. exists n. split; [assumption|].
        apply in_or_app. right. now left.
    + intros n0. rewrite count_norm_app.
      destruct Hsc as [E|E]; rewrite E.
      * specialize (Hcnt n0). cbn. lia.
      * destruct (decide (n0 = n)) as [->|Hne].
        -- rewrite (count_norm_zero n (scrapes (trace st))).
           ++ pose proof (count_norm_repeat n u 1) as H1. cbn [repeat] in H1. lia.
           ++ intros u' Hu' Hn'. destruct (Hin _ Hu') as (n' & En & Hl').
              rewrite Hn' in En. injection En as <-. apply Hnin. now apply Hlog.
        -- pose proof (count_norm_repeat_other n n0 u 1 Hn Hne) as H1.
           cbn [repeat] in H1. rewrite H1. specialize (Hcnt n0). lia.
Qed.

(** X3: in a crawl no two scraped URLs have the same normal form, and
    every scraped URL has its normal form in the Sitemap Log. *)
Theorem scraped_once_and_logged (url : string) (vis : option (gset string))
    (w : World) (st : State) :
  Reachable (init_state url vis w) st ->
  (forall n, count_norm n (scrapes (trace st)) <= 1)
  /\ (forall u, In u (scrapes (trace st)) ->
        exists n, normalize_url u = Some n /\ In n (sitemap_log (trace st))).
Proof.
  intros Hr.
  assert (H0 : crawl_inv (init_state url vis w)).
  { unfold crawl_inv. cbn. repeat split; try (intros; contradiction); try lia.
    constructor. }
  cut (crawl_inv st
       /\ (forall u, In u (scrapes (trace st)) ->
             exists n, normalize_url u = Some n /\ In n (sitemap_log (trace st)))
       /\ (forall n, count_norm n (scrapes (trace st)) <= 1)); [tauto|].
  induction Hr as [|st st' Hr IH Hs].
  - split; [assumption|]. cbn. split; [intros u []|intros n; lia].
  - destruct IH as (Hc & Hi & Hn). split.
    + eapply crawl_inv_step; eassumption.
    + eapply scrape_inv_step; eassumption.
Qed.

(** X4: apart from the seed, the crawl connects to, scrapes and
    queues only URLs whose network location is the target host. *)
Theorem only_seed_off_target (seed : string) (vis : option (gset string))
    (w : World) (st : State) :
  Reachable (init_state seed vis w) st ->
  forall u,
    In u (queue st) \/ In u (connects (trace st)) \/ In u (scrapes (trace st)) ->
    u = seed \/ on_target u.
Proof.
  induction 1 as [|st st' _ IH Hs]; intros u Hu.
  - cbn in Hu. destruct Hu as [[<-|[]]|[[]|[]]]. now left.
  - destruct Hu as [Hu|Hu].
    + destruct (step_queue _ _ _ _ _ _ Hs) as (added & Hq & Hall).
      rewrite Hq in Hu. apply in_app_or in Hu. destruct Hu as [Hu|Hu].
      * apply IH. left. destruct (queue st); [contradiction | now right].
      * right. rewrite Forall_forall in Hall. apply list_elem_of_In in Hu.
        now destruct (Hall _ Hu) as [Hp _].
    + destruct (step_summary_scrapes _ _ Hs)
        as [[Ht _] | (u0 & q & n & new & k & Hq & _ & _ & _ & Ht & _ & Hsc & Hc)].
      * rewrite Ht in Hu. apply IH. now right.
      * assert (Hu0 : u0 = seed \/ on_target u0)
          by (apply IH; left; rewrite Hq; now left).
        unfold connects, scrapes in Hu. rewrite Ht, !flat_map_app in Hu.
        fold (connects (trace st)) (connects new) (scrapes (trace st)) (scrapes new) in Hu.
        rewrite Hc in Hu.
        destruct Hu as [Hu|Hu]; apply in_app_or in Hu; destruct Hu as [Hu|Hu].
        -- apply IH. right. now left.
        -- apply repeat_spec in Hu. now subst u.
        -- apply IH. right. now right.
        -- destruct Hsc as [E|E]; rewrite E in Hu; [contradiction|].
           destruct Hu as [<-|[]]. assumption.
Qed.

(** *** When the loop raises, and when it ends *)

(** The page the retry loop hands over is one a connection gave. *)
Lemma retry_loop_soup (attempts : list nat) (u : string) (w w' : World)
    (soup : Page) (ev : list Event) :
  Retry attempts u w = (Some soup, ev, w') ->
  exists w0 w1, connect u w0 = (Some soup, w1).
Proof.
  revert w ev. induction attempts as [|a rest IH]; intros w ev; simpl; [discriminate|].
  unfold attempt. destruct (connect u w) as [[s|] w1] eqn:Ec.
  - destruct (PyStr.contains _ _).
    + destruct (operator_input w1) as [[|] w2].
      * intros [= <- _ _]. eauto.
      * destruct (Retry rest u w2) as [[r2 ev2] w3] eqn:Er.
        intros [= -> _ ->]. eapply IH. exact Er.
    + intros [= <- _ _]. eauto.
  - destruct (Retry rest u w1) as [[r2 ev2] w3] eqn:Er.
    intros [= -> _ ->]. eapply IH. exact Er.
Qed.

Lemma normalize_of_parse (u : string) (parsed : Url.ParseResult) :
  Url.urlparse u = Some parsed -> exists n, normalize_url u = Some n.
Proof. intros H. unfold normalize_url. rewrite H. eauto. Qed.

Lemma discover_total (hrefs : list string) (cur : string) (vis : gset string) :
  (forall href, In href hrefs ->
     exists parsed, Url.urlparse (complete_url href cur) = Some parsed) ->
  forall q, exists q', Discover hrefs cur vis q = Some q'.
Proof.
  induction hrefs as [|href rest IH]; intros Hp q; cbn [discover]; [eauto|].
  assert (Hc : exists q1, Consider cur vis q href = Some q1).
  { unfold consider_link. destruct (_ || _); [eauto|].
    destruct (Hp href (or_introl eq_refl)) as [parsed Hparsed]. rewrite Hparsed.
    destruct (negb _); [eauto|].
    destruct (normalize_of_parse _ _ Hparsed) as [n ->].
    destruct (decide (n ∈ vis)); eauto. }
  destruct Hc as [q1 ->]. apply IH. intros h Hh. apply Hp. now right.
Qed.

Lemma step_not_raised (st : State) :
  site_parses connect complete_url ->
  (forall u, In u (queue st) -> normalize_url u <> None) ->
  forall st', Step st <> Raised st'.
Proof.
  intros Hsite Hq st'. unfold step.
  destruct (queue st) as [|u q]; [discriminate|].
  destruct (normalize_url u) as [n|] eqn:En;
    [|exfalso; apply (Hq u); [now left | assumption]].
  destruct (decide (n ∈ visited st)); [discriminate|].
  destruct (Fetch u (world st)) as [[[soup|] ev] w1] eqn:Ef; [|discriminate].
  destruct (scrape u w1) as [pt w2].
  destruct (retry_loop_soup _ _ _ _ _ _ Ef) as (w0 & w0' & Hc).
  destruct (discover_total (page_hrefs soup) u ({[n]} ∪ visited st)
              (fun href Hin => Hsite u w0 soup w0' href Hc Hin) q) as [q' ->].
  discriminate.
Qed.

Lemma discover_within (S : gset string) (hrefs : list string) (cur : string)
    (vis : gset string) :
  (forall href, In href hrefs ->
     exists parsed, Url.urlparse (complete_url href cur) = Some parsed
       /\ (Url.netloc parsed = target_host ->
           forall n, normalize_url (complete_url href cur) = Some n -> n ∈ S)) ->
  forall q q',
    (forall u, In u q -> exists n, normalize_url u = Some n /\ n ∈ S) ->
    Discover hrefs cur vis q = Some q' ->
    forall u, In u q' -> exists n, normalize_url u = Some n /\ n ∈ S.
Proof.
  induction hrefs as [|href rest IH]; intros Hp q q' Hq; cbn [discover].
  - now intros [= <-].
  - destruct (Consider cur vis q href) as [q1|] eqn:Ec; [|discriminate].
    apply IH; [intros h Hh; apply Hp; now right|].
    destruct (consider_link_spec _ _ _ _ _ _ Ec) as [-> | [-> Hen]]; [assumption|].
    intros u Hu. apply in_app_or in Hu. destruct Hu as [Hu|[<-|[]]]; [now apply Hq|].
    destruct Hen as [(parsed & Hparsed & Hhost) (n & Hn & _)].
    destruct (Hp href (or_introl eq_refl)) as (parsed' & Hparsed' & Hin).
    rewrite Hparsed in Hparsed'. injection Hparsed' as <-.
    exists n. split; [assumption|]. now apply Hin.
Qed.

Lemma step_within (S : gset string) (st st' : State) :
  site_within connect complete_url S ->
  queue_within S st -> Step st = Next st' -> queue_within S st'.
Proof.
  intros Hsite Hq Hs.
  destruct (step_inv _ _ _ _ _ _ Hs) as (u & q & n & Eq & Hn & Hcase).
  assert (Htl : forall u', In u' q -> exists n', normalize_url u' = Some n' /\ n' ∈ S)
    by (intros u' Hu'; apply Hq; rewrite Eq; now right).
  destruct Hcase as [[Hin ->] | [[Hnin (ev & w1 & Hf & ->)]
                               | [Hnin (soup & ev & w1 & pt & w2 & q' & Hf & Hsc & Hd & ->)]]];
    unfold queue_within; cbn [queue]; try assumption.
  destruct (retry_loop_soup _ _ _ _ _ _ Hf) as (w0 & w0' & Hc).
  eapply discover_within; [|exact Htl|exact Hd].
  intros href Hin. exact (Hsite u w0 soup w0' href Hc Hin).
Qed.

Lemma site_within_parses (S : gset string) :
  site_within connect complete_url S -> site_parses connect complete_url.
Proof.
  intros H u w soup w' href Hc Hin.
  destruct (H u w soup w' href Hc Hin) as (parsed & Hp & _). eauto.
Qed.

Lemma size_shrinks (S vis : gset string) (n : string) :
  n ∈ S -> n ∉ vis -> size (S ∖ ({[n]} ∪ vis)) < size (S ∖ vis).
Proof.
  intros Hin Hnin. apply subset_size. split.
  - intros x Hx. apply elem_of_difference in Hx. destruct Hx as [Hx Hx'].
    apply elem_of_difference. split; [assumption|].
    intros Hv. apply Hx'. now apply elem_of_union_r.
  - intros Hsub. assert (Hn : n ∈ S ∖ ({[n]} ∪ vis)).
    { apply Hsub. apply elem_of_difference. now split. }
    apply elem_of_difference in Hn. destruct Hn as [_ Hn]. apply Hn.
    apply elem_of_union_l. now apply elem_of_singleton_2.
Qed.

Lemma step_finished (st : State) : Step st = Finished -> queue st = [].
Proof.
  unfold step. destruct (queue st) as [|u q]; [reflexivity|].
  destruct (normalize_url u); [|discriminate].
  destruct (decide _); [discriminate|].
  destruct (Fetch u (world st)) as [[[soup|] ev] w1]; [|discriminate].
  destruct (scrape u w1). destruct (Discover _ _ _ _); discriminate.
Qed.

Lemma run_empty_queue (st : State) :
  queue st = [] -> Run 1 st = Returned st.
Proof. intros E. cbn. unfold step. now rewrite E. Qed.

Lemma run_after_skip (st : State) (u : string) (q : list string) (n : string)
    (fuel : nat) :
  queue st = u :: q -> normalize_url u = Some n -> n ∈ visited st ->
  Run (Datatypes.S fuel) st
  = Run fuel {| queue := q; visited := visited st; all_tasks := all_tasks st;
                trace := trace st; world := world st |}.
Proof.
  intros Eq Hn Hin. cbn [run].
  now rewrite (step_skip connect operator_input scrape complete_url st u q n Eq Hn Hin).
Qed.

(** A round that pops an unvisited URL of a closed site goes on, with
    the normal form added to the visited set. *)
Lemma step_visits (U : gset string) (st : State) (u : string) (q : list string)
    (n : string) :
  site_within connect complete_url U -> queue_within U st ->
  queue st = u :: q -> normalize_url u = Some n -> n ∉ visited st ->
  exists st1, Step st = Next st1 /\ visited st1 = {[n]} ∪ visited st
              /\ queue_within U st1.
Proof.
  intros Hsite Hq Eq Hn Hnin.
  destruct (Step st) as [|st1|st1] eqn:Es.
  - apply step_finished in Es. rewrite Eq in Es. discriminate.
  - exists st1. split; [reflexivity|]. split; [|eapply step_within; eassumption].
    destruct (step_inv _ _ _ _ _ _ Es) as (u1 & q1 & n1 & Eq1 & Hn1 & Hcase).
    rewrite Eq in Eq1. injection Eq1 as <- <-. rewrite Hn in Hn1. injection Hn1 as <-.
    destruct Hcase as [[Hin _] | [[_ (ev & w1 & _ & ->)]
                                 | [_ (soup & ev & w1 & pt & w2 & q' & _ & _ & _ & ->)]]];
      [contradiction | reflexivity | reflexivity].
  - exfalso. eapply step_not_raised; [|intros u' Hu'|exact Es].
    + eapply site_within_parses; eassumption.
    + destruct (Hq u' Hu') as (n' & -> & _). discriminate.
Qed.

Lemma run_terminates (U : gset string) :
  site_within connect complete_url U ->
  forall k m st,
    size (U ∖ visited st) <= k -> length (queue st) <= m -> queue_within U st ->
    exists fuel st', Run fuel st = Returned st'.
Proof.
  intros Hsite. induction k as [|k IHk]; induction m as [|m IHm]; intros st Hk Hm Hq;
    destruct (queue st) as [|u q] eqn:Eq;
    try (exists 1, st; now apply run_empty_queue);
    try (cbn in Hm; lia).
  - destruct (Hq u) as (n & Hn & HnU); [rewrite Eq; now left|].
    destruct (decide (n ∈ visited st)) as [Hin|Hnin].
    + destruct (IHm {| queue := q; visited := visited st; all_tasks := all_tasks st;
                       trace := trace st; world := world st |})
        as (fuel & st' & Hr).
      * exact Hk.
      * cbn in Hm |- *. lia.
      * intros u' Hu'. apply Hq. rewrite Eq. now right.
      * exists (Datatypes.S fuel), st'. now rewrite (run_after_skip st u q n fuel Eq Hn Hin).
    + exfalso. assert (Hn0 : n ∈ U ∖ visited st)
        by (apply elem_of_difference; now split).
      assert (Hz : size (U ∖ visited st) = 0) by lia.
      apply size_empty_inv in Hz. apply Hz in Hn0.
      now apply elem_of_empty in Hn0.
  - destruct (Hq u) as (n & Hn & HnU); [rewrite Eq; now left|].
    destruct (decide (n ∈ visited st)) as [Hin|Hnin].
    + destruct (IHm {| queue := q; visited := visited st; all_tasks := all_tasks st;
                       trace := trace st; world := world st |})
        as (fuel & st' & Hr).
      * exact Hk.
      * cbn in Hm |- *. lia.
      * intros u' Hu'. apply Hq. rewrite Eq. now right.
      * exists (Datatypes.S fuel), st'. now rewrite (run_after_skip st u q n fuel Eq Hn Hin).
    + destruct (step_visits U st u q n Hsite Hq Eq Hn Hnin) as (st1 & Es & Hv & Hq1).
      destruct (IHk (length (queue st1)) st1) as (fuel & st' & Hr).
      * rewrite Hv. pose proof (size_shrinks U (visited st) n HnU Hnin). lia.
      * lia.
      * exact Hq1.
      * exists (Datatypes.S fuel), st'. cbn [run]. now rewrite Es.
Qed.

(** X6: on a site whose every link resolves to a URL that [urlparse]
    accepts and whose links on the target host have their normal forms
    in a finite set, a crawl from a seed of that set returns: with
    enough fuel the loop ends with an empty queue. *)
Theorem crawl_of_finite_site_returns (U : gset string) (seed : string)
    (vis : option (gset string)) (w : World) :
  site_within connect complete_url U ->
  (exists n, normalize_url seed = Some n /\ n ∈ U) ->
  exists fuel st',
    scrape_recursive_full_site connect operator_input scrape complete_url
      fuel seed vis w = Returned st'
    /\ queue st' = [].
Proof.
  intros Hsite Hseed. unfold scrape_recursive_full_site.
  destruct (run_terminates U Hsite (size (U ∖ visited (init_state seed vis w)))
              (length (queue (init_state seed vis w))) (init_state seed vis w))
    as (fuel & st' & Hr); [lia | lia | |].
  - intros u [<-|[]]. assumption.
  - exists fuel, st'. split; [assumption|].
    clear -Hr. revert Hr. generalize (init_state seed vis w) as st.
    induction fuel as [|fuel IH]; intros st; cbn [run]; [discriminate|].
    destruct (Step st) as [|st1|st1] eqn:Es.
    + intros [= <-]. now apply step_finished.
    + apply IH.
    + discriminate.
Qed.

End FullSiteMore.

(** ** Full-site mode with [MediaScraper.scrape] as the page scraper *)

Section MediaCrawl.

Context {World : Type}.
Variable connect : string -> World -> option Page * World.
Variable operator_input : World -> bool * World.
Variable load : string -> World -> option MediaScraper.Document * World.
Variable is_media : string -> bool.
Variable complete_url : string -> string -> string.

Lemma media_urls_are_media (doc : MediaScraper.Document) (m : string) :
  In m (MediaScraper.media_urls is_media doc) -> is_media m = true.
Proof.
  unfold MediaScraper.media_urls. intros H.
  apply in_app_or in H. destruct H as [H|H].
  - apply in_flat_map in H. destruct H as ([href text] & _ & H). cbn in H.
    apply in_app_or in H. destruct H as [H|H].
    + destruct (is_media href) eqn:E; [|contradiction]. destruct H as [<-|[]]. exact E.
    + destruct (is_media text) eqn:E; [|contradiction]. destruct H as [<-|[]]. exact E.
  - apply in_app_or in H. destruct H as [H|H]; apply filter_In in H; tauto.
Qed.

Lemma media_scrape_tasks (url : string) (w w' : World) (ts : list Task) :
  MediaScraper.scrape load is_media complete_url url w = (Some ts, w') ->
  forall media label hint, In (media, label, hint) ts ->
    label_ok label /\ hint = None
    /\ exists m base, is_media m = true /\ media = complete_url m base.
Proof.
  unfold MediaScraper.scrape. intros H media label hint Hin.
  destruct (load url w) as [[doc|] w1]; [|discriminate].
  destruct (MediaScraper.title doc) as [raw|]; [|discriminate].
  injection H as <- <-. apply in_map_iff in Hin. destruct Hin as (m & E & Hm).
  injection E as <- <- <-. split; [apply sanitize_filename_ok|]. split; [reflexivity|].
  exists m, (MediaScraper.current_url doc). split; [|reflexivity].
  eapply media_urls_are_media; eassumption.
Qed.

(** X7: in a full-site crawl whose page scraper is
    [MediaScraper.scrape], every accumulated task has a sanitized
    label, no file name, and a URL resolved from a string that
    [is_media] accepts. *)
Theorem media_crawl_tasks (url : string) (vis : option (gset string)) (w : World)
    (st : CrawlState World) :
  reachable connect operator_input
            (MediaScraper.scrape load is_media complete_url) complete_url
            (init_state url vis w) st ->
  forall media label hint, In (media, label, hint) (all_tasks st) ->
    label_ok label /\ hint = None
    /\ exists m base, is_media m = true /\ media = complete_url m base.
Proof.
  induction 1 as [|st st' _ IH Hs]; intros media label hint Hin; [destruct Hin|].
  destruct (step_inv _ _ _ _ _ _ Hs) as (u & q & n & _ & _ & Hcase).
  destruct Hcase as [[_ ->] | [[_ (ev & w1 & _ & ->)]
                               | [_ (soup & ev & w1 & pt & w2 & q' & _ & Hsc & _ & ->)]]];
    cbn [all_tasks] in Hin; try (now apply IH).
  destruct pt as [ts|]; [|now apply IH].
  apply in_app_or in Hin. destruct Hin as [Hin|Hin]; [now apply IH|].
  eapply media_scrape_tasks; eassumption.
Qed.

End MediaCrawl.

(** ** The properties above, on the small site *)

Lemma site_two_closed :
  site_within (Demo.connect Demo.site_two) Demo.complete_url Demo.normal_forms_two.
Proof.
  intros u w soup w' href Hc Hin.
  unfold Demo.connect, Demo.site_two in Hc. cbn [Demo.lookup] in Hc.
  destruct (String.eqb Demo.root u); [|destruct (String.eqb Demo.page_b u)];
    cbn in Hc; try discriminate; injection Hc as <- _; cbn in Hin.
  - destruct Hin as [<-|[<-|[<-|[<-|[]]]]]; eexists; (split; [vm_compute; reflexivity|]).
    + intros _ n Hn. vm_compute in Hn. injection Hn as <-.
      apply elem_of_union_r. now apply elem_of_singleton_2.
    + intros _ n Hn. vm_compute in Hn. injection Hn as <-.
      apply elem_of_union_r. now apply elem_of_singleton_2.
    + intros Hh. vm_compute in Hh. discriminate Hh.
    + intros Hh. vm_compute in Hh. discriminate Hh.
  - destruct Hin.
Qed.

Lemma visited_is_start_and_log_witness :
  let st := Demo.crawl_steps 3 Demo.site_two Demo.root in
  visited st = ∅ ∪ list_to_set (sitemap_log (trace st)).
Proof.
  cbn zeta.
  apply (visited_is_start_and_log (Demo.connect Demo.site_two) Demo.operator_input
           (Demo.scrape Demo.site_two) Demo.complete_url Demo.root None 0).
  apply reachable_steps. constructor.
Defined.

Lemma scraped_once_and_logged_witness :
  let st := Demo.crawl_steps 3 Demo.site_two Demo.root in
  count_norm "https://candidteens.net" (scrapes (trace st)) <= 1.
Proof.
  cbn zeta.
  refine (proj1 (scraped_once_and_logged (Demo.connect Demo.site_two)
                   Demo.operator_input (Demo.scrape Demo.site_two) Demo.complete_url
                   Demo.root None 0 _ _) "https://candidteens.net").
  apply reachable_steps. constructor.
Defined.

Lemma only_seed_off_target_witness :
  let st := Demo.crawl_steps 1 Demo.site_two Demo.root in
  In Demo.page_b (queue st)
  /\ (Demo.page_b = Demo.root \/ on_target Demo.page_b).
Proof.
  cbn zeta.
  assert (H : In Demo.page_b (queue (Demo.crawl_steps 1 Demo.site_two Demo.root)))
    by (vm_compute; now left).
  split; [exact H|].
  apply (only_seed_off_target (Demo.connect Demo.site_two) Demo.operator_input
           (Demo.scrape Demo.site_two) Demo.complete_url Demo.root None 0
           (Demo.crawl_steps 1 Demo.site_two Demo.root)).
  - apply reachable_steps. constructor.
  - left. exact H.
Defined.

Lemma crawl_of_finite_site_returns_witness :
  site_within (Demo.connect Demo.site_two) Demo.complete_url Demo.normal_forms_two
  /\ exists fuel st',
       scrape_recursive_full_site (Demo.connect Demo.site_two) Demo.operator_input
         (Demo.scrape Demo.site_two) Demo.complete_url fuel Demo.root None 0
       = Returned st'
       /\ queue st' = [].
Proof.
  split; [apply site_two_closed|].
  apply (crawl_of_finite_site_returns (Demo.connect Demo.site_two) Demo.operator_input
           (Demo.scrape Demo.site_two) Demo.complete_url Demo.normal_forms_two
           Demo.root None 0 site_two_closed).
  exists "https://candidteens.net". split; [vm_compute; reflexivity|].
  apply elem_of_union_l. now apply elem_of_singleton_2.
Defined.

Lemma media_crawl_tasks_witness :
  let st := steps (Demo.connect Demo.site_two) Demo.operator_input
                  (MediaScraper.scrape Demo.load (fun _ => true) Demo.complete_url)
                  Demo.complete_url 1 (init_state Demo.root None 0) in
  In ("x.jpg", "a_b_ c_", None) (all_tasks st) /\ label_ok "a_b_ c_".
Proof.
  cbn zeta.
  assert (H : In ("x.jpg", "a_b_ c_", None)
                 (all_tasks (steps (Demo.connect Demo.site_two) Demo.operator_input
                               (MediaScraper.scrape Demo.load (fun _ => true)
                                                    Demo.complete_url)
                               Demo.complete_url 1 (init_state Demo.root None 0))))
    by (vm_compute; now left).
  split; [exact H|].
  refine (proj1 (media_crawl_tasks (Demo.connect Demo.site_two) Demo.operator_input
                   Demo.load (fun _ => true) Demo.complete_url Demo.root None 0 _ _
                   "x.jpg" "a_b_ c_" None H)).
  apply reachable_steps. constructor.
Defined.

(** ** Bounded-depth mode: termination, work and revisits *)

Section BoundedDepthMore.

Context {World : Type}.
Variable connect : string -> World -> option Page * World.
Variable scrape : string -> World -> option (list Task) * World.
Variable complete_url : string -> string -> string.

Local Abbreviation Rec := (scrape_recursive connect scrape complete_url).

Lemma descend_ext (rec1 rec2 : string -> gset string -> World -> RecResult World)
    (links : list string) :
  (forall link vis w, rec1 link vis w = rec2 link vis w) ->
  forall tasks vis ev w,
    descend rec1 links tasks vis ev w = descend rec2 links tasks vis ev w.
Proof.
  intros H. induction links as [|link rest IH]; intros tasks vis ev w; cbn [descend];
    [reflexivity|].
  rewrite (H link vis w). destruct (rec_status (rec2 link vis w)); [apply IH| |]; reflexivity.
Qed.

Lemma descend_fuelled (recurse : string -> gset string -> World -> RecResult World)
    (links : list string) :
  (forall link vis w, rec_status (recurse link vis w) <> RecOutOfFuel) ->
  forall tasks vis ev w,
    rec_status (descend recurse links tasks vis ev w) <> RecOutOfFuel.
Proof.
  intros H. induction links as [|link rest IH]; intros tasks vis ev w; cbn [descend];
    [discriminate|].
  destruct (rec_status (recurse link vis w)) eqn:E; cbn; [apply IH|discriminate|].
  exfalso. eapply H. exact E.
Qed.

(** X8: with a depth that is not negative, the recursion is at most
    that deep: every amount of fuel above [max_depth] gives the same
    result, and it is a return or an exception. *)
Theorem bounded_depth_terminates (fuel1 fuel2 : nat) (url : string) (max_depth : Z)
    (vis : gset string) (w : World) :
  (0 <= max_depth)%Z ->
  Z.to_nat max_depth < fuel1 -> Z.to_nat max_depth < fuel2 ->
  scrape_recursive connect scrape complete_url fuel1 url max_depth vis w
  = scrape_recursive connect scrape complete_url fuel2 url max_depth vis w
  /\ rec_status (scrape_recursive connect scrape complete_url fuel1 url max_depth vis w)
     <> RecOutOfFuel.
Proof.
  revert fuel2 url max_depth vis w.
  induction fuel1 as [|fuel1 IH]; intros fuel2 url d vis w Hd H1 H2; [lia|].
  destruct fuel2 as [|fuel2]; [lia|].
  cbn [scrape_recursive].
  destruct (bool_decide (url ∈ vis) || (d =? 0)%Z) eqn:G; [split; [reflexivity|discriminate]|].
  assert (Hd' : (0 <= d - 1)%Z /\ Z.to_nat (d - 1) < fuel1 /\ Z.to_nat (d - 1) < fuel2).
  { apply orb_false_iff in G. destruct G as [_ G]. apply Z.eqb_neq in G. lia. }
  destruct Hd' as (Hd0 & Hf1 & Hf2).
  destruct (scrape url w) as [[tasks|] w1]; [|split; [reflexivity|discriminate]].
  destruct (connect url w1) as [[soup|] w2]; [|split; [reflexivity|discriminate]].
  split.
  - apply descend_ext. intros link vis' w'.
    now destruct (IH fuel2 link (d - 1)%Z vis' w' Hd0 Hf1 Hf2).
  - apply descend_fuelled. intros link vis' w'.
    now destruct (IH fuel2 link (d - 1)%Z vis' w' Hd0 Hf1 Hf2).
Qed.

Lemma descend_scrapes_once (recurse : string -> gset string -> World -> RecResult World)
    (links : list string) :
  (forall link vis w,
     vis ⊆ rec_visited (recurse link vis w)
     /\ NoDup (scrapes (rec_events (recurse link vis w)))
     /\ forall u, In u (scrapes (rec_events (recurse link vis w))) ->
          (u ∉ vis) /\ u ∈ rec_visited (recurse link vis w)) ->
  forall vis0 tasks vis ev w,
    vis0 ⊆ vis -> NoDup (scrapes ev) ->
    (forall u, In u (scrapes ev) -> (u ∉ vis0) /\ u ∈ vis) ->
    vis0 ⊆ rec_visited (descend recurse links tasks vis ev w)
    /\ NoDup (scrapes (rec_events (descend recurse links tasks vis ev w)))
    /\ forall u, In u (scrapes (rec_events (descend recurse links tasks vis ev w))) ->
         (u ∉ vis0) /\ u ∈ rec_visited (descend recurse links tasks vis ev w).
Proof.
  intros H. induction links as [|link rest IH]; intros vis0 tasks vis ev w Hsub Hnd Hev;
    cbn [descend]; [cbn; tauto|].
  destruct (H link vis w) as (Hs1 & Hnd1 & Hev1).
  assert (Hsub' : vis0 ⊆ rec_visited (recurse link vis w))
    by (etransitivity; eassumption).
  assert (Hnd' : NoDup (scrapes (ev ++ rec_events (recurse link vis w)))).
  { unfold scrapes. rewrite flat_map_app. apply NoDup_app.
    split; [assumption|]. split; [|assumption].
    intros x Hx Hx'. apply list_elem_of_In in Hx, Hx'.
    destruct (Hev1 _ Hx') as [Hnv _]. apply Hnv. now apply Hev. }
  assert (Hev' : forall u, In u (scrapes (ev ++ rec_events (recurse link vis w))) ->
                   (u ∉ vis0) /\ u ∈ rec_visited (recurse link vis w)).
  { intros u Hu. unfold scrapes in Hu. rewrite flat_map_app in Hu.
    apply in_app_or in Hu. destruct Hu as [Hu|Hu].
    - destruct (Hev _ Hu) as [Hn Hv]. split; [assumption | now apply Hs1].
    - destruct (Hev1 _ Hu) as [Hn Hv]. split; [|assumption].
      intros Hv0. apply Hn. now apply Hsub. }
  destruct (rec_status (recurse link vis w)); cbn; [now apply IH| |]; tauto.
Qed.

(** X9: a bounded-depth traversal scrapes no URL twice and never a
    URL of the visited set it was given; it only adds to that set, and
    what it scraped is in it at the end. *)
Theorem bounded_depth_scrapes_once (fuel : nat) (url : string) (max_depth : Z)
    (vis : gset string) (w : World) :
  vis ⊆ rec_visited (Rec fuel url max_depth vis w)
  /\ NoDup (scrapes (rec_events (Rec fuel url max_depth vis w)))
  /\ forall u, In u (scrapes (rec_events (Rec fuel url max_depth vis w))) ->
       (u ∉ vis) /\ u ∈ rec_visited (Rec fuel url max_depth vis w).
Proof.
  revert url max_depth vis w.
  induction fuel as [|fuel IH]; intros url d vis w; cbn [scrape_recursive].
  - cbn. split; [reflexivity|]. split; [constructor | intros u []].
  - destruct (bool_decide (url ∈ vis) || (d =? 0)%Z) eqn:G.
    + cbn. split; [reflexivity|]. split; [constructor | intros u []].
    + assert (Hnin : url ∉ vis).
      { apply orb_false_iff in G. destruct G as [G _].
        now apply bool_decide_eq_false in G. }
      assert (Hone : forall u, In u [url] -> (u ∉ vis) /\ u ∈ {[url]} ∪ vis).
      { intros u [<-|[]]. split; [assumption|].
        apply elem_of_union_l. now apply elem_of_singleton_2. }
      destruct (scrape url w) as [[tasks|] w1].
      * destruct (connect url w1) as [[soup|] w2].
        -- apply descend_scrapes_once.
           ++ intros link vis' w'. apply IH.
           ++ intros x Hx. now apply elem_of_union_r.
           ++ cbn. apply NoDup_singleton.
           ++ exact Hone.
        -- cbn. split; [intros x Hx; now apply elem_of_union_r|].
           split; [apply NoDup_singleton | exact Hone].
      * cbn. split; [intros x Hx; now apply elem_of_union_r|].
        split; [apply NoDup_singleton | exact Hone].
Qed.

Lemma descend_scrape_count (recurse : string -> gset string -> World -> RecResult World)
    (B : nat) (links : list string) :
  (forall link vis w, length (scrapes (rec_events (recurse link vis w))) <= B) ->
  forall tasks vis ev w,
    length (scrapes (rec_events (descend recurse links tasks vis ev w)))
    <= length (scrapes ev) + length links * B.
Proof.
  intros H. induction links as [|link rest IH]; intros tasks vis ev w; cbn [descend].
  - cbn [rec_events length]. lia.
  - specialize (H link vis w).
    assert (Hl : length (scrapes (ev ++ rec_events (recurse link vis w)))
                 <= length (scrapes ev) + B).
    { unfold scrapes in *. rewrite flat_map_app, length_app. lia. }
    destruct (rec_status (recurse link vis w)); cbn [rec_events length].
    + etransitivity; [apply IH|]. lia.
    + lia.
    + lia.
Qed.

(** X10: when no page has more than [L] anchors, a traversal of depth
    [d] scrapes at most 1 + L + ... + L^(d-1) pages; with depth 1 that
    is the starting page alone. *)
Theorem bounded_depth_work (L : nat) (fuel : nat) (url : string) (d : nat)
    (vis : gset string) (w : World) :
  links_bounded connect L ->
  length (scrapes (rec_events (Rec fuel url (Z.of_nat d) vis w))) <= page_bound L d.
Proof.
  intros HL. revert url d vis w.
  induction fuel as [|fuel IH]; intros url d vis w; cbn [scrape_recursive].
  - cbn. lia.
  - destruct (bool_decide (url ∈ vis) || (Z.of_nat d =? 0)%Z) eqn:G; [cbn; lia|].
    destruct d as [|d]; [apply orb_false_iff in G; destruct G as [_ G]; discriminate G|].
    replace (Z.of_nat (S d) - 1)%Z with (Z.of_nat d) by lia.
    cbn [page_bound].
    destruct (scrape url w) as [[tasks|] w1]; [|cbn; lia].
    destruct (connect url w1) as [[soup|] w2] eqn:Ec; [|cbn; lia].
    etransitivity;
      [apply (descend_scrape_count _ (page_bound L d)); intros link vis' w'; apply IH|].
    cbn [scrapes flat_map length app]. rewrite length_map.
    pose proof (List.filter_length_le followed (page_hrefs soup)) as Hf.
    pose proof (HL url w1 soup w2 Ec) as Hb.
    assert (length (List.filter followed (page_hrefs soup)) * page_bound L d
            <= L * page_bound L d) by (apply Nat.mul_le_mono_r; lia).
    lia.
Qed.

End BoundedDepthMore.

Lemma bounded_depth_terminates_witness :
  let connect := Demo.connect Demo.site_two in
  let scrape := Demo.scrape Demo.site_two in
  scrape_recursive connect scrape Demo.complete_url 4 Demo.root 3 ∅ 0
  = scrape_recursive connect scrape Demo.complete_url 9 Demo.root 3 ∅ 0.
Proof.
  cbn zeta.
  refine (proj1 (bounded_depth_terminates (Demo.connect Demo.site_two)
                   (Demo.scrape Demo.site_two) Demo.complete_url
                   4 9 Demo.root 3 ∅ 0 _ _ _)); cbn; lia.
Defined.

Lemma site_two_links_bounded : links_bounded (Demo.connect Demo.site_two) 4.
Proof.
  intros u w soup w' Hc.
  unfold Demo.connect, Demo.site_two in Hc. cbn [Demo.lookup] in Hc.
  destruct (String.eqb Demo.root u); [|destruct (String.eqb Demo.page_b u)];
    cbn in Hc; try discriminate; injection Hc as <- _; cbn; lia.
Qed.

Lemma bounded_depth_work_witness :
  links_bounded (Demo.connect Demo.site_two) 4
  /\ length (scrapes (rec_events
                (scrape_recursive (Demo.connect Demo.site_two)
                   (Demo.scrape Demo.site_two) Demo.complete_url
                   5 Demo.root (Z.of_nat 1) ∅ 0))) <= 1.
Proof.
  split; [exact site_two_links_bounded|].
  exact (bounded_depth_work (Demo.connect Demo.site_two) (Demo.scrape Demo.site_two)
           Demo.complete_url 4 5 Demo.root 1 ∅ 0 site_two_links_bounded).
Defined.

(** ** Pagination mode: shape of the result, missing keys, runaway feeds *)

Section WalkFacts.

Import InstagramScraper IgFeed.

Context {World : Type}.
Variable fetch_json : Request -> World -> option pyval * World.
Variable parse_node : pyval -> option pyval.

Lemma flat_shape_snoc (username : string) (tasks : list pyval) (t0 t1 : pyval) :
  flat_shape username tasks -> flat_shape username (tasks ++ [t0; PStr username; t1]).
Proof.
  intros [items ->]. exists (items ++ [(t0, t1)]).
  rewrite flat_map_app. cbn. reflexivity.
Qed.

Lemma process_edges_flat (edges : list pyval) (username : string) :
  forall tasks tr w tasks' tr' w',
    process_edges fetch_json parse_node edges username tasks tr w = (Some tasks', tr', w') ->
    flat_shape username tasks -> flat_shape username tasks'.
Proof.
  induction edges as [|edge rest IH]; intros tasks tr w tasks' tr' w'; cbn [process_edges].
  - now intros [= <- _ _].
  - destruct (Py.path ["node"; "shortcode"] edge) as [[| | |sc| |]|]; try discriminate.
    destruct (getJsonData fetch_json _ PNone w) as [[post|] w1]; [|discriminate].
    destruct (Py.path ["graphql"; "shortcode_media"] post) as [node|]; [|discriminate].
    destruct (parse_node node) as [task|]; [|discriminate].
    destruct (Py.index 0 task) as [t0|]; [|discriminate].
    destruct (Py.index 1 task) as [t1|]; [|discriminate].
    intros H Hs. eapply IH; [exact H|]. now apply flat_shape_snoc.
Qed.

Lemma walk_flat (fuel : nat) (username : string) :
  forall edges h c uid tasks tr w tasks',
    status (walk fetch_json parse_node fuel edges h c uid username tasks tr w)
    = Returned tasks' ->
    flat_shape username tasks -> flat_shape username tasks'.
Proof.
  induction fuel as [|fuel IH]; intros edges h c uid tasks tr w tasks'; cbn [walk];
    [discriminate|].
  destruct (Py.len edges) as [[|k]|]; [now intros [= <-]| |discriminate].
  destruct (Py.iter edges) as [items|]; [|discriminate].
  destruct (process_edges fetch_json parse_node items username tasks tr w)
    as [[[tasks1|] tr1] w1] eqn:Ep; [|discriminate].
  intros H Hs. pose proof (process_edges_flat _ _ _ _ _ _ _ _ Ep Hs) as Hs1.
  destruct (Py.truthy h); [|now injection H as <-].
  destruct (getJsonData fetch_json uid c w1) as [[data|] w2]; [|discriminate].
  destruct (Py.path (media_path ++ ["page_info"; "has_next_page"]) data) as [h'|];
    [|discriminate].
  destruct (Py.path (media_path ++ ["page_info"; "end_cursor"]) data) as [c'|];
    [|discriminate].
  eapply IH; eassumption.
Qed.

(** X11: whatever the endpoint and the parser return, the list
    [scrape] returns is flat: groups of three elements, the first
    component of a parsed item, the user name, the second component.
    It is not a list of triples, and its length is a multiple of 3. *)
Theorem scrape_result_is_flat (fuel : nat) (username : string) (w : World)
    (tasks : list pyval) :
  status (scrape fetch_json parse_node fuel username w) = Returned tasks ->
  flat_shape username tasks /\ exists k, length tasks = 3 * k.
Proof.
  intros H.
  assert (Hs : flat_shape username tasks).
  { revert H. unfold scrape.
    destruct (getJsonData fetch_json (PStr username) PNone w) as [[data|] w1];
      [|discriminate].
    destruct (Py.path ["graphql"; "user"] data) as [user|]; [|discriminate].
    destruct (Py.subscript "id" user) as [uid|]; [|discriminate].
    destruct (Py.subscript "edge_owner_to_timeline_media" user) as [media|];
      [|discriminate].
    destruct (Py.subscript "count" media); [|discriminate].
    destruct (Py.subscript "page_info" media) as [pi|]; [|discriminate].
    destruct (Py.subscript "edges" media) as [edges|]; [|discriminate].
    destruct (Py.subscript "has_next_page" pi) as [h|]; [|discriminate].
    destruct (Py.subscript "end_cursor" pi) as [c|]; [|discriminate].
    intros H. eapply walk_flat; [exact H|]. now exists []. }
  split; [exact Hs|]. destruct Hs as [items ->]. exists (length items). clear H.
  induction items as [|it items IH]; cbn [flat_map length app]; [reflexivity|].
  cbn. rewrite IH. lia.
Qed.

(** X12: when one of the keys the first payload is read at is
    missing, [scrape] raises after that single request: no item is
    asked for and no batch is walked. *)
Theorem missing_key_raises (fuel : nat) (username : string) (w w1 : World)
    (data : pyval) (missing : list string) :
  fetch_json (JsonDataUrl (PStr username)) w = (Some data, w1) ->
  In missing required_paths -> Py.path missing data = None ->
  scrape fetch_json parse_node fuel username w
  = {| status := Raised; requests := [Get (JsonDataUrl (PStr username))];
       final := w1 |}.
Proof.
  intros Hf Hin Hp. unfold scrape, getJsonData. cbn [request_of]. rewrite Hf.
  unfold required_paths, profile_media in Hin. cbn [app] in Hin.
  cbn [Py.path] in *.
  destruct (Py.subscript "graphql" data) as [g|] eqn:Eg; [|reflexivity].
  destruct (Py.subscript "user" g) as [user|] eqn:Eu; [|reflexivity].
  destruct (Py.subscript "id" user) as [uid|] eqn:Eid.
  2: { destruct (Py.subscript "edge_owner_to_timeline_media" user); reflexivity. }
  destruct (Py.subscript "edge_owner_to_timeline_media" user) as [media|] eqn:Em;
    [|reflexivity].
  destruct (Py.subscript "count" media) as [cnt|] eqn:Ec.
  2: { destruct (Py.subscript "page_info" media); [|reflexivity].
       destruct (Py.subscript "edges" media); reflexivity. }
  destruct (Py.subscript "page_info" media) as [pi|] eqn:Epi.
  2: { destruct (Py.subscript "edges" media); reflexivity. }
  destruct (Py.subscript "edges" media) as [edges|] eqn:Ee; [|reflexivity].
  destruct (Py.subscript "has_next_page" pi) as [h|] eqn:Eh.
  2: { destruct (Py.subscript "end_cursor" pi); reflexivity. }
  destruct (Py.subscript "end_cursor" pi) as [c|] eqn:Ecu; [|reflexivity].
  exfalso. destruct Hin as [<-|[<-|[<-|[<-|[<-|[]]]]]]; cbn [Py.path] in Hp;
    repeat match type of Hp with
           | context [Py.subscript ?k ?v] =>
               match goal with
               | E : Py.subscript k v = _ |- _ => rewrite E in Hp
               end
           end; discriminate Hp.
Qed.

End WalkFacts.

Section MockWalks.

Import InstagramScraper IgFeed.

(** The loop over the items against an endpoint that answers every
    item request. *)
Lemma process_edges_items {World : Type}
    (fetch : Request -> World -> option pyval * World) (nxt : World -> World)
    (scs : list string) (username : string) :
  (forall sc w, fetch (JsonDataUrl (PStr ("p/" ++ sc)%string)) w
                = (Some (post_response sc), nxt w)) ->
  forall tasks tr w,
    process_edges fetch mock_parse_node (map edge_json scs) username tasks tr w
    = (Some (tasks ++ flat_map (fun sc => [PStr sc; PStr username; PNone]) scs),
       tr ++ map (fun sc => Get (JsonDataUrl (PStr ("p/" ++ sc)%string))) scs,
       Nat.iter (length scs) nxt w).
Proof.
  intros Hitem. induction scs as [|sc scs IH]; intros tasks tr w.
  - cbn. now rewrite !app_nil_r.
  - cbn [map process_edges]. rewrite path_edge.
    unfold getJsonData. cbn [request_of]. rewrite Hitem, path_post.
    cbn [mock_parse_node Py.index nth_error]. rewrite IH.
    cbn [flat_map map length]. rewrite <- !app_assoc. cbn [app].
    now rewrite Nat.iter_succ_r.
Qed.

Lemma batch_requests_items (scs : list string) :
  batch_requests (map (fun sc => Get (JsonDataUrl (PStr ("p/" ++ sc)%string))) scs) = [].
Proof. exact (batch_requests_posts {| b_shortcodes := scs; b_has_more := true; b_cursor := "" |}). Qed.

Lemma item_requests_items (scs : list string) :
  item_requests (map (fun sc => Get (JsonDataUrl (PStr ("p/" ++ sc)%string))) scs) = scs.
Proof. exact (item_requests_posts {| b_shortcodes := scs; b_has_more := true; b_cursor := "" |}). Qed.

Lemma walk_stuck (b : Batch) (username : string) :
  b_has_more b = true -> b_shortcodes b <> [] ->
  forall fuel tasks tr w,
    let r := walk (stuck_fetch b) mock_parse_node fuel
                  (PList (map edge_json (b_shortcodes b))) (PBool (b_has_more b))
                  (PStr (b_cursor b)) mock_user_id username tasks tr w in
    status r = OutOfFuel
    /\ length (batch_requests (requests r)) = length (batch_requests tr) + fuel.
Proof.
  intros Hm Hne. induction fuel as [|fuel IH]; intros tasks tr w; cbn zeta.
  - cbn [walk status requests]. split; [reflexivity | lia].
  - cbn [walk Py.len Py.iter]. rewrite length_map.
    destruct (b_shortcodes b) as [|sc scs] eqn:Es; [contradiction|].
    cbn [length].
    rewrite (process_edges_items (stuck_fetch b) S (sc :: scs) username)
      by (intros; reflexivity).
    rewrite Hm. cbn [Py.truthy].
    cbn -[walk flat_map edge_json map Nat.iter batch_requests].
    rewrite Es, Hm.
    match goal with
    | |- context [walk _ _ fuel _ _ _ _ _ ?t ?tr' ?w'] =>
        destruct (IH t tr' w') as [Hs Hl]
    end.
    rewrite <- Es in Hs, Hl. rewrite Hm in Hs, Hl. rewrite Es in Hs, Hl.
    split; [exact Hs|]. rewrite Hl.
    unfold batch_requests. rewrite !flat_map_app.
    fold (batch_requests tr)
         (batch_requests (map (fun sc => Get (JsonDataUrl (PStr ("p/" ++ sc)%string)))
                              (sc :: scs))).
    rewrite batch_requests_items, !length_app. cbn. lia.
Qed.

(** X13: against an endpoint that keeps announcing more with a batch
    that is not empty, the walk never returns: whatever the fuel, it
    is used up, with one more batch request for every round. *)
Theorem stuck_feed_never_returns (b : Batch) (username : string) (fuel : nat) (w : nat) :
  b_has_more b = true -> b_shortcodes b <> [] ->
  PyStr.startswith "p/" username = false ->
  let r := scrape (stuck_fetch b) mock_parse_node fuel username w in
  status r = OutOfFuel /\ length (batch_requests (requests r)) = S fuel.
Proof.
  intros Hm Hne Hu. cbn zeta. unfold scrape, getJsonData.
  cbn [request_of stuck_fetch]. rewrite Hu.
  cbn -[walk flat_map edge_json map batch_requests].
  destruct (walk_stuck b username Hm Hne fuel []
              [Get (JsonDataUrl (PStr username))] (S w)) as [Hs Hl].
  split; [exact Hs|]. rewrite Hl. cbn [batch_requests flat_map item_of].
  rewrite Hu. reflexivity.
Qed.

(** X14: a continuation payload without the edges is printed and
    the walk goes on with the edges of the batch before: its items are
    asked for and added a second time. *)
Theorem stale_edges_are_walked_again (scs : list string) (username cursor : string)
    (fuel : nat) :
  scs <> [] -> PyStr.startswith "p/" username = false ->
  let b := {| b_shortcodes := scs; b_has_more := true; b_cursor := cursor |} in
  let r := scrape raw_fetch mock_parse_node (2 + fuel) username
                  [first_response b; no_edges_response false] in
  status r = Returned (flat_items username b ++ flat_items username b)
  /\ item_requests (requests r) = scs ++ scs
  /\ In (PrintPayload (no_edges_response false)) (requests r).
Proof.
  intros Hne Hu. cbn zeta. unfold scrape, getJsonData.
  cbn [request_of raw_fetch]. rewrite Hu.
  cbn -[walk flat_map edge_json map item_requests no_edges_response].
  destruct scs as [|sc scs]; [contradiction|].
  cbn [walk Py.len Py.iter Nat.add]. rewrite length_map. cbn [length].
  rewrite (process_edges_items raw_fetch (fun w => w) (sc :: scs) username)
    by (intros; reflexivity).
  cbn [Py.truthy]. unfold getJsonData. cbn [request_of mock_user_id raw_fetch].
  replace (Nat.iter (length (sc :: scs)) (fun w : list pyval => w)
                    [no_edges_response false])
    with [no_edges_response false]
    by (induction (length (sc :: scs)) as [|k IHk]; [reflexivity | exact IHk]).
  cbn [Py.path Py.subscript Py.assoc media_path app no_edges_response String.eqb
       Ascii.eqb Bool.eqb].
  cbn [Py.len Py.iter]. rewrite length_map. cbn [length].
  rewrite (process_edges_items raw_fetch (fun w => w) (sc :: scs) username)
    by (intros; reflexivity).
  cbn [Py.truthy status requests]. unfold flat_items. cbn [b_shortcodes].
  split; [reflexivity|]. split.
  - unfold item_requests. rewrite flat_map_app. cbn [flat_map item_of]. rewrite Hu.
    rewrite !flat_map_app.
    fold (item_requests (map (fun sc => Get (JsonDataUrl (PStr ("p/" ++ sc)%string)))
                             (sc :: scs))).
    rewrite item_requests_items. cbn [flat_map item_of app].
    now rewrite !app_nil_r.
  - apply in_or_app. left. right. apply in_or_app. right. now left.
Qed.

End MockWalks.

Lemma scrape_result_is_flat_witness :
  InstagramScraper.status
    (InstagramScraper.mock_scrape 2 "user" InstagramScraper.feed_two)
  = InstagramScraper.Returned
      [PStr "a"; PStr "user"; PNone; PStr "b"; PStr "user"; PNone;
       PStr "c"; PStr "user"; PNone]
  /\ exists k, length [PStr "a"; PStr "user"; PNone; PStr "b"; PStr "user"; PNone;
                       PStr "c"; PStr "user"; PNone] = 3 * k.
Proof.
  assert (H : InstagramScraper.status
                (InstagramScraper.mock_scrape 2 "user" InstagramScraper.feed_two)
              = InstagramScraper.Returned
                  [PStr "a"; PStr "user"; PNone; PStr "b"; PStr "user"; PNone;
                   PStr "c"; PStr "user"; PNone])
    by (vm_compute; reflexivity).
  split; [exact H|].
  exact (proj2 (scrape_result_is_flat InstagramScraper.mock_fetch
                  InstagramScraper.mock_parse_node 2 "user"
                  InstagramScraper.feed_two _ H)).
Defined.

Lemma missing_key_raises_witness :
  let data := PDict [("graphql", PDict [("user", PDict [("id", PStr "42")])])] in
  InstagramScraper.status
    (InstagramScraper.scrape IgFeed.raw_fetch InstagramScraper.mock_parse_node
       5 "user" [data])
  = InstagramScraper.Raised.
Proof.
  cbn zeta.
  rewrite (missing_key_raises IgFeed.raw_fetch InstagramScraper.mock_parse_node
             5 "user" [PDict [("graphql", PDict [("user", PDict [("id", PStr "42")])])]]
             []
             (PDict [("graphql", PDict [("user", PDict [("id", PStr "42")])])])
             ["graphql"; "user"; "edge_owner_to_timeline_media"; "count"]).
  - reflexivity.
  - reflexivity.
  - right. left. reflexivity.
  - reflexivity.
Defined.

Lemma stuck_feed_never_returns_witness :
  let b := {| InstagramScraper.b_shortcodes := ["a"];
              InstagramScraper.b_has_more := true;
              InstagramScraper.b_cursor := "c" |} in
  InstagramScraper.status
    (InstagramScraper.scrape (IgFeed.stuck_fetch b) InstagramScraper.mock_parse_node
       7 "user" 0)
  = InstagramScraper.OutOfFuel.
Proof.
  cbn zeta.
  refine (proj1 (stuck_feed_never_returns
                   {| InstagramScraper.b_shortcodes := ["a"];
                      InstagramScraper.b_has_more := true;
                      InstagramScraper.b_cursor := "c" |} "user" 7 0 _ _ _)).
  - reflexivity.
  - discriminate.
  - reflexivity.
Defined.

Lemma stale_edges_are_walked_again_witness :
  let b := {| InstagramScraper.b_shortcodes := ["a"; "b"];
              InstagramScraper.b_has_more := true;
              InstagramScraper.b_cursor := "c" |} in
  InstagramScraper.item_requests
    (InstagramScraper.requests
       (InstagramScraper.scrape IgFeed.raw_fetch InstagramScraper.mock_parse_node
          2 "user" [InstagramScraper.first_response b; IgFeed.no_edges_response false]))
  = ["a"; "b"; "a"; "b"].
Proof.
  cbn zeta.
  refine (proj1 (proj2 (stale_edges_are_walked_again ["a"; "b"] "user" "c" 0 _ _))).
  - discriminate.
  - reflexivity.
Defined.

(** ** [sanitize_filename]: what it keeps and what it empties *)

Lemma re_sub_forbidden_id (name : string) :
  (forall c, In c (list_ascii_of_string name) -> ~ In c forbidden_chars) ->
  re_sub_forbidden name = name.
Proof.
  induction name as [|a r IH]; intros H; cbn [re_sub_forbidden]; [reflexivity|].
  assert (Ha : is_forbidden a = false).
  { destruct (is_forbidden a) eqn:E; [|reflexivity].
    exfalso. apply (H a); [now left|]. now apply mem_In. }
  rewrite Ha, IH; [reflexivity|]. intros c Hc. apply H. now right.
Qed.

Lemma strip_front_none (fuel : nat) (ps : list (list ascii)) (l : list ascii) :
  PyStr.chop_any ps l = None -> PyStr.strip_front fuel ps l = l.
Proof. intros H. destruct fuel; cbn; [reflexivity | now rewrite H]. Qed.

Lemma strip_id (s : string) :
  starts_with_whitespace s = false -> ends_with_whitespace s = false ->
  PyStr.strip s = s.
Proof.
  unfold starts_with_whitespace, ends_with_whitespace, PyStr.strip.
  destruct (PyStr.chop_any PyStr.whitespace_fwd _) eqn:E1; [discriminate|].
  destruct (PyStr.chop_any PyStr.whitespace_bwd _) eqn:E2; [discriminate|].
  intros _ _. rewrite (strip_front_none _ _ _ E1), (strip_front_none _ _ _ E2).
  now rewrite rev_involutive, string_of_list_ascii_of_string.
Qed.

Lemma rstrip_id (cs : list ascii) (s : string) :
  (forall c, PyStr.last_char s = Some c -> PyStr.mem c cs = false) ->
  PyStr.rstrip cs s = s.
Proof.
  induction s as [|a r IH]; intros H; cbn; [reflexivity|].
  destruct r as [|b r'].
  - cbn. rewrite (H a eq_refl). reflexivity.
  - rewrite IH by (intros c Hc; apply H; exact Hc). reflexivity.
Qed.

(** X15: a name that is already clean (none of the forbidden
    characters, no whitespace at either end, no dot at the end) comes
    back from [sanitize_filename] as it is. *)
Theorem sanitize_clean_name (name : string) :
  label_ok name ->
  starts_with_whitespace name = false -> ends_with_whitespace name = false ->
  sanitize_filename name = name.
Proof.
  intros (Hf & Hdot & Hsp) Hs He. unfold sanitize_filename.
  rewrite (re_sub_forbidden_id name Hf), (strip_id name Hs He).
  apply rstrip_id. intros c Hc. cbn.
  destruct (Ascii.eqb_spec c ".") as [->|_]; [contradiction|].
  destruct (Ascii.eqb_spec c " ") as [->|_]; [contradiction|]. reflexivity.
Qed.

Lemma rstrip_all (cs : list ascii) (s : string) :
  (forall c, In c (list_ascii_of_string s) -> PyStr.mem c cs = true) ->
  PyStr.rstrip cs s = EmptyString.
Proof.
  induction s as [|a r IH]; intros H; cbn; [reflexivity|].
  rewrite IH by (intros c Hc; apply H; now right).
  cbn. now rewrite (H a (or_introl eq_refl)).
Qed.

(** X16: a title made of dots and spaces only gives the empty label. *)
Theorem sanitize_dots_and_spaces (name : string) :
  (forall c, In c (list_ascii_of_string name) -> c = "."%char \/ c = " "%char) ->
  sanitize_filename name = EmptyString.
Proof.
  intros H. unfold sanitize_filename. apply rstrip_all.
  intros c Hc. apply strip_In in Hc. rewrite re_sub_forbidden_spec in Hc.
  apply in_map_iff in Hc. destruct Hc as (a & <- & Ha).
  destruct (H a Ha) as [->| ->]; reflexivity.
Qed.

(** X17: the label [sanitize_filename] returns never begins with a
    whitespace character, whatever the title. *)
Theorem sanitize_no_leading_whitespace (name : string) :
  starts_with_whitespace (sanitize_filename name) = false.
Proof.
  unfold sanitize_filename.
  pose proof (strip_no_leading_whitespace (re_sub_forbidden name)) as H.
  unfold starts_with_whitespace in *.
  destruct (rstrip_prefix ["."; " "]%char (PyStr.strip (re_sub_forbidden name)))
    as [suf E].
  rewrite E in H.
  destruct (PyStr.chop_any PyStr.whitespace_fwd
              (list_ascii_of_string
                 (PyStr.rstrip ["."; " "]%char (PyStr.strip (re_sub_forbidden name)))
               ++ suf))
    eqn:E1; [discriminate H|].
  apply chop_any_prefix_none in E1. now rewrite E1.
Qed.

Lemma sanitize_clean_name_witness :
  label_ok "holiday 2018" /\ sanitize_filename "holiday 2018" = "holiday 2018".
Proof.
  assert (H : label_ok "holiday 2018").
  { split; [|split; discriminate].
    intros c Hc Hf. apply mem_In in Hf.
    cbn in Hc.
    repeat (destruct Hc as [<-|Hc]; [vm_compute in Hf; discriminate Hf|]). destruct Hc. }
  split; [exact H|].
  apply (sanitize_clean_name "holiday 2018" H); reflexivity.
Defined.

Lemma sanitize_dots_and_spaces_witness :
  sanitize_filename ". .. ." = EmptyString.
Proof.
  apply sanitize_dots_and_spaces. intros c Hc. cbn in Hc.
  repeat (destruct Hc as [<-|Hc]; [tauto|]). destruct Hc.
Defined.

(** ** [normalize_url] on ordinary URLs *)

Lemma append_cons (a : ascii) (r s : string) : String a r +:+ s = String a (r +:+ s).
Proof. reflexivity. Qed.

Lemma append_nil_l (s : string) : "" +:+ s = s.
Proof. reflexivity. Qed.

Lemma append_nil_r (s : string) : s +:+ "" = s.
Proof. induction s as [|a r IH]; [reflexivity | now rewrite append_cons, IH]. Qed.

Lemma append_assoc (a b c : string) : (a +:+ b) +:+ c = a +:+ b +:+ c.
Proof. induction a as [|x a IH]; [reflexivity | now rewrite !append_cons, IH]. Qed.

Lemma lacks_char (cs : list ascii) (a : ascii) (r : string) :
  lacks cs (String a r) = true -> PyStr.mem a cs = false /\ lacks cs r = true.
Proof.
  unfold lacks. cbn. intros H. apply andb_true_iff in H. destruct H as [H1 H2].
  split; [now apply negb_true_iff in H1 | exact H2].
Qed.

Lemma lacks_app (cs : list ascii) (a b : string) :
  lacks cs a = true -> lacks cs b = true -> lacks cs (a +:+ b) = true.
Proof.
  intros Ha Hb. induction a as [|x a IH]; rewrite ?append_cons, ?append_nil_l; [exact Hb|].
  apply lacks_char in Ha. destruct Ha as [Hx Ha].
  unfold lacks in *. cbn [PyStr.forall_chars]. now rewrite Hx, IH.
Qed.

(** Fewer characters to avoid are avoided too. *)
Lemma lacks_sub (cs cs' : list ascii) (s : string) :
  (forall c, In c cs' -> In c cs) -> lacks cs s = true -> lacks cs' s = true.
Proof.
  intros Hsub. induction s as [|a r IH]; intros H; [reflexivity|].
  apply lacks_char in H. destruct H as [Ha Hr].
  unfold lacks in *. cbn. rewrite IH by exact Hr.
  destruct (PyStr.mem a cs') eqn:E; [|reflexivity].
  apply mem_In, Hsub, mem_In in E. congruence.
Qed.

Lemma lacks_not_mem (cs : list ascii) (c a : ascii) :
  In c cs -> PyStr.mem a cs = false -> Ascii.eqb a c = false.
Proof.
  intros Hin Hm. destruct (Ascii.eqb_spec a c) as [->|]; [|reflexivity].
  apply mem_In in Hin. congruence.
Qed.

Lemma remove_lacks (cs : list ascii) (s : string) :
  lacks cs s = true -> PyStr.remove cs s = s.
Proof.
  induction s as [|a r IH]; intros H; cbn; [reflexivity|].
  apply lacks_char in H. destruct H as [Ha Hr]. now rewrite Ha, IH.
Qed.

Lemma find_lacks (cs : list ascii) (c : ascii) (s : string) :
  In c cs -> lacks cs s = true -> PyStr.find c s = None.
Proof.
  intros Hin. induction s as [|a r IH]; intros H; cbn; [reflexivity|].
  apply lacks_char in H. destruct H as [Ha Hr].
  now rewrite (lacks_not_mem cs c a Hin Ha), IH.
Qed.

Lemma contains_lacks (cs : list ascii) (c : ascii) (s : string) :
  In c cs -> lacks cs s = true -> PyStr.contains (String c "") s = false.
Proof.
  intros Hin. induction s as [|a r IH]; intros H; cbn; [reflexivity|].
  apply lacks_char in H. destruct H as [Ha Hr].
  rewrite IH by exact Hr.
  destruct (Ascii.eqb_spec c a) as [->|]; [|reflexivity].
  apply mem_In in Hin. congruence.
Qed.

Lemma find_app (cs : list ascii) (c : ascii) (a b : string) :
  In c cs -> lacks cs a = true ->
  PyStr.find c (a +:+ b)
  = match PyStr.find c b with
    | Some i => Some (String.length a + i)
    | None => None
    end.
Proof.
  intros Hin. induction a as [|x a IH]; intros H; rewrite ?append_cons, ?append_nil_l;
    cbn [PyStr.find String.length Nat.add].
  - now destruct (PyStr.find c b).
  - apply lacks_char in H. destruct H as [Hx Ha].
    rewrite (lacks_not_mem cs c x Hin Hx), IH by exact Ha.
    now destruct (PyStr.find c b).
Qed.

Lemma take_app (a b : string) (i : nat) :
  PyStr.take (String.length a + i) (a +:+ b) = a +:+ PyStr.take i b.
Proof.
  induction a as [|x a IH]; rewrite ?append_cons, ?append_nil_l;
    cbn [PyStr.take String.length Nat.add]; [reflexivity | now rewrite IH].
Qed.

Lemma drop_app (a b : string) (i : nat) :
  PyStr.drop (String.length a + i) (a +:+ b) = PyStr.drop i b.
Proof.
  induction a as [|x a IH]; rewrite ?append_cons, ?append_nil_l;
    cbn [PyStr.drop String.length Nat.add]; [reflexivity | exact IH].
Qed.

Lemma take_0 (s : string) : PyStr.take 0 s = "".
Proof. now destruct s. Qed.

(** The first of [cs] in [a +:+ b] is where [b] starts, when [a] has
    none and [b] is empty or starts with one. *)
Lemma find_any_app (cs : list ascii) (a b : string) :
  lacks cs a = true ->
  (b = "" \/ exists x r, b = String x r /\ PyStr.mem x cs = true) ->
  PyStr.find_any cs (a +:+ b) = String.length a.
Proof.
  intros Ha Hb. induction a as [|x a IH]; rewrite ?append_cons, ?append_nil_l;
    cbn [PyStr.find_any String.length].
  - destruct Hb as [->|(y & r & -> & Hy)]; cbn; [reflexivity | now rewrite Hy].
  - apply lacks_char in Ha. destruct Ha as [Hx Ha]. now rewrite Hx, IH.
Qed.

Lemma startswith_char (c : ascii) (s : string) :
  PyStr.startswith (String c "") s = true -> exists r, s = String c r.
Proof.
  destruct s as [|x r]; cbn [PyStr.startswith]; [discriminate|].
  intros H. apply andb_true_iff in H. destruct H as [Hx _].
  apply Ascii.eqb_eq in Hx. subst x. now exists r.
Qed.

Lemma split_fragment (path tail : string) :
  lacks path_stops path = true ->
  (tail = "" \/ PyStr.startswith "?" tail = true \/ PyStr.startswith "#" tail = true) ->
  exists t' f,
    match PyStr.split_once "#" (path +:+ tail) with
    | Some (u, f) => (u, f)
    | None => (path +:+ tail, "")
    end = (path +:+ t', f)
    /\ (t' = "" \/ PyStr.startswith "?" t' = true).
Proof.
  intros Hp Ht. unfold PyStr.split_once.
  rewrite (find_app path_stops "#" path tail) by (cbn; tauto || exact Hp).
  destruct (PyStr.find "#" tail) as [i|] eqn:Ef.
  - rewrite take_app.
    exists (PyStr.take i tail),
           (PyStr.drop (S (String.length path + i)) (path +:+ tail)).
    split; [reflexivity|].
    destruct Ht as [->|[Ht|Ht]]; [discriminate Ef| |];
      apply startswith_char in Ht; destruct Ht as [r ->]; cbn in Ef.
    + destruct (PyStr.find "#" r); [|discriminate Ef]. injection Ef as <-.
      right. reflexivity.
    + injection Ef as <-. left. reflexivity.
  - exists tail, "". split; [reflexivity|].
    destruct Ht as [->|[Ht|Ht]]; [now left | now right |].
    apply startswith_char in Ht. destruct Ht as [r ->]. cbn in Ef. discriminate Ef.
Qed.

Lemma split_query (path t' : string) :
  lacks path_stops path = true ->
  (t' = "" \/ PyStr.startswith "?" t' = true) ->
  exists q,
    match PyStr.split_once "?" (path +:+ t') with
    | Some (u, q) => (u, q)
    | None => (path +:+ t', "")
    end = (path, q).
Proof.
  intros Hp Ht. unfold PyStr.split_once.
  rewrite (find_app path_stops "?" path t') by (cbn; tauto || exact Hp).
  destruct Ht as [->|Ht].
  - cbn [PyStr.find]. exists "". now rewrite append_nil_r.
  - apply startswith_char in Ht. destruct Ht as [r ->]. cbn [PyStr.find].
    rewrite Ascii.eqb_refl, take_app, take_0, append_nil_r. now eexists.
Qed.

Lemma lstrip_keep (cs : list ascii) (a : ascii) (r : string) :
  PyStr.mem a cs = false -> PyStr.lstrip cs (String a r) = String a r.
Proof. intros H. cbn [PyStr.lstrip]. now rewrite H. Qed.

Lemma remove_keep (cs : list ascii) (a : ascii) (r : string) :
  PyStr.mem a cs = false -> PyStr.remove cs (String a r) = String a (PyStr.remove cs r).
Proof. intros H. cbn [PyStr.remove]. now rewrite H. Qed.

Lemma plain_rest_clean (host path tail : string) :
  plain_parts host path tail ->
  lacks Url.unsafe_bytes (host +:+ path +:+ tail) = true.
Proof.
  intros (_ & Hh & _ & Hp & _ & Ht).
  apply lacks_app; [|apply lacks_app; [|exact Ht]].
  - apply (lacks_sub host_stops); [|exact Hh]. intros c Hc. cbn in *. tauto.
  - apply (lacks_sub path_stops); [|exact Hp]. intros c Hc. cbn in *. tauto.
Qed.

(** After the host comes nothing, or one of the three delimiters. *)
Lemma plain_rest_delimited (path tail : string) :
  (path = "" \/ PyStr.startswith "/" path = true) ->
  (tail = "" \/ PyStr.startswith "?" tail = true \/ PyStr.startswith "#" tail = true) ->
  path +:+ tail = ""
  \/ exists x r, path +:+ tail = String x r
                 /\ PyStr.mem x ["/"; "?"; "#"]%char = true.
Proof.
  intros [->|Hp] Ht.
  - rewrite append_nil_l. destruct Ht as [->|[Ht|Ht]]; [now left| |];
      apply startswith_char in Ht; destruct Ht as [r ->]; right; eauto.
  - apply startswith_char in Hp. destruct Hp as [r ->]. right.
    rewrite append_cons. eauto.
Qed.

Lemma splitnetloc_plain (host path tail : string) :
  plain_parts host path tail ->
  Url.splitnetloc (String "/" (String "/" (host +:+ path +:+ tail)))
  = (host, path +:+ tail).
Proof.
  intros (_ & Hh & Hps & _ & Hts & _). unfold Url.splitnetloc.
  change (PyStr.drop 2 (String "/" (String "/" (host +:+ path +:+ tail))))
    with (host +:+ path +:+ tail).
  rewrite find_any_app.
  - rewrite <- (Nat.add_0_r (String.length host)).
    rewrite take_app, drop_app, take_0, append_nil_r. reflexivity.
  - apply (lacks_sub host_stops); [|exact Hh]. intros c Hc. cbn in *. tauto.
  - now apply plain_rest_delimited.
Qed.

Lemma brackets_ok_plain (host : string) :
  lacks host_stops host = true -> Url.brackets_ok host = true.
Proof.
  intros Hh. unfold Url.brackets_ok.
  rewrite (contains_lacks host_stops "[" host), (contains_lacks host_stops "]" host);
    [reflexivity | cbn; tauto | exact Hh | cbn; tauto | exact Hh].
Qed.

Lemma alpha_not_stripped (a : ascii) :
  Url.is_alpha a = true -> PyStr.mem a Url.c0_control_or_space = false.
Proof.
  destruct a as [[] [] [] [] [] [] [] []]; vm_compute; intros H;
    first [reflexivity | discriminate H].
Qed.

Lemma scheme_char_plain (a : ascii) :
  Url.scheme_char a = true -> PyStr.mem a (":"%char :: Url.unsafe_bytes) = false.
Proof.
  destruct a as [[] [] [] [] [] [] [] []]; vm_compute; intros H;
    first [reflexivity | discriminate H].
Qed.

Lemma scheme_lacks (s : string) :
  PyStr.forall_chars Url.scheme_char s = true ->
  lacks (":"%char :: Url.unsafe_bytes) s = true.
Proof.
  induction s as [|a r IH]; [reflexivity|]. cbn [PyStr.forall_chars].
  intros H. apply andb_true_iff in H. destruct H as [Ha Hr].
  unfold lacks in *. cbn [PyStr.forall_chars].
  now rewrite (scheme_char_plain a Ha), IH.
Qed.

Lemma take_length_app (s b : string) : PyStr.take (String.length s) (s +:+ b) = s.
Proof.
  rewrite <- (Nat.add_0_r (String.length s)), take_app, take_0. apply append_nil_r.
Qed.

Lemma drop_succ_length_app (s : string) (c : ascii) (b : string) :
  PyStr.drop (S (String.length s)) (s +:+ String c b) = b.
Proof.
  induction s as [|x s IH]; [reflexivity|].
  rewrite append_cons. cbn [String.length PyStr.drop]. exact IH.
Qed.

(** [urlsplit] takes the scheme off an ordinary URL. *)
Lemma split_scheme_plain (sch rest : string) :
  scheme_ok sch = true ->
  Url.split_scheme (sch +:+ "://" +:+ rest) = (PyStr.lower sch, "//" +:+ rest).
Proof.
  intros Hs. destruct sch as [|a r]; [discriminate Hs|].
  cbn [scheme_ok] in Hs. apply andb_true_iff in Hs. destruct Hs as [Ha Hall].
  pose proof (scheme_lacks _ Hall) as Hl.
  unfold Url.split_scheme.
  rewrite (find_app (":"%char :: Url.unsafe_bytes) ":" (String a r) ("://" +:+ rest))
    by (cbn; tauto || exact Hl).
  change (PyStr.find ":" ("://" +:+ rest)) with (Some 0). cbv beta iota.
  rewrite Nat.add_0_r. cbn [String.length].
  change (S (String.length r)) with (String.length (String a r)).
  change ("://" +:+ rest) with (String ":" ("//" +:+ rest)).
  rewrite take_length_app, drop_succ_length_app.
  rewrite append_cons, Ha, Hall. reflexivity.
Qed.

Lemma urlsplit_plain (sch host path tail : string) :
  scheme_ok sch = true -> plain_parts host path tail ->
  exists q f,
    Url.urlsplit (sch +:+ "://" +:+ host +:+ path +:+ tail)
    = if Url.checknetloc host then Some (PyStr.lower sch, host, path, q, f) else None.
Proof.
  intros Hs Hparts.
  pose proof (plain_rest_clean _ _ _ Hparts) as HR.
  pose proof (splitnetloc_plain _ _ _ Hparts) as Hnet.
  destruct Hparts as (Hne & Hh & Hps & Hp & Hts & Ht).
  pose proof (brackets_ok_plain host Hh) as Hb.
  assert (Hopen : PyStr.contains "[" host = false)
    by (apply (contains_lacks host_stops); [cbn; tauto | exact Hh]).
  destruct (split_fragment path tail Hp Hts) as (t' & f & Ef & Ht').
  destruct (split_query path t' Hp Ht') as (q & Eq).
  exists q, f. unfold Url.urlsplit.
  assert (Hkeep : PyStr.lstrip Url.c0_control_or_space
                    (sch +:+ "://" +:+ host +:+ path +:+ tail)
                  = sch +:+ "://" +:+ host +:+ path +:+ tail).
  { destruct sch as [|a r]; [discriminate Hs|]. rewrite append_cons.
    apply lstrip_keep, alpha_not_stripped.
    cbn [scheme_ok] in Hs. apply andb_true_iff in Hs. tauto. }
  assert (Hclean : lacks Url.unsafe_bytes (sch +:+ "://" +:+ host +:+ path +:+ tail) = true).
  { apply lacks_app; [|apply lacks_app; [reflexivity | exact HR]].
    apply (lacks_sub (":"%char :: Url.unsafe_bytes)); [intros c Hc; now right|].
    apply scheme_lacks. destruct sch as [|a r]; [discriminate Hs|].
    cbn [scheme_ok] in Hs. apply andb_true_iff in Hs. tauto. }
  rewrite Hkeep, (remove_lacks _ _ Hclean), (split_scheme_plain sch _ Hs).
  cbv beta iota.
  change (PyStr.startswith "//" ("//" +:+ host +:+ path +:+ tail)) with true.
  cbv beta iota.
  change ("//" +:+ host +:+ path +:+ tail)
    with (String "/" (String "/" (host +:+ path +:+ tail))).
  rewrite Hnet. cbv beta iota. rewrite Hb, Hopen. cbv beta iota delta [negb andb].
  rewrite Ef. cbv beta iota. rewrite Eq.
  now destruct (Url.checknetloc host).
Qed.

Lemma urlparse_plain (sch host path tail : string) :
  scheme_ok sch = true -> plain_parts host path tail ->
  exists q f,
    Url.urlparse (sch +:+ "://" +:+ host +:+ path +:+ tail)
    = if Url.checknetloc host
      then Some {| Url.scheme := PyStr.lower sch; Url.netloc := host; Url.path := path;
                   Url.params := ""; Url.query := q; Url.fragment := f |}
      else None.
Proof.
  intros Hs Hparts. destruct (urlsplit_plain sch host path tail Hs Hparts) as (q & f & E).
  exists q, f. unfold Url.urlparse. rewrite E.
  destruct (Url.checknetloc host); [|reflexivity]. cbv beta iota.
  destruct Hparts as (_ & _ & _ & Hp & _).
  rewrite (contains_lacks path_stops ";" path) by (cbn; tauto || exact Hp).
  now rewrite andb_false_r.
Qed.

Lemma rstrip_head (cs : list ascii) (path : string) :
  (path = "" \/ PyStr.startswith "/" path = true) ->
  PyStr.rstrip cs path = "" \/ PyStr.startswith "/" (PyStr.rstrip cs path) = true.
Proof.
  intros [->|H]; [now left|].
  apply startswith_char in H. destruct H as [r ->]. cbn [PyStr.rstrip].
  destruct (PyStr.is_empty (PyStr.rstrip cs r) && PyStr.mem "/" cs); [now left|].
  right. reflexivity.
Qed.

Lemma urlunparse_plain (host p : string) :
  host <> "" -> (p = "" \/ PyStr.startswith "/" p = true) ->
  Url.urlunparse "https" host p "" "" "" = "https://" +:+ host +:+ p.
Proof.
  intros Hne Hp. unfold Url.urlunparse, Url.urlunsplit.
  assert (Hh : PyStr.is_empty host = false) by (destruct host; [contradiction|reflexivity]).
  assert (Hc : negb (PyStr.is_empty p) && negb (PyStr.startswith "/" p) = false).
  { destruct Hp as [->|Hp]; [reflexivity|]. rewrite Hp. now rewrite andb_false_r. }
  cbn [PyStr.is_empty negb]. rewrite Hh. cbn [negb orb]. rewrite Hc. reflexivity.
Qed.

(** A host within ASCII passes the NFKC check as it is. *)
Lemma checknetloc_ascii (host : string) :
  PyStr.isascii host = true -> Url.checknetloc host = true.
Proof. intros H. unfold Url.checknetloc. now rewrite H, orb_true_r. Qed.

(** The normal form of an ordinary URL, when its host passes the NFKC
    check; there is none when it does not. *)
Lemma normalize_url_ordinary (sch host path tail : string) :
  scheme_ok sch = true -> plain_parts host path tail ->
  normalize_url (sch +:+ "://" +:+ host +:+ path +:+ tail)
  = if Url.checknetloc host
    then Some ("https://" +:+ host +:+ PyStr.rstrip ["/"]%char path)
    else None.
Proof.
  intros Hs Hparts. destruct (urlparse_plain sch host path tail Hs Hparts) as (q & f & E).
  unfold normalize_url. rewrite E.
  destruct (Url.checknetloc host); [|reflexivity]. cbn [Url.path Url.netloc].
  destruct Hparts as (Hne & _ & Hps & _).
  rewrite urlunparse_plain; [reflexivity | exact Hne | now apply rstrip_head].
Qed.

(** X18: for an ordinary URL, which is a scheme, a host within ASCII,
    a path and an optional query and fragment, the normal form is
    [https://], the host, and the path without its trailing slashes:
    scheme, query and fragment make no difference. *)
Theorem normalize_url_plain (sch host path tail : string) :
  scheme_ok sch = true -> plain_parts host path tail ->
  PyStr.isascii host = true ->
  normalize_url (sch +:+ "://" +:+ host +:+ path +:+ tail)
  = Some ("https://" +:+ host +:+ PyStr.rstrip ["/"]%char path).
Proof.
  intros Hs Hparts Hascii.
  destruct (urlparse_plain sch host path tail Hs Hparts) as (q & f & E).
  rewrite (checknetloc_ascii host Hascii) in E.
  unfold normalize_url. rewrite E. cbn [Url.path Url.netloc].
  destruct Hparts as (Hne & _ & Hps & _).
  rewrite urlunparse_plain; [reflexivity | exact Hne | now apply rstrip_head].
Qed.

Lemma lacks_rstrip (cs ds : list ascii) (s : string) :
  lacks cs s = true -> lacks cs (PyStr.rstrip ds s) = true.
Proof.
  induction s as [|a r IH]; intros H; [reflexivity|].
  apply lacks_char in H. destruct H as [Ha Hr]. cbn [PyStr.rstrip].
  destruct (PyStr.is_empty (PyStr.rstrip ds r) && PyStr.mem a ds); [reflexivity|].
  unfold lacks in *. cbn [PyStr.forall_chars]. now rewrite Ha, IH.
Qed.

Lemma rstrip_idempotent (cs : list ascii) (s : string) :
  PyStr.rstrip cs (PyStr.rstrip cs s) = PyStr.rstrip cs s.
Proof. apply rstrip_id. intros c Hc. eapply rstrip_last. exact Hc. Qed.

(** X19: on ordinary URLs normalization is idempotent: the normal
    form of a URL is its own normal form. *)
Theorem normalize_url_idempotent (sch host path tail n : string) :
  In sch ["http"; "https"] -> plain_parts host path tail ->
  normalize_url (sch +:+ "://" +:+ host +:+ path +:+ tail) = Some n ->
  normalize_url n = Some n.
Proof.
  intros Hs Hparts Hn.
  assert (Hs' : scheme_ok sch = true) by (destruct Hs as [<-|[<-|[]]]; reflexivity).
  rewrite (normalize_url_ordinary sch host path tail Hs' Hparts) in Hn.
  destruct (Url.checknetloc host) eqn:Hc; [|discriminate Hn].
  injection Hn as <-.
  destruct Hparts as (Hne & Hh & Hps & Hp & _ & _).
  pose proof (normalize_url_ordinary "https" host (PyStr.rstrip ["/"]%char path) "") as H.
  rewrite append_nil_r, rstrip_idempotent, Hc in H. apply H; [reflexivity|].
  repeat split; try assumption.
  - now apply rstrip_head.
  - now apply lacks_rstrip.
  - now left.
Qed.

Lemma normalize_url_plain_witness :
  plain_parts "example.com" "/a/b//" "?page=2#top"
  /\ normalize_url "http://example.com/a/b//?page=2#top"
     = Some "https://example.com/a/b".
Proof.
  assert (H : plain_parts "example.com" "/a/b//" "?page=2#top").
  { repeat split; try reflexivity; try discriminate.
    - right. reflexivity.
    - right. left. reflexivity. }
  split; [exact H|].
  exact (normalize_url_plain "http" "example.com" "/a/b//" "?page=2#top"
           eq_refl H eq_refl).
Defined.

Lemma normalize_url_idempotent_witness :
  normalize_url "http://example.com/a/b//?page=2#top" = Some "https://example.com/a/b"
  /\ normalize_url "https://example.com/a/b" = Some "https://example.com/a/b".
Proof.
  assert (H : plain_parts "example.com" "/a/b//" "?page=2#top").
  { repeat split; try reflexivity; try discriminate.
    - right. reflexivity.
    - right. left. reflexivity. }
  assert (Hn : normalize_url ("http" +:+ "://" +:+ "example.com" +:+ "/a/b//" +:+ "?page=2#top")
               = Some "https://example.com/a/b") by (vm_compute; reflexivity).
  split; [exact Hn|].
  exact (normalize_url_idempotent "http" "example.com" "/a/b//" "?page=2#top" _
           (or_introl eq_refl) H Hn).
Defined.

(** ** The same visited entry *)

Lemma host_path_inj (h1 h2 p1 p2 : string) :
  lacks ["/"]%char h1 = true -> lacks ["/"]%char h2 = true ->
  (p1 = "" \/ PyStr.startswith "/" p1 = true) ->
  (p2 = "" \/ PyStr.startswith "/" p2 = true) ->
  h1 +:+ p1 = h2 +:+ p2 -> h1 = h2 /\ p1 = p2.
Proof.
  revert h2. induction h1 as [|a h1 IH]; intros h2 L1 L2 P1 P2 E.
  - rewrite append_nil_l in E. destruct h2 as [|b h2].
    + rewrite append_nil_l in E. now split.
    + exfalso. rewrite append_cons in E.
      destruct P1 as [->|P1]; [discriminate E|].
      apply startswith_char in P1. destruct P1 as [r ->]. injection E as <- _.
      apply lacks_char in L2. destruct L2 as [L2 _]. discriminate L2.
  - destruct h2 as [|b h2].
    + exfalso. rewrite append_nil_l, append_cons in E.
      destruct P2 as [->|P2]; [discriminate E|].
      apply startswith_char in P2. destruct P2 as [r ->]. injection E as -> _.
      apply lacks_char in L1. destruct L1 as [L1 _]. discriminate L1.
    + rewrite !append_cons in E. injection E as <- E.
      apply lacks_char in L1. destruct L1 as [_ L1].
      apply lacks_char in L2. destruct L2 as [_ L2].
      destruct (IH h2 L1 L2 P1 P2 E) as [-> ->]. now split.
Qed.

Section SameEntry.

Context {World : Type}.
Variable connect : string -> World -> option Page * World.
Variable operator_input : World -> bool * World.
Variable scrape : string -> World -> option (list Task) * World.
Variable complete_url : string -> string -> string.

(** C9: the normal form of an ordinary URL is [https://], its host
    and its path without the trailing slashes, so that
    [https://example.com/a/] and [https://example.com/a] have the
    normal form [https://example.com/a]; two ordinary URLs have the
    same normal form exactly when they have the same host and the same
    path up to trailing slashes, whatever their schemes, queries and
    fragments.  In a crawl, once a round has popped one of two such
    URLs, a later round that pops the other drops it: the state keeps
    its trace, so nothing is logged, fetched or scraped. *)
Theorem trailing_slash_same_entry
    (sch1 sch2 host1 host2 path1 path2 tail1 tail2 : string) :
  scheme_ok sch1 = true -> scheme_ok sch2 = true ->
  plain_parts host1 path1 tail1 -> plain_parts host2 path2 tail2 ->
  PyStr.isascii host1 = true -> PyStr.isascii host2 = true ->
  let u1 := sch1 +:+ "://" +:+ host1 +:+ path1 +:+ tail1 in
  let u2 := sch2 +:+ "://" +:+ host2 +:+ path2 +:+ tail2 in
  normalize_url "https://example.com/a/" = Some "https://example.com/a"
  /\ normalize_url "https://example.com/a" = Some "https://example.com/a"
  /\ normalize_url u1 = Some ("https://" +:+ host1 +:+ PyStr.rstrip ["/"]%char path1)
  /\ normalize_url u2 = Some ("https://" +:+ host2 +:+ PyStr.rstrip ["/"]%char path2)
  /\ (normalize_url u1 = normalize_url u2
      <-> host1 = host2
          /\ PyStr.rstrip ["/"]%char path1 = PyStr.rstrip ["/"]%char path2)
  /\ (normalize_url u1 = normalize_url u2 ->
      forall (seed : string) (vis : option (gset string)) (w : World)
             (st st' st2 : CrawlState World) (q q2 : list string),
        reachable connect operator_input scrape complete_url
                  (init_state seed vis w) st ->
        queue st = u1 :: q ->
        step connect operator_input scrape complete_url st = Next st' ->
        reachable connect operator_input scrape complete_url st' st2 ->
        queue st2 = u2 :: q2 ->
        step connect operator_input scrape complete_url st2
        = Next {| queue := q2; visited := visited st2;
                  all_tasks := all_tasks st2; trace := trace st2;
                  world := world st2 |}).
Proof.
  intros Hs1 Hs2 Hp1 Hp2 Ha1 Ha2. cbn zeta.
  pose proof (normalize_url_ordinary sch1 host1 path1 tail1 Hs1 Hp1) as N1.
  pose proof (normalize_url_ordinary sch2 host2 path2 tail2 Hs2 Hp2) as N2.
  rewrite (checknetloc_ascii host1 Ha1) in N1.
  rewrite (checknetloc_ascii host2 Ha2) in N2.
  split; [vm_compute; reflexivity|]. split; [vm_compute; reflexivity|].
  split; [exact N1|]. split; [exact N2|]. split.
  - rewrite N1, N2. split.
    + intros [= E].
      destruct Hp1 as (_ & Hh1 & Hps1 & _). destruct Hp2 as (_ & Hh2 & Hps2 & _).
      apply host_path_inj; try assumption.
      * apply (lacks_sub host_stops); [|exact Hh1]. intros c Hc. cbn in *. tauto.
      * apply (lacks_sub host_stops); [|exact Hh2]. intros c Hc. cbn in *. tauto.
      * now apply rstrip_head.
      * now apply rstrip_head.
    + now intros [-> ->].
  - intros E seed vis w st st' st2 q q2 _ Hq Hs Hr Hq2.
    rewrite N1 in E. symmetry in E.
    apply (step_skip connect operator_input scrape complete_url st2 _ q2 _ Hq2 E).
    apply (visited_grows connect operator_input scrape complete_url st' st2 Hr).
    exact (step_marks_visited connect operator_input scrape complete_url
             st st' _ q _ Hq N1 Hs).
Qed.

End SameEntry.

Lemma trailing_slash_same_entry_witness :
  let st2 := Demo.crawl_steps 2 Demo.site_slash Demo.root in
  normalize_url Demo.page_a_slash = Some Demo.page_a
  /\ normalize_url Demo.page_a_query = Some Demo.page_a
  /\ queue st2 = [Demo.page_a_query]
  /\ step (Demo.connect Demo.site_slash) Demo.operator_input
          (Demo.scrape Demo.site_slash) Demo.complete_url st2
     = Next {| queue := []; visited := visited st2; all_tasks := all_tasks st2;
               trace := trace st2; world := world st2 |}.
Proof.
  cbn zeta.
  assert (P1 : plain_parts "candidteens.net" "/a/" "").
  { repeat split; try reflexivity; try discriminate.
    - right. reflexivity.
    - left. reflexivity. }
  assert (P2 : plain_parts "candidteens.net" "/a" "?page=2#top").
  { repeat split; try reflexivity; try discriminate.
    - right. reflexivity.
    - right. left. reflexivity. }
  destruct (trailing_slash_same_entry (Demo.connect Demo.site_slash) Demo.operator_input
              (Demo.scrape Demo.site_slash) Demo.complete_url
              "https" "http" "candidteens.net" "candidteens.net" "/a/" "/a" "" "?page=2#top"
              eq_refl eq_refl P1 P2 eq_refl eq_refl)
    as (_ & _ & N1 & N2 & _ & Hskip).
  split; [exact N1|]. split; [exact N2|]. split; [vm_compute; reflexivity|].
  apply (Hskip eq_refl Demo.root None 0
           (Demo.crawl_steps 1 Demo.site_slash Demo.root)
           (Demo.crawl_steps 2 Demo.site_slash Demo.root)
           (Demo.crawl_steps 2 Demo.site_slash Demo.root)
           [Demo.page_a_query] []).
  - apply reachable_steps. constructor.
  - vm_compute. reflexivity.
  - apply (step_next_or_stay (Demo.connect Demo.site_slash)). vm_compute. reflexivity.
  - apply reach_start.
  - vm_compute. reflexivity.
Defined.

(** ** [scrollToBottom] *)

Section ScrollFacts.

Context {World : Type}.
Variable read_height : World -> option Z * World.
Variable scroll_to : World -> bool * World.
Variable fn : option (World -> option bool * World).

Local Abbreviation Loop := (scroll_loop read_height scroll_to fn).

Lemma unsettled_no_scroll (new last : Z) (w w1 : World) (c : option bool)
    (ev1 : list ScrollEvent) :
  unsettled fn new last w = (c, ev1, w1) -> scrolls ev1 = 0.
Proof.
  unfold unsettled. destruct (negb _); [now intros [= _ <- _]|].
  destruct fn as [f|]; [|now intros [= _ <- _]].
  destruct (f w). now intros [= _ <- _].
Qed.

Lemma scrolls_app (a b : list ScrollEvent) : scrolls (a ++ b) = scrolls a + scrolls b.
Proof. unfold scrolls. now rewrite List.filter_app, length_app. Qed.

Lemma scroll_loop_bound (fuel : nat) :
  forall times counter last new ev w,
    (counter <= times)%Z ->
    scrolls (scroll_events (Loop fuel times counter last new ev w))
    <= scrolls ev + Z.to_nat (times - counter)
    /\ (Z.to_nat (times - counter) < fuel ->
        scroll_status (Loop fuel times counter last new ev w) <> ScrollOutOfFuel).
Proof.
  assert (S3 : scrolls [ScrollTo; Pause; ReadHeight] = 1) by reflexivity.
  assert (S1 : scrolls [ScrollTo] = 1) by reflexivity.
  induction fuel as [|fuel IH]; intros times counter last new ev w Hc; cbn [scroll_loop].
  - cbn [scroll_events scroll_status]. split; lia.
  - destruct (unsettled fn new last w) as [[c ev1] w1] eqn:E1.
    pose proof (unsettled_no_scroll _ _ _ _ _ _ E1) as H1.
    destruct c as [c|];
      [|cbn [scroll_events scroll_status]; rewrite scrolls_app; split; [lia|discriminate]].
    destruct (c && (counter <? times)%Z) eqn:G.
    + apply andb_true_iff in G. destruct G as [_ G]. apply Z.ltb_lt in G.
      destruct (scroll_to w1) as [[|] w2]; cbn [negb].
      * destruct (read_height w2) as [[h|] w3].
        -- destruct (IH times (counter + 1)%Z new h
                        (ev ++ ev1 ++ [ScrollTo; Pause; ReadHeight]) w3) as [Hb Hf]; [lia|].
           rewrite !scrolls_app, S3 in Hb. split; [lia|].
           intros Hlt. apply Hf. lia.
        -- cbn [scroll_events scroll_status]. rewrite !scrolls_app, S3.
           split; [lia|discriminate].
      * cbn [scroll_events scroll_status]. rewrite !scrolls_app, S1.
        split; [lia|discriminate].
    + destruct (unsettled fn new last w1) as [[c2 ev2] w2] eqn:E2.
      pose proof (unsettled_no_scroll _ _ _ _ _ _ E2) as H2.
      destruct c2; cbn [scroll_events scroll_status]; rewrite !scrolls_app;
        (split; [lia|discriminate]).
Qed.

(** X20: with a bound [times] that is not negative, [scrollToBottom]
    scrolls at most [times] times, and the loop ends: any fuel above
    [times] is enough. *)
Theorem scroll_to_bottom_bounded (fuel : nat) (times : Z) (w : World) :
  (0 <= times)%Z ->
  scrolls (scroll_events (scrollToBottom read_height scroll_to fn fuel times w))
  <= Z.to_nat times
  /\ (Z.to_nat times < fuel ->
      scroll_status (scrollToBottom read_height scroll_to fn fuel times w)
      <> ScrollOutOfFuel).
Proof.
  intros Ht. unfold scrollToBottom.
  assert (E : (times <? 0)%Z = false) by (apply Z.ltb_ge; lia). rewrite E.
  destruct (read_height w) as [[h|] w1];
    [|cbn [scroll_events scroll_status]; split; [change (scrolls [ReadHeight]) with 0; lia
                                                |discriminate]].
  destruct (scroll_loop_bound fuel times 0%Z h 0%Z [ReadHeight] w1 Ht) as [Hb Hf].
  rewrite Z.sub_0_r in Hb, Hf. change (scrolls [ReadHeight]) with 0 in Hb.
  split; [lia | exact Hf].
Qed.

End ScrollFacts.

(** X21: on a page whose height stays the same and is not zero, and
    without [fn], [scrollToBottom] scrolls exactly twice before it
    returns [True]: the first round compares with 0, not with the
    height read before the loop. *)
Theorem scroll_static_page {World : Type}
    (read_height : World -> option Z * World) (scroll_to : World -> bool * World)
    (h times : Z) (fuel : nat) (w : World) :
  (forall w, fst (read_height w) = Some h) ->
  (forall w, fst (scroll_to w) = true) ->
  h <> 0%Z -> (times < 0 \/ 2 <= times)%Z ->
  let r := scrollToBottom read_height scroll_to None (3 + fuel) times w in
  scroll_status r = ScrollReturned true
  /\ scroll_events r
     = [ReadHeight; ScrollTo; Pause; ReadHeight; ScrollTo; Pause; ReadHeight].
Proof.
  intros Hr Hs Hh Ht. cbn zeta. unfold scrollToBottom.
  set (t := if (times <? 0)%Z then sys_maxsize else times).
  assert (Ht2 : (2 <= t)%Z).
  { subst t. destruct (times <? 0)%Z eqn:E; [unfold sys_maxsize; lia|].
    apply Z.ltb_ge in E. lia. }
  assert (Hread : forall w, exists w', read_height w = (Some h, w')).
  { intros w0. specialize (Hr w0). destruct (read_height w0) as [x w']. cbn in Hr.
    subst x. now exists w'. }
  assert (Hscroll : forall w, exists w', scroll_to w = (true, w')).
  { intros w0. specialize (Hs w0). destruct (scroll_to w0) as [x w']. cbn in Hs.
    subst x. now exists w'. }
  destruct (Hread w) as [w1 ->].
  cbn [scroll_loop Nat.add]. unfold unsettled.
  assert (E0 : (0 =? h)%Z = false) by (apply Z.eqb_neq; lia).
  assert (Eh : (h =? 0)%Z = false) by (apply Z.eqb_neq; lia).
  rewrite E0. cbn [negb andb].
  assert (L0 : (0 <? t)%Z = true) by (apply Z.ltb_lt; lia). rewrite L0.
  destruct (Hscroll w1) as [w2 ->]. cbn [negb]. destruct (Hread w2) as [w3 ->].
  rewrite Eh. cbn [negb andb].
  assert (L1 : (0 + 1 <? t)%Z = true) by (apply Z.ltb_lt; lia). rewrite L1.
  destruct (Hscroll w3) as [w4 ->]. cbn [negb]. destruct (Hread w4) as [w5 ->].
  rewrite Z.eqb_refl. cbn [negb andb]. split; reflexivity.
Qed.

Lemma scroll_to_bottom_bounded_witness :
  let read := fun w : nat => (Some (Z.of_nat w), S w) in
  let scroll := fun w : nat => (true, w) in
  scrolls (scroll_events (scrollToBottom read scroll None 9 2 5)) <= 2.
Proof.
  cbn zeta.
  refine (proj1 (scroll_to_bottom_bounded
                   (fun w : nat => (Some (Z.of_nat w), S w)) (fun w : nat => (true, w))
                   None 9 2 5 _)).
  lia.
Defined.

Lemma scroll_static_page_witness :
  let read := fun w : nat => (Some 700%Z, S w) in
  let scroll := fun w : nat => (true, w) in
  scroll_status (scrollToBottom read scroll None 3 (-1) 0) = ScrollReturned true.
Proof.
  cbn zeta.
  refine (proj1 (scroll_static_page (fun w : nat => (Some 700%Z, S w))
                   (fun w : nat => (true, w)) 700 (-1) 0 0 _ _ _ _)).
  - intros w. reflexivity.
  - intros w. reflexivity.
  - discriminate.
  - left. lia.
Defined.
